(** * TaskArena: the job-queue orchestration engine

    A shallow embedding of the two worker implementations of the
    repository and of the scoreboard drain:

    - [service.py]: the background service ([enqueue_job], [claim_job],
      [finish_job], [run_plan], [run_apply], [log_event], [process_job],
      [Worker.run]);
    - [.agents/tools/util.py], [worker.py], [judge.py]: the file-queue
      tools ([enqueue], [claim], [finish], [claude_plan_apply],
      [run_once], [load_score], [save_score] and the drain loop).

    The file system, the process-wide caches, the event log and the trace
    of agent invocations are one explicit [world]; Python code that can
    raise is written in a state-and-exception monad over it. *)

From Stdlib Require Import ZArith Lia List String Ascii Bool.
From stdpp Require Import base option list gmap strings sorting.

Local Open Scope string_scope.
Local Open Scope Z_scope.
Local Open Scope list_scope.

(** ** Python strings *)

Module PyStr.

(** [str.isspace] on the code points below 256. *)
Definition is_space (c : ascii) : bool :=
  let n := nat_of_ascii c in
  ((9 <=? n)%nat && (n <=? 13)%nat) || ((28 <=? n)%nat && (n <=? 32)%nat)
  || (n =? 133)%nat || (n =? 160)%nat.

Fixpoint lstrip (s : string) : string :=
  match s with
  | String c s' => if is_space c then lstrip s' else s
  | EmptyString => EmptyString
  end.

(** [rstrip] keeps a character when it is not a space or when something
    survives to its right. *)
Fixpoint rstrip (s : string) : string :=
  match s with
  | String c s' =>
      match rstrip s' with
      | EmptyString => if is_space c then EmptyString else String c EmptyString
      | r => String c r
      end
  | EmptyString => EmptyString
  end.

(** [s.strip()] *)
Definition strip (s : string) : string := rstrip (lstrip s).

Fixpoint starts_with (p s : string) : bool :=
  match p, s with
  | EmptyString, _ => true
  | String a p', String b s' => if Ascii.eqb a b then starts_with p' s' else false
  | String _ _, EmptyString => false
  end.

(** [p in s] *)
Fixpoint contains (p s : string) : bool :=
  starts_with p s ||
  match s with
  | String _ s' => contains p s'
  | EmptyString => false
  end.

(** [s.endswith(p)] *)
Definition ends_with (p s : string) : bool :=
  let lp := String.length p in
  let ls := String.length s in
  (lp <=? ls)%nat && String.eqb (String.substring (ls - lp) lp s) p.

(** Truthiness of a [str]. *)
Definition nonempty (s : string) : bool :=
  match s with EmptyString => false | _ => true end.

(** [a or b] on strings. *)
Definition or_else (a b : string) : string := if nonempty a then a else b.

End PyStr.

(** ** JSON values, as [json.loads] builds them and [json.dumps] reads them.

    A [float] is kept with millisecond resolution ([JFloat ms] stands for
    [ms / 1000]): the only floats of the program are [time.time()] and a
    latency rounded to three decimals. A [dict] is an association list in
    insertion order with unique keys. *)

#[local] Set Warnings "-register-all".

Inductive jvalue : Type :=
| JNull
| JBool (b : bool)
| JInt (z : Z)
| JFloat (ms : Z)
| JStr (s : string)
| JArr (l : list jvalue)
| JObj (kv : list (string * jvalue)).

Module Dict.

Definition t := list (string * jvalue).

Fixpoint get (k : string) (d : t) : option jvalue :=
  match d with
  | [] => None
  | (k', v) :: d' => if String.eqb k k' then Some v else get k d'
  end.

(** [d[k] = v]: an existing key keeps its position. *)
Fixpoint set (k : string) (v : jvalue) (d : t) : t :=
  match d with
  | [] => [(k, v)]
  | (k', v') :: d' => if String.eqb k k' then (k, v) :: d' else (k', v') :: set k v d'
  end.

(** [d.setdefault(k, v)] *)
Definition setdefault (k : string) (v : jvalue) (d : t) : t :=
  match get k d with
  | Some _ => d
  | None => set k v d
  end.

Definition has (k : string) (d : t) : bool :=
  match get k d with Some _ => true | None => false end.

End Dict.

(** Truthiness, as [x or y] and [if x] test it. *)
Definition truthy (v : jvalue) : bool :=
  match v with
  | JNull => false
  | JBool b => b
  | JInt z => negb (z =? 0)
  | JFloat ms => negb (ms =? 0)
  | JStr s => PyStr.nonempty s
  | JArr l => match l with [] => false | _ => true end
  | JObj kv => match kv with [] => false | _ => true end
  end.

(** The text of a file that [json.loads] is applied to: either the
    serialization of a value ([json.dumps] of it, whatever the layout), or
    text that is no JSON document. *)
Inductive rtext : Type :=
| Serialized (v : jvalue)
| Malformed (s : string).

(** ** Exceptions *)

Inductive exn_class : Type :=
| JSONDecodeError | AttributeError | TypeError | KeyError
| FileNotFoundError | PermissionError | RuntimeError
| TimeoutExpired | OSError.

Record exn : Type := Exn { exn_type : exn_class; exn_msg : string }.

Definition type_name (c : exn_class) : string :=
  match c with
  | JSONDecodeError => "JSONDecodeError"
  | AttributeError => "AttributeError"
  | TypeError => "TypeError"
  | KeyError => "KeyError"
  | FileNotFoundError => "FileNotFoundError"
  | PermissionError => "PermissionError"
  | RuntimeError => "RuntimeError"
  | TimeoutExpired => "TimeoutExpired"
  | OSError => "OSError"
  end.

Definition exn_class_eqb (a b : exn_class) : bool :=
  String.eqb (type_name a) (type_name b).

(** [json.loads] *)
Definition json_loads (t : rtext) : exn + jvalue :=
  match t with
  | Serialized v => inr v
  | Malformed _ => inl (Exn JSONDecodeError "Expecting value")
  end.

(** ** The job store: four state directories *)

Inductive state_dir : Type := Inbox | Running | Done | Failed.

Global Instance state_dir_eq_dec : EqDecision state_dir.
Proof. solve_decision. Defined.

Definition all_dirs : list state_dir := [Inbox; Running; Done; Failed].

(** A path inside the queue: the directory and the file name. *)
Definition qpath : Type := state_dir * string.

Record store : Type := Store {
  inbox : gmap string rtext;
  running : gmap string rtext;
  done : gmap string rtext;
  failed : gmap string rtext
}.

Definition empty_store : store := Store ∅ ∅ ∅ ∅.

Definition sget (d : state_dir) (s : store) : gmap string rtext :=
  match d with
  | Inbox => inbox s
  | Running => running s
  | Done => done s
  | Failed => failed s
  end.

Definition sset (d : state_dir) (m : gmap string rtext) (s : store) : store :=
  match d with
  | Inbox => Store m (running s) (done s) (failed s)
  | Running => Store (inbox s) m (done s) (failed s)
  | Done => Store (inbox s) (running s) m (failed s)
  | Failed => Store (inbox s) (running s) (done s) m
  end.

(** [path.write_text] and [os.replace(tmp, path)] of [atomic_write_json],
    as one atomic step. *)
Definition write_file (p : qpath) (t : rtext) (s : store) : store :=
  sset (fst p) (<[snd p := t]> (sget (fst p) s)) s.

(** [os.replace(src, dst)] / [src.rename(dst)]: [None] stands for
    [FileNotFoundError]; an existing target is overwritten. *)
Definition os_replace (src dst : qpath) (s : store) : option store :=
  match sget (fst src) s !! snd src with
  | None => None
  | Some t =>
      let s1 := sset (fst src) (delete (snd src) (sget (fst src) s)) s in
      Some (sset (fst dst) (<[snd dst := t]> (sget (fst dst) s1)) s1)
  end.

(** [p.unlink(missing_ok=True)] *)
Definition unlink (p : qpath) (s : store) : store :=
  sset (fst p) (delete (snd p) (sget (fst p) s)) s.

(** [str] comparison, by code points. *)
Definition str_le (a b : string) : Prop := String.leb a b = true.

Global Instance str_le_dec : RelDecision str_le.
Proof. intros a b. unfold str_le. apply _. Defined.

(** [dir.glob("*.json")], in the order the directory yields its entries. *)
Definition glob_json (m : gmap string rtext) : list string :=
  filter (fun n => PyStr.ends_with ".json" n = true) (map fst (map_to_list m)).

(** [sorted(dir.glob("*.json"))] *)
Definition sorted_glob_json (m : gmap string rtext) : list string :=
  merge_sort str_le (glob_json m).

(** [Path.stem] of a file name. *)
Definition stem (name : string) : string :=
  let n := String.length name in
  if PyStr.ends_with ".json" name && (5 <? n)%nat
  then String.substring 0 (n - 5) name
  else name.

(** The loop of [claim] and [claim_job] over the listing it took: each
    candidate is renamed into [running]; a candidate that is gone is
    skipped. *)
Fixpoint claim_loop (listing : list string) (s : store) : option qpath * store :=
  match listing with
  | [] => (None, s)
  | n :: rest =>
      match os_replace (Inbox, n) (Running, n) s with
      | Some s' => (Some (Running, n), s')
      | None => claim_loop rest s
      end
  end.

(** ** The environment of a run

    What the program reads from outside: the file system beyond the queue,
    the discovery of the agent executable, and the oracles for the agent
    process, the clock, [uuid4] and temporary file names. *)

(** What a spawned agent process does: it exits after [secs] seconds with
    a status and its two streams, it never exits, or it cannot be
    spawned. *)
Inductive behaviour : Type :=
| Exits (secs : Z) (rc : Z) (out err : string)
| Hangs
| SpawnFails (e : exn).

Inductive step_tag : Type := Probe | Plan | Apply.

(** One [subprocess.run]: the call site, the argument vector, the
    [timeout=] argument when the call passes one, and the temporary files
    as the child finds them. *)
Record invocation : Type := Invocation {
  inv_step : step_tag;
  inv_args : list string;
  inv_timeout : option Z;
  inv_files : gmap string string
}.

Record env : Type := Env {
  is_dir : string -> bool;            (* [p.exists() and p.is_dir()] *)
  expanduser : string -> string;      (* [str(Path(s).expanduser())] *)
  resolve : string -> string;         (* [str(Path(s).resolve())] *)
  executable : string -> bool;        (* [p.exists() and os.access(p, X_OK)] *)
  env_CLAUDE_CLI : option string;     (* [os.environ.get("CLAUDE_CLI")] *)
  which_claude : option string;       (* [shutil.which("claude")] *)
  home_claude : string;               (* [Path.home() / ".local/bin/claude"] *)
  agent : nat -> list string -> behaviour;  (* the n-th process spawned *)
  service_rules : string -> string;   (* service.py [combined_rules(repo)] *)
  repo_key_of : string -> string;     (* service.py [compute_repo_key(repo)] *)
  tools_rules : string -> exn + string; (* util.py [combined_rules(repo_root)] *)
  plan_base : string;                 (* worker.py [PLAN_BASE] *)
  time_at : nat -> Z;                 (* the n-th [time.time()], in ms *)
  uuid_at : nat -> string;            (* the n-th [uuid.uuid4()] *)
  tmp_at : nat -> string              (* the n-th [NamedTemporaryFile] name *)
}.

(** ** The world: everything the program writes

    The directory tree that [ensure_directories] / [ensure_dirs] creates is
    taken to exist. *)
Record world : Type := World {
  queue : store;
  patches : gmap (list string) string;   (* artifact files, by path below the patches directory *)
  log : list jvalue;                     (* run.jsonl, one entry per line, oldest first *)
  score_file : option rtext;             (* scoreboard.json *)
  tmpfiles : gmap string string;
  claude_path : option string;           (* [_CLAUDE_PATH] *)
  supports_cache : option bool;          (* [_SUPPORTS_CACHE] *)
  trace : list (invocation * behaviour); (* the processes spawned so far, oldest first *)
  clock_reads : nat;
  uuid_reads : nat;
  tmp_reads : nat
}.

Definition empty_world : world :=
  World empty_store ∅ [] None ∅ None None [] 0 0 0.

Definition with_queue (f : store -> store) (w : world) : world :=
  World (f (queue w)) (patches w) (log w) (score_file w) (tmpfiles w)
        (claude_path w) (supports_cache w) (trace w)
        (clock_reads w) (uuid_reads w) (tmp_reads w).

Definition with_patches (f : gmap (list string) string -> gmap (list string) string)
    (w : world) : world :=
  World (queue w) (f (patches w)) (log w) (score_file w) (tmpfiles w)
        (claude_path w) (supports_cache w) (trace w)
        (clock_reads w) (uuid_reads w) (tmp_reads w).

Definition with_log (f : list jvalue -> list jvalue) (w : world) : world :=
  World (queue w) (patches w) (f (log w)) (score_file w) (tmpfiles w)
        (claude_path w) (supports_cache w) (trace w)
        (clock_reads w) (uuid_reads w) (tmp_reads w).

Definition with_score_file (t : option rtext) (w : world) : world :=
  World (queue w) (patches w) (log w) t (tmpfiles w)
        (claude_path w) (supports_cache w) (trace w)
        (clock_reads w) (uuid_reads w) (tmp_reads w).

Definition with_tmpfiles (f : gmap string string -> gmap string string)
    (w : world) : world :=
  World (queue w) (patches w) (log w) (score_file w) (f (tmpfiles w))
        (claude_path w) (supports_cache w) (trace w)
        (clock_reads w) (uuid_reads w) (tmp_reads w).

Definition with_claude_path (p : option string) (w : world) : world :=
  World (queue w) (patches w) (log w) (score_file w) (tmpfiles w)
        p (supports_cache w) (trace w)
        (clock_reads w) (uuid_reads w) (tmp_reads w).

Definition with_supports_cache (b : option bool) (w : world) : world :=
  World (queue w) (patches w) (log w) (score_file w) (tmpfiles w)
        (claude_path w) b (trace w)
        (clock_reads w) (uuid_reads w) (tmp_reads w).

Definition with_trace (f : list (invocation * behaviour) -> list (invocation * behaviour))
    (w : world) : world :=
  World (queue w) (patches w) (log w) (score_file w) (tmpfiles w)
        (claude_path w) (supports_cache w) (f (trace w))
        (clock_reads w) (uuid_reads w) (tmp_reads w).

Definition tick_clock (w : world) : world :=
  World (queue w) (patches w) (log w) (score_file w) (tmpfiles w)
        (claude_path w) (supports_cache w) (trace w)
        (S (clock_reads w)) (uuid_reads w) (tmp_reads w).

Definition tick_uuid (w : world) : world :=
  World (queue w) (patches w) (log w) (score_file w) (tmpfiles w)
        (claude_path w) (supports_cache w) (trace w)
        (clock_reads w) (S (uuid_reads w)) (tmp_reads w).

Definition tick_tmp (w : world) : world :=
  World (queue w) (patches w) (log w) (score_file w) (tmpfiles w)
        (claude_path w) (supports_cache w) (trace w)
        (clock_reads w) (uuid_reads w) (S (tmp_reads w)).

(** ** The monad of Python code: state, exceptions, and a call that never
    returns *)

Inductive outcome (A : Type) : Type :=
| Ret (a : A)
| Raise (e : exn)
| Blocked.

Arguments Ret {A} a.
Arguments Raise {A} e.
Arguments Blocked {A}.

Definition M (A : Type) : Type := world -> outcome A * world.

Definition ret {A} (a : A) : M A := fun w => (Ret a, w).

Definition raise {A} (e : exn) : M A := fun w => (Raise e, w).

Definition bind {A B} (m : M A) (k : A -> M B) : M B :=
  fun w =>
    match m w with
    | (Ret a, w') => k a w'
    | (Raise e, w') => (Raise e, w')
    | (Blocked, w') => (Blocked, w')
    end.

Notation "'let*' x ':=' m 'in' k" := (bind m (fun x => k))
  (at level 10, x pattern, m at level 100, k at level 200).
Notation "m ';;' k" := (bind m (fun _ => k))
  (at level 100, k at level 200, right associativity).

Definition get_world : M world := fun w => (Ret w, w).

Definition modify (f : world -> world) : M unit := fun w => (Ret tt, f w).

(** [try: m  except Exception as e: h e] *)
Definition try_except {A} (m : M A) (h : exn -> M A) : M A :=
  fun w =>
    match m w with
    | (Raise e, w') => h e w'
    | r => r
    end.

(** [try: m  finally: c], for a clean-up that does not raise. *)
Definition try_finally {A} (m : M A) (c : world -> world) : M A :=
  fun w =>
    match m w with
    | (Ret a, w') => (Ret a, c w')
    | (Raise e, w') => (Raise e, c w')
    | (Blocked, w') => (Blocked, w')
    end.

(** [for x in l: body x] *)
Fixpoint for_each {A} (l : list A) (body : A -> M unit) : M unit :=
  match l with
  | [] => ret tt
  | x :: rest => body x ;; for_each rest body
  end.

(** [time.time()] *)
Definition time_time (E : env) : M Z :=
  fun w => (Ret (time_at E (clock_reads w)), tick_clock w).

(** [str(uuid.uuid4())] *)
Definition uuid4 (E : env) : M string :=
  fun w => (Ret (uuid_at E (uuid_reads w)), tick_uuid w).

(** [subprocess.run(args, capture_output=True, text=True[, timeout=t])]:
    the process is spawned and recorded; with a timeout, a process that
    outlives it raises [TimeoutExpired]; without one, a process that never
    exits blocks the caller for good. *)
Definition subprocess_run (E : env) (tag : step_tag) (args : list string)
    (timeout : option Z) : M (Z * string * string) :=
  fun w =>
    let b := agent E (length (trace w)) args in
    let w' := with_trace (fun t => t ++ [(Invocation tag args timeout (tmpfiles w), b)]) w in
    match b with
    | Exits secs rc out err =>
        match timeout with
        | Some t =>
            if t <? secs
            then (Raise (Exn TimeoutExpired "Command timed out"), w')
            else (Ret (rc, out, err), w')
        | None => (Ret (rc, out, err), w')
        end
    | Hangs =>
        match timeout with
        | Some t => (Raise (Exn TimeoutExpired "Command timed out"), w')
        | None => (Blocked, w')
        end
    | SpawnFails e => (Raise e, w')
    end.

(** [with NamedTemporaryFile("w", delete=False, suffix=".md") as handle:
    handle.write(text); handle.flush(); temp_path = handle.name] *)
Definition write_temp (E : env) (text : string) : M string :=
  fun w =>
    let name := tmp_at E (tmp_reads w) in
    (Ret name, with_tmpfiles (insert name text) (tick_tmp w)).

(** [os.replace] in the monad. *)
Definition replace_file (src dst : qpath) : M unit :=
  fun w =>
    match os_replace src dst (queue w) with
    | Some s' => (Ret tt, with_queue (fun _ => s') w)
    | None => (Raise (Exn FileNotFoundError "No such file or directory"), w)
    end.

(** The Python type name of a value, for the messages of type errors. *)
Definition py_type (v : jvalue) : string :=
  match v with
  | JNull => "NoneType"
  | JBool _ => "bool"
  | JInt _ => "int"
  | JFloat _ => "float"
  | JStr _ => "str"
  | JArr _ => "list"
  | JObj _ => "dict"
  end.

(** The receiver of a [.get(...)] call must be a [dict]. *)
Definition as_dict (v : jvalue) : M Dict.t :=
  match v with
  | JObj kv => ret kv
  | _ => raise (Exn AttributeError ("'" +:+ py_type v +:+ "' object has no attribute 'get'"))
  end.

(** [d.get(k, default)] *)
Definition get_default (k : string) (default : jvalue) (d : Dict.t) : jvalue :=
  match Dict.get k d with
  | Some v => v
  | None => default
  end.

(** [a or b] *)
Definition py_or (a b : jvalue) : jvalue := if truthy a then a else b.

(** * service.py *)

Module Service.

Definition plan_template (job_id repo prompt rules : string) : string :=
  "# TaskArena Planning Request

## Job ID
" +:+ job_id +:+ "

## Working Directory
" +:+ repo +:+ "

## Task Prompt
" +:+ prompt +:+ "

## Combined Rules (Host takes precedence)
" +:+ rules +:+ "

Produce a concise plan with:
- Key constraints from the rules.
- 3-5 ordered steps that respect repo safety.
- Risks or blockers.
- Acceptance checks aligned with the host project.
".

Definition apply_template (job_id repo rules plan prompt : string) : string :=
  "# TaskArena Apply Instructions

You are executing TaskArena job " +:+ job_id +:+ " in repository " +:+ repo +:+ ".

## Combined Rules (Host precedence)
" +:+ rules +:+ "

## Approved Plan
" +:+ plan +:+ "

## Task Prompt
" +:+ prompt +:+ "

Follow the approved plan. Explain the changes you make and ensure artifacts are generated.
".

(** [approved_plan = plan_output.strip() or "Plan output missing."] of
    [run_apply]. *)
Definition approved_plan (plan_output : string) : string :=
  PyStr.or_else (PyStr.strip plan_output) "Plan output missing.".

Section WithEnv.

Variable E : env.


(** [claim_job()]: the listing is taken first, then the loop runs. *)
Definition claim_job : M (option qpath) :=
  fun w =>
    let r := claim_loop (sorted_glob_json (inbox (queue w))) (queue w) in
    (Ret (fst r), with_queue (fun _ => snd r) w).

Definition finish_job (job_file : qpath) (success : bool) : M unit :=
  let target_dir := if success then Done else Failed in
  replace_file job_file (target_dir, snd job_file).

(** [read_text(path)], on a file of the queue: the empty text when the
    file cannot be read. *)
Definition read_text (p : qpath) : M rtext :=
  fun w =>
    match sget (fst p) (queue w) !! snd p with
    | Some t => (Ret t, w)
    | None => (Ret (Malformed ""), w)
    end.

Definition cli_candidates : list string :=
  match env_CLAUDE_CLI E with
  | Some o => if PyStr.nonempty o then [expanduser E o] else []
  | None => []
  end ++
  match which_claude E with
  | Some p => if PyStr.nonempty p then [p] else []
  | None => []
  end ++ [home_claude E].

Fixpoint resolve_loop (candidates seen : list string) : option string :=
  match candidates with
  | [] => None
  | c :: rest =>
      let resolved := resolve E (expanduser E c) in
      if bool_decide (resolved ∈ seen) then resolve_loop rest seen
      else if executable E resolved then Some resolved
      else resolve_loop rest (resolved :: seen)
  end.

Definition cli_not_found : exn :=
  Exn RuntimeError
    "Claude CLI executable not found. Install the `claude` command, add it to your PATH, or set CLAUDE_CLI to its full path before starting TaskArena.".

Definition _resolve_claude_cli : M string :=
  fun w =>
    match claude_path w with
    | Some p =>
        if PyStr.nonempty p then (Ret p, w)
        else
          match resolve_loop cli_candidates [] with
          | Some r => (Ret r, with_claude_path (Some r) w)
          | None => (Raise cli_not_found, w)
          end
    | None =>
        match resolve_loop cli_candidates [] with
        | Some r => (Ret r, with_claude_path (Some r) w)
        | None => (Raise cli_not_found, w)
        end
    end.

Definition _detect_supports_dash_p : M bool :=
  let* w := get_world in
  match supports_cache w with
  | Some b => ret b
  | None =>
      let* probed :=
        try_except
          (let* claude_cli := _resolve_claude_cli in
           let* result := subprocess_run E Probe [claude_cli; "--help"] (Some 10) in
           ret (Some result))
          (fun e =>
             if exn_class_eqb (exn_type e) RuntimeError then raise e
             else modify (with_supports_cache (Some false)) ;; ret None) in
      match probed with
      | None => ret false
      | Some (_, out, err) =>
          let help_text := out +:+ err in
          let b := PyStr.contains "-p" help_text || PyStr.contains "--prompt" help_text in
          modify (with_supports_cache (Some b)) ;; ret b
      end
  end.

(** [_run_subprocess(args)]: no [timeout=] is passed. *)
Definition _run_subprocess (tag : step_tag) (args : list string)
    : M (Z * string * string) :=
  subprocess_run E tag args None.

Definition run_plan (repo prompt job_id : string)
    : M ((Z * string * string) * string) :=
  let rules_text := service_rules E repo in
  let plan_prompt := plan_template job_id repo prompt rules_text in
  let* supports_dash := _detect_supports_dash_p in
  let* claude_cli := _resolve_claude_cli in
  if supports_dash then
    let* proc := _run_subprocess Plan [claude_cli; "-p"; plan_prompt] in
    ret (proc, rules_text)
  else
    let* temp_path := write_temp E plan_prompt in
    let* proc :=
      try_finally
        (_run_subprocess Plan
           [claude_cli; "code"; "plan"; "--repo"; repo; "--plan"; temp_path])
        (with_tmpfiles (delete temp_path)) in
    ret (proc, rules_text).

Definition run_apply (repo prompt job_id rules_text plan_output : string)
    : M (Z * string * string) :=
  let apply_prompt :=
    apply_template job_id repo rules_text (approved_plan plan_output) prompt in
  let* supports_dash := _detect_supports_dash_p in
  let* claude_cli := _resolve_claude_cli in
  if supports_dash then
    _run_subprocess Apply [claude_cli; "-p"; apply_prompt]
  else
    let* temp_path := write_temp E apply_prompt in
    try_finally
      (_run_subprocess Apply
         [claude_cli; "code"; "apply"; "--repo"; repo; "--plan"; temp_path])
      (with_tmpfiles (delete temp_path)).

(** [log_event(entry)]: [time.time()] is evaluated before
    [setdefault] looks at the entry; the line is appended. *)
Definition log_event (entry : Dict.t) : M unit :=
  let* now := time_time E in
  modify (with_log (fun l => l ++ [JObj (Dict.setdefault "ts" (JFloat now) entry)])).

(** [write_artifact(name, content)] of [process_job]. *)
Definition write_artifact (artifact_dir : list string) (name content : string) : M unit :=
  modify (with_patches (insert (artifact_dir ++ [name]) content)).

(** [Path(v)] *)
Definition as_path (v : jvalue) : M string :=
  match v with
  | JStr s => ret (expanduser E s)
  | _ => raise (Exn TypeError
           ("expected str, bytes or os.PathLike object, not " +:+ py_type v))
  end.

(** [v.strip()] *)
Definition strip_value (v : jvalue) : M string :=
  match v with
  | JStr s => ret (PyStr.strip s)
  | _ => raise (Exn AttributeError
           ("'" +:+ py_type v +:+ "' object has no attribute 'strip'"))
  end.

(** A component joined to a path with [/] must be a [str]. *)
Definition as_component (v : jvalue) : M string :=
  match v with
  | JStr s => ret s
  | _ => raise (Exn TypeError
           ("unsupported operand type(s) for /: 'PosixPath' and '" +:+ py_type v +:+ "'"))
  end.

Definition failure_entry (id dir repo_key : jvalue) (error : string) : Dict.t :=
  [("id", id); ("dir", dir); ("repo_key", repo_key);
   ("ok", JBool false); ("error", JStr error)].

Definition process_job (job_file : qpath) : M unit :=
  let* raw := read_text job_file in
  match json_loads raw with
  | inl _ =>
      finish_job job_file false ;;
      log_event (failure_entry (JStr (stem (snd job_file))) JNull JNull "Invalid job JSON")
  | inr job_v =>
      let* job := as_dict job_v in
      let* repo := as_path (get_default "dir" (JStr ".") job) in
      let* prompt := strip_value (get_default "prompt" (JStr "") job) in
      let repo_key_v := py_or (get_default "repo_key" JNull job) (JStr (repo_key_of E repo)) in
      let* job_id_v :=
        let v := get_default "id" JNull job in
        if truthy v then ret v
        else let* u := uuid4 E in ret (JStr u) in
      let* repo_key := as_component repo_key_v in
      let* job_id := as_component job_id_v in
      let artifact_dir := [repo_key; job_id] in
      if negb (is_dir E repo) then
        let message := "Repository path does not exist: " +:+ repo in
        write_artifact artifact_dir "error.txt" message ;;
        finish_job job_file false ;;
        log_event (failure_entry (JStr job_id) (JStr repo) (JStr repo_key) message)
      else if negb (PyStr.nonempty prompt) then
        let message := "Empty prompt provided." in
        write_artifact artifact_dir "error.txt" message ;;
        finish_job job_file false ;;
        log_event (failure_entry (JStr job_id) (JStr repo) (JStr repo_key) message)
      else
        let* planned :=
          try_except
            (let* r := run_plan repo prompt job_id in ret (inr r))
            (fun e =>
               if exn_class_eqb (exn_type e) RuntimeError then ret (inl (exn_msg e))
               else raise e) in
        match planned with
        | inl error_message =>
            write_artifact artifact_dir "stderr.txt" error_message ;;
            finish_job job_file false ;;
            log_event (failure_entry (JStr job_id) (JStr repo) (JStr repo_key) error_message)
        | inr ((plan_rc, plan_out, plan_err), rules_text) =>
            write_artifact artifact_dir "plan.stdout.txt" plan_out ;;
            write_artifact artifact_dir "plan.stderr.txt" plan_err ;;
            if negb (plan_rc =? 0) then
              finish_job job_file false ;;
              log_event (failure_entry (JStr job_id) (JStr repo) (JStr repo_key) "Plan step failed")
            else
              let* applied := run_apply repo prompt job_id rules_text plan_out in
              let '(apply_rc, apply_out, apply_err) := applied in
              write_artifact artifact_dir "apply.stdout.txt" apply_out ;;
              write_artifact artifact_dir "apply.stderr.txt" apply_err ;;
              let ok := apply_rc =? 0 in
              finish_job job_file ok ;;
              log_event [("id", JStr job_id); ("dir", JStr repo);
                         ("repo_key", JStr repo_key); ("ok", JBool ok)]
        end
  end.

(** One turn of the [while True] loop of [Worker.run]; [time.sleep]
    changes nothing. *)
Definition worker_turn : M unit :=
  let* claimed := claim_job in
  match claimed with
  | None => ret tt
  | Some job_file =>
      try_except (process_job job_file)
        (fun exc =>
           finish_job job_file false ;;
           log_event (failure_entry (JStr (stem (snd job_file))) JNull JNull
                        ("Worker exception: " +:+ exn_msg exc)))
  end.

(** [Worker.run], for [turns] turns of its loop: an exception that
    leaves a turn ends the thread. *)
Fixpoint Worker_run (turns : nat) : M unit :=
  match turns with
  | O => ret tt
  | S n => worker_turn ;; Worker_run n
  end.

End WithEnv.

End Service.

(** * .agents/tools: util.py, worker.py, judge.py *)

Module Tools.

(** [s[k] += 1] *)
Definition incr_key (k : string) (s : jvalue) : exn + jvalue :=
  match s with
  | JObj kv =>
      match Dict.get k kv with
      | None => inl (Exn KeyError ("'" +:+ k +:+ "'"))
      | Some (JInt z) => inr (JObj (Dict.set k (JInt (z + 1)) kv))
      | Some (JFloat ms) => inr (JObj (Dict.set k (JFloat (ms + 1000)) kv))
      | Some (JBool b) => inr (JObj (Dict.set k (JInt (Z.b2z b + 1)) kv))
      | Some v => inl (Exn TypeError ("unsupported operand type(s) for +=: '"
                                       +:+ py_type v +:+ "' and 'int'"))
      end
  | _ => inl (Exn TypeError ("'" +:+ py_type s +:+ "' object is not subscriptable by 'str'"))
  end.

(** The separator between the two outputs, ["\n---\n"] in the source. *)
Definition separator : string := "
---
".

Definition cli_missing_worker : string :=
  "Claude CLI ('claude') not found on PATH. Install the claude CLI to process tasks.".

Definition cli_missing_util : exn :=
  Exn FileNotFoundError
    "Claude CLI ('claude') not found on PATH. Install the claude binary to run workers.".

Section WithEnv.

Variable E : env.

(** ** util.py *)

Definition claude_available : bool :=
  match which_claude E with Some _ => true | None => false end.

(** [logj(obj)]: the object is appended as it is. *)
Definition logj (obj : Dict.t) : M unit :=
  modify (with_log (fun l => l ++ [JObj obj])).

Definition enqueue (prompt repo mode : string) (hint : option string)
    : M (string * qpath) :=
  let* tid := uuid4 E in
  let task := [("id", JStr tid); ("mode", JStr mode);
               ("prompt", JStr prompt); ("repo", JStr repo)] in
  let task :=
    match hint with
    | Some h => if PyStr.nonempty h then Dict.set "hint" (JStr h) task else task
    | None => task
    end in
  let dst := (Inbox, tid +:+ ".json") in
  modify (with_queue (write_file dst (Serialized (JObj task)))) ;;
  ret (tid, dst).

Definition claim : M (option qpath) :=
  fun w =>
    let r := claim_loop (sorted_glob_json (inbox (queue w))) (queue w) in
    (Ret (fst r), with_queue (fun _ => snd r) w).

Definition finish (tpath : qpath) (ok : bool) : M qpath :=
  let dst := (if ok then Done else Failed, snd tpath) in
  replace_file tpath dst ;; ret dst.

Definition _cli_supports_dash_p : M bool :=
  if negb claude_available then ret false
  else
    try_except
      (let* out := subprocess_run E Probe ["claude"; "--help"] (Some 15) in
       let '(_, stdout, _) := out in
       ret (PyStr.contains "-p" stdout || PyStr.contains "--prompt" stdout))
      (fun _ => ret false).

(** The inner [run(args)] of [claude_plan_apply]. *)
Definition run (tag : step_tag) (args : list string) : M (Z * string * string) :=
  subprocess_run E tag args (Some 600).

(** An element of an argument vector, and the argument of
    [file.write], must be a [str]. *)
Definition as_text (v : jvalue) : M string :=
  match v with
  | JStr s => ret s
  | _ => raise (Exn TypeError ("expected str, not " +:+ py_type v))
  end.

Definition claude_plan_apply (repo plan_md : string) (apply_md : jvalue)
    : M (Z * string * string) :=
  if negb claude_available then raise cli_missing_util
  else
    let* dash := _cli_supports_dash_p in
    if dash then
      let* p1 := run Plan ["claude"; "-p"; plan_md] in
      let* apply_text := as_text apply_md in
      let* p2 := run Apply ["claude"; "-p"; apply_text] in
      let '(_, out1, err1) := p1 in
      let '(rc, out2, err2) := p2 in
      ret (rc, out1 +:+ separator +:+ out2, err1 +:+ separator +:+ err2)
    else
      let* f1 := write_temp E plan_md in
      let* p_plan := run Plan ["claude"; "code"; "plan"; "--repo"; repo; "--plan"; f1] in
      let* f2 := write_temp E "" in
      let* apply_text := as_text apply_md in
      modify (with_tmpfiles (insert f2 apply_text)) ;;
      let* p_apply := run Apply ["claude"; "code"; "apply"; "--repo"; repo; "--plan"; f2] in
      let '(_, out1, err1) := p_plan in
      let '(rc, out2, err2) := p_apply in
      ret (rc, out1 +:+ separator +:+ out2, err1 +:+ separator +:+ err2).

(** ** worker.py *)

Definition build_plan_prompt (rules : string) : string :=
  let rules_section :=
    if PyStr.nonempty rules && PyStr.nonempty (PyStr.strip rules)
    then PyStr.strip rules
    else "_No additional rules found._" in
  plan_base E +:+ "

## Constraints and Risks
" +:+ rules_section.

(** [tpath.read_text()] *)
Definition read_record (p : qpath) : M rtext :=
  fun w =>
    match sget (fst p) (queue w) !! snd p with
    | Some t => (Ret t, w)
    | None => (Raise (Exn FileNotFoundError "No such file or directory"), w)
    end.

Definition lift_result {A} (r : exn + A) : M A :=
  match r with
  | inl e => raise e
  | inr a => ret a
  end.

(** [task[k]] *)
Definition subscript (k : string) (task : jvalue) : M jvalue :=
  match task with
  | JObj kv =>
      match Dict.get k kv with
      | Some v => ret v
      | None => raise (Exn KeyError ("'" +:+ k +:+ "'"))
      end
  | _ => raise (Exn TypeError ("'" +:+ py_type task +:+ "' object is not subscriptable by 'str'"))
  end.

(** [Path(v).resolve()] *)
Definition resolved_path (v : jvalue) : M string :=
  match v with
  | JStr s => ret (resolve E s)
  | _ => raise (Exn TypeError
           ("expected str, bytes or os.PathLike object, not " +:+ py_type v))
  end.

(** [PATCHES / v] *)
Definition patch_dir (v : jvalue) : M (list string) :=
  match v with
  | JStr s => ret [s]
  | _ => raise (Exn TypeError
           ("unsupported operand type(s) for /: 'PosixPath' and '" +:+ py_type v +:+ "'"))
  end.

Definition write_text (path : list string) (content : string) : M unit :=
  modify (with_patches (insert path content)).

(** The body of the [try] block of [run_once]: the values of [ok],
    [out] and [err] at its end. *)
Definition attempt_body (task : jvalue) : M (bool * string * string) :=
  let* task_d := as_dict task in
  let* repo_root := resolved_path (get_default "repo" (JStr ".") task_d) in
  let* rules := lift_result (tools_rules E repo_root) in
  let plan_md := build_plan_prompt rules in
  let* apply_md := subscript "prompt" task in
  if negb claude_available then ret (false, "", cli_missing_worker)
  else
    let* r := claude_plan_apply repo_root plan_md apply_md in
    let '(rc, out, err) := r in
    ret (rc =? 0, out, err).

(** The [try] ... [except Exception as e] of [run_once]: the values
    of [ok], [out] and [err] when it is left. *)
Definition attempt (task : jvalue) : M (bool * string * string) :=
  try_except (attempt_body task)
    (fun e => ret (false, "", type_name (exn_type e) +:+ ": " +:+ exn_msg e)).

(** [run_once()]; [time.sleep] changes nothing. *)
Definition run_once : M unit :=
  let* claimed := claim in
  match claimed with
  | None => ret tt
  | Some tpath =>
      let* text := read_record tpath in
      let* task := lift_result (json_loads text) in
      let* t0 := time_time E in
      let* r := attempt task in
      let '(ok, out, err) := r in
      let* id := subscript "id" task in
      let* ap := patch_dir id in
      write_text (ap ++ ["stdout.txt"]) out ;;
      write_text (ap ++ ["stderr.txt"]) err ;;
      finish tpath ok ;;
      let* id' := subscript "id" task in
      let* t1 := time_time E in
      logj [("id", id'); ("ok", JBool ok); ("latency_s", JFloat (t1 - t0))]
  end.

(** [while True: run_once()], for [turns] turns. *)
Fixpoint worker_main (turns : nat) : M unit :=
  match turns with
  | O => ret tt
  | S n => run_once ;; worker_main n
  end.

(** ** judge.py *)

Definition zero_score : jvalue := JObj [("pass", JInt 0); ("fail", JInt 0)].

(** [load_score()]: a missing file and a file that is no JSON both
    raise inside the [try]. *)
Definition load_score : M jvalue :=
  fun w =>
    match score_file w with
    | Some (Serialized v) => (Ret v, w)
    | Some (Malformed _) => (Ret zero_score, w)
    | None => (Ret zero_score, w)
    end.

Definition save_score (s : jvalue) : M unit :=
  modify (with_score_file (Some (Serialized s))).

(** [for p in list(dir.glob("*.json")): s[key] += 1; p.unlink(missing_ok=True)] *)
Fixpoint drain_dir (d : state_dir) (key : string) (listing : list string)
    (s : jvalue) : M jvalue :=
  match listing with
  | [] => ret s
  | n :: rest =>
      let* s' := lift_result (incr_key key s) in
      modify (with_queue (unlink (d, n))) ;;
      drain_dir d key rest s'
  end.

(** The body of the [while True] loop of the drain. *)
Definition drain_cycle (s : jvalue) : M jvalue :=
  let* w := get_world in
  let* s1 := drain_dir Done "pass" (glob_json (done (queue w))) s in
  let* w1 := get_world in
  let* s2 := drain_dir Failed "fail" (glob_json (failed (queue w1))) s1 in
  save_score s2 ;;
  ret s2.

Fixpoint drain_loop (cycles : nat) (s : jvalue) : M jvalue :=
  match cycles with
  | O => ret s
  | S n => let* s' := drain_cycle s in drain_loop n s'
  end.

(** The [__main__] of judge.py, for [cycles] cycles. *)
Definition judge_main (cycles : nat) : M jvalue :=
  let* s := load_score in
  drain_loop cycles s.

End WithEnv.

End Tools.

(** * The state machine of the job store *)

(** Whether directory [d] holds a file named [n]. *)
Definition holds (s : store) (d : state_dir) (n : string) : bool :=
  match sget d s !! n with Some _ => true | None => false end.

(** The state directories in which the name [n] is present. *)
Definition residency (s : store) (n : string) : list state_dir :=
  List.filter (fun d => holds s d n) all_dirs.

(** No name is present in two state directories. *)
Definition exclusive (s : store) : Prop :=
  forall n, (length (residency s n) <= 1)%nat.

(** Who acts on the store: a worker (claim, finish) or the drain. *)
Inductive actor : Type := Worker | Judge.

(** The legal transitions of one record, on its residency: a worker
    claims and finishes, the drain deletes terminal records. *)
Inductive move : actor -> list state_dir -> list state_dir -> Prop :=
| move_claim : move Worker [Inbox] [Running]
| move_done : move Worker [Running] [Done]
| move_failed : move Worker [Running] [Failed]
| move_drain_done : move Judge [Done] []
| move_drain_failed : move Judge [Failed] [].

(** A record's way through the store under one actor: any number of its
    legal transitions. *)
Definition lifecycle (a : actor) : list state_dir -> list state_dir -> Prop :=
  rtc (move a).

(** The atomic file-system steps on the queue: the rename of a claim, the
    rename of a finish, the deletion of a terminal record. *)
Inductive fs_step : actor -> store -> store -> Prop :=
| fs_claim n s s' :
    os_replace (Inbox, n) (Running, n) s = Some s' -> fs_step Worker s s'
| fs_finish n (ok : bool) s s' :
    os_replace (Running, n) (if ok then Done else Failed, n) s = Some s' ->
    fs_step Worker s s'
| fs_drain d n s :
    d = Done \/ d = Failed -> fs_step Judge s (unlink (d, n) s).

(** A computation whose effect on the queue is a sequence of such steps
    of one actor. *)
Definition legal {A} (a : actor) (m : M A) : Prop :=
  forall w, rtc (fs_step a) (queue w) (queue (snd (m w))).

(** A computation that leaves the queue alone. *)
Definition queue_neutral {A} (m : M A) : Prop :=
  forall w, queue (snd (m w)) = queue w.

(** The values a computation can return. *)
Definition returns {A} (P : A -> Prop) (m : M A) : Prop :=
  forall w a w', m w = (Ret a, w') -> P a.

(** ** The operations on the store *)

Inductive operation : Type :=
| ServiceClaim                                      (* service.py [claim_job()] *)
| ServiceFinish (job_file : qpath) (success : bool) (* service.py [finish_job] *)
| ServiceProcess (job_file : qpath)                 (* service.py [process_job] *)
| ServiceWorker (turns : nat)                       (* service.py [Worker.run] *)
| ToolsClaim                                        (* util.py [claim()] *)
| ToolsFinish (tpath : qpath) (ok : bool)           (* util.py [finish] *)
| ToolsWorker (turns : nat)                         (* worker.py main loop *)
| RacingClaim (listing : list string)               (* a claim whose listing is out of date *)
| DrainCycle (s : jvalue)                           (* judge.py, one cycle *)
| JudgeMain (cycles : nat).                         (* judge.py main *)

Definition discard {A} (m : M A) : M unit := let* _ := m in ret tt.

Definition perform (E : env) (o : operation) : M unit :=
  match o with
  | ServiceClaim => discard Service.claim_job
  | ServiceFinish job_file success => Service.finish_job job_file success
  | ServiceProcess job_file => Service.process_job E job_file
  | ServiceWorker turns => Service.Worker_run E turns
  | ToolsClaim => discard Tools.claim
  | ToolsFinish tpath ok => discard (Tools.finish tpath ok)
  | ToolsWorker turns => Tools.worker_main E turns
  | RacingClaim listing =>
      modify (fun w => with_queue (fun _ => snd (claim_loop listing (queue w))) w)
  | DrainCycle s => discard (Tools.drain_cycle s)
  | JudgeMain cycles => discard (Tools.judge_main cycles)
  end.

Definition actor_of (o : operation) : actor :=
  match o with
  | DrainCycle _ | JudgeMain _ => Judge
  | _ => Worker
  end.

(** The handle an operation is given is one that a claim returned: a
    path of [running]. *)
Definition handle_claimed (o : operation) : Prop :=
  match o with
  | ServiceFinish h _ | ServiceProcess h | ToolsFinish h _ => fst h = Running
  | _ => True
  end.

(** ** A concrete deployment, for examples *)

Module Scenario.

(** The agent supports [-p]; the plan succeeds and prints a plan; the
    apply step fails. *)
Definition agent_plan_ok_apply_fails (n : nat) (args : list string) : behaviour :=
  match n with
  | O => Exits 1 0 "usage: claude -p PROMPT" ""
  | 1%nat => Exits 5 0 "  1. edit
" ""
  | _ => Exits 5 1 "applied" "oops"
  end.

Definition base_env (a : nat -> list string -> behaviour) : env :=
  {| is_dir := fun s => String.eqb s "/repo";
     expanduser := fun s => s;
     resolve := fun s => s;
     executable := fun s => String.eqb s "/bin/claude";
     env_CLAUDE_CLI := None;
     which_claude := Some "/bin/claude";
     home_claude := "/home/u/.local/bin/claude";
     agent := a;
     service_rules := fun _ => "RULES";
     repo_key_of := fun _ => "repo-0a1b2c3d";
     tools_rules := fun _ => inr "RULES";
     plan_base := "BASE";
     time_at := fun n => 1000 * Z.of_nat n;
     uuid_at := fun n => "u" +:+ String (ascii_of_nat (48 + n)) "";
     tmp_at := fun n => "/tmp/t" +:+ String (ascii_of_nat (48 + n)) "" +:+ ".md" |}.

Definition env1 : env := base_env agent_plan_ok_apply_fails.

Definition job1 : Dict.t :=
  [("id", JStr "j1"); ("dir", JStr "/repo"); ("repo_key", JStr "k");
   ("prompt", JStr "add a README")].

(** One record of the service in the inbox. *)
Definition one_record (t : rtext) : world :=
  with_queue (write_file (Inbox, "j1.json") t) empty_world.

(** One job of the service in the inbox. *)
Definition one_job (job : Dict.t) : world :=
  one_record (Serialized (JObj job)).

(** One job of the service already claimed. *)
Definition one_running (t : rtext) : world :=
  with_queue (write_file (Running, "j1.json") t) empty_world.


(** The agent supports [-p]; the plan process never exits. *)
Definition agent_plan_hangs (n : nat) (args : list string) : behaviour :=
  match n with
  | O => Exits 1 0 "usage: claude -p PROMPT" ""
  | _ => Hangs
  end.

(** The agent supports [-p]; both steps succeed. *)
Definition agent_all_ok (n : nat) (args : list string) : behaviour :=
  match n with
  | O => Exits 1 0 "usage: claude -p PROMPT" ""
  | 1%nat => Exits 5 0 "the plan" ""
  | _ => Exits 7 0 "applied" ""
  end.

(** The agent has the plan and apply subcommands only; the plan output
    has blanks around it. *)
Definition agent_file_style (n : nat) (args : list string) : behaviour :=
  match n with
  | O => Exits 1 0 "usage: claude code (plan or apply) FILE" ""
  | 1%nat => Exits 5 0 "  1. edit
" ""
  | _ => Exits 7 0 "applied" ""
  end.

(** One task of the file-queue tools in the inbox, as [enqueue] writes
    it: its id is ["u0"]. *)
Definition one_task (prompt repo : string) : world :=
  snd (Tools.enqueue env1 prompt repo "code_apply" None empty_world).

End Scenario.

(** ** Observing a run *)

Definition event : Type := invocation * behaviour.

(** The outcome of a process as its caller sees it: status and streams,
    unless the process did not exit within the timeout of the call. *)
Definition completion (ev : event) : option (Z * string * string) :=
  match snd ev with
  | Exits secs rc out err =>
      match inv_timeout (fst ev) with
      | Some t => if t <? secs then None else Some (rc, out, err)
      | None => Some (rc, out, err)
      end
  | _ => None
  end.

Definition exit_status (ev : event) : option Z :=
  match completion ev with
  | Some (rc, _, _) => Some rc
  | None => None
  end.

Definition is_step (tag : step_tag) (ev : event) : bool :=
  match inv_step (fst ev), tag with
  | Probe, Probe | Plan, Plan | Apply, Apply => true
  | _, _ => false
  end.

(** The processes spawned between two worlds. *)
Definition new_events (w w' : world) : list event :=
  drop (length (trace w)) (trace w').

(** The prompt text an invocation hands to the agent: the argument after
    [-p], or the content of the file named after [--plan]. *)
Definition prompt_given (inv : invocation) : option string :=
  match inv_args inv with
  | [_; "-p"; text] => Some text
  | [_; "code"; _; "--repo"; _; "--plan"; path] => inv_files inv !! path
  | _ => None
  end.

(** The artifact files that differ between two worlds all bear one of
    the given names. *)
Definition writes_only (names : list string) (w w' : world) : Prop :=
  forall path, patches w' !! path <> patches w !! path ->
               exists name, last path = Some name /\ In name names.

(** The record [n] is now in the terminal directory for [ok], with the
    text [t] it had in [running]. *)
Definition landed (ok : bool) (n : string) (t : rtext) (w' : world) : Prop :=
  sget (if ok then Done else Failed) (queue w') !! n = Some t /\
  running (queue w') !! n = None.

(** [w'] differs from [w] by caches, temporary files and the processes
    [evs] spawned in between, and by nothing else. *)
Definition extends (w w' : world) (evs : list event) : Prop :=
  queue w' = queue w /\ patches w' = patches w /\ log w' = log w /\
  score_file w' = score_file w /\ clock_reads w' = clock_reads w /\
  uuid_reads w' = uuid_reads w /\ trace w' = trace w ++ evs.

(** What the caller of [subprocess.run] gets from a process. *)
Definition outcome_of {A} (b : behaviour) (timeout : option Z)
    (k : Z * string * string -> A) : outcome A :=
  match b with
  | Exits secs rc out err =>
      match timeout with
      | Some t => if t <? secs then Raise (Exn TimeoutExpired "Command timed out")
                  else Ret (k (rc, out, err))
      | None => Ret (k (rc, out, err))
      end
  | Hangs =>
      match timeout with
      | Some _ => Raise (Exn TimeoutExpired "Command timed out")
      | None => Blocked
      end
  | SpawnFails e => Raise e
  end.

Definition all_probes (evs : list event) : Prop :=
  Forall (fun ev => inv_step (fst ev) = Probe) evs.

(** Where a computation has got to: [wc] differs from the start [w0] by
    the processes [evs] and by artifacts named in [names], by caches and
    counters, and by nothing else. *)
Definition progress (w0 wc : world) (evs : list event) (names : list string) : Prop :=
  queue wc = queue w0 /\ log wc = log w0 /\ score_file wc = score_file w0 /\
  trace wc = trace w0 ++ evs /\ writes_only names w0 wc.

Definition option_events (o : option event) : list event :=
  match o with Some ev => [ev] | None => [] end.

Definition plan_artifacts : list string := ["plan.stdout.txt"; "plan.stderr.txt"].
Definition apply_artifacts : list string := ["apply.stdout.txt"; "apply.stderr.txt"].
Definition error_artifacts : list string := ["error.txt"; "stderr.txt"].

(** What one call of [process_job] on the record [n] of [running] has
    done, from world [w] to outcome [r] and world [w']: the processes it
    spawned, in order (probes, at most one plan process, probes, at most
    one apply process); the artifacts it wrote; and, when it returned,
    the terminal directory and the log entry. *)
Definition service_summary (n : string) (w : world) (r : outcome unit) (w' : world)
    : Prop :=
  exists probes plan probes2 apply,
    trace w' = trace w ++ probes ++ option_events plan ++ probes2 ++ option_events apply /\
    all_probes probes /\ all_probes probes2 /\
    score_file w' = score_file w /\
    (forall ev, plan = Some ev -> inv_step (fst ev) = Plan /\ inv_timeout (fst ev) = None) /\
    (forall ev, apply = Some ev ->
       inv_step (fst ev) = Apply /\ inv_timeout (fst ev) = None /\
       exists pev secs out err job_id repo rules prompt,
         plan = Some pev /\ snd pev = Exits secs 0 out err /\
         prompt_given (fst ev) =
           Some (Service.apply_template job_id repo rules
                   (Service.approved_plan out) prompt)) /\
    (plan = None -> probes2 = [] /\ apply = None /\ writes_only error_artifacts w w') /\
    (apply = None -> writes_only (error_artifacts ++ plan_artifacts) w w') /\
    writes_only (error_artifacts ++ plan_artifacts ++ apply_artifacts) w w' /\
    match r with
    | Ret _ =>
        exists (ok : bool) entry,
          os_replace (Running, n) (if ok then Done else Failed, n) (queue w)
            = Some (queue w') /\
          log w' = log w ++ [JObj entry] /\
          Dict.get "ok" entry = Some (JBool ok) /\
          is_Some (Dict.get "id" entry) /\
          (exists ts, Dict.get "ts" entry = Some (JFloat ts)) /\
          (apply = None -> exists msg, Dict.get "error" entry = Some (JStr msg)) /\
          match apply with
          | Some ev => exists secs rc out err,
                         snd ev = Exits secs rc out err /\ ok = (rc =? 0)
          | None =>
              ok = false /\
              match plan with
              | Some pev =>
                  (exists secs rc out err, snd pev = Exits secs rc out err /\ rc <> 0) \/
                  (exists e, snd pev = SpawnFails e /\ exn_type e = RuntimeError)
              | None => True
              end
          end
    | Raise e =>
        queue w' = queue w /\ log w' = log w /\
        match apply, plan with
        | Some ev, _ => snd ev = SpawnFails e
        | None, Some pev =>
            snd pev = SpawnFails e \/ exists secs out err, snd pev = Exits secs 0 out err
        | None, None => True
        end
    | Blocked =>
        queue w' = queue w /\ log w' = log w /\
        match apply, plan with
        | Some ev, _ => snd ev = Hangs
        | None, Some pev => snd pev = Hangs
        | None, None => False
        end
    end.

(** What the [try] block of [run_once] has done on the parsed record
    [task]: the processes it spawned (at most one probe, one plan
    process, one apply process), the exception it caught if any, and the
    values of [ok], [out] and [err] it leaves. *)
Definition attempt_summary (E : env) (task : jvalue) (w w' : world)
    (probe plan apply : option event) (caught : option exn)
    (ok : bool) (out err : string) : Prop :=
  extends w w' (option_events probe ++ option_events plan ++ option_events apply) /\
  (forall ev, probe = Some ev ->
     inv_step (fst ev) = Probe /\ inv_timeout (fst ev) = Some 15) /\
  (forall ev, plan = Some ev ->
     inv_step (fst ev) = Plan /\ inv_timeout (fst ev) = Some 600) /\
  (forall ev, apply = Some ev ->
     inv_step (fst ev) = Apply /\ inv_timeout (fst ev) = Some 600 /\
     (exists pev, plan = Some pev /\ is_Some (completion pev)) /\
     exists kv prompt, task = JObj kv /\ Dict.get "prompt" kv = Some (JStr prompt) /\
                       prompt_given (fst ev) = Some prompt) /\
  (forall pev kv prompt,
     plan = Some pev -> is_Some (completion pev) ->
     task = JObj kv -> Dict.get "prompt" kv = Some (JStr prompt) -> is_Some apply) /\
  (forall kv repo rules apply_md,
     task = JObj kv -> get_default "repo" (JStr ".") kv = JStr repo ->
     tools_rules E (resolve E repo) = inr rules ->
     Dict.get "prompt" kv = Some apply_md -> which_claude E <> None ->
     is_Some plan) /\
  (forall ev, plan = Some ev \/ apply = Some ev -> completion ev = None ->
     exists e, caught = Some e /\ (snd ev = SpawnFails e \/ exn_type e = TimeoutExpired)) /\
  (ok = true <-> exists ev, apply = Some ev /\ exit_status ev = Some 0) /\
  (forall e, caught = Some e ->
     ok = false /\ out = "" /\ err = type_name (exn_type e) +:+ ": " +:+ exn_msg e).

(** What one [run_once] that claimed the record [n], whose text is [t],
    has done from the world [w1] right after the claim. *)
Definition tools_summary (E : env) (n : string) (t : rtext) (w1 : world)
    (r : outcome unit) (w' : world) : Prop :=
  match r with
  | Ret _ =>
      exists kv id probe plan apply caught (ok : bool) out err wa t0 t1,
        t = Serialized (JObj kv) /\ Dict.get "id" kv = Some (JStr id) /\
        Tools.attempt E (JObj kv) (tick_clock w1) = (Ret (ok, out, err), wa) /\
        attempt_summary E (JObj kv) (tick_clock w1) wa probe plan apply caught ok out err /\
        trace w' = trace wa /\ score_file w' = score_file w1 /\
        os_replace (Running, n) (if ok then Done else Failed, n) (queue w1)
          = Some (queue w') /\
        log w' = log w1 ++ [JObj [("id", JStr id); ("ok", JBool ok);
                                  ("latency_s", JFloat (t1 - t0))]] /\
        patches w' = <[[id; "stderr.txt"] := err]>
                       (<[[id; "stdout.txt"] := out]> (patches w1))
  | Raise e =>
      queue w' = queue w1 /\ log w' = log w1 /\ patches w' = patches w1 /\
      forall kv id, t = Serialized (JObj kv) -> Dict.get "id" kv <> Some (JStr id)
  | Blocked => False
  end.

(** ** The claims, as properties of one run *)








(** ** The log format *)

(** A timestamp: a number of seconds under a key other than the latency. *)
Definition has_timestamp (kv : Dict.t) : Prop :=
  exists k ts, k <> "latency_s" /\ Dict.get k kv = Some (JFloat ts).

(** The field [k] is absent or its value meets [P]. *)
Definition optional_field (k : string) (P : jvalue -> Prop) (kv : Dict.t) : Prop :=
  match Dict.get k kv with
  | Some v => P v
  | None => True
  end.

(** The entry has the fields of the log format: [id], a boolean [ok], a
    timestamp, and [error] and the latency only as a string and as a
    number of seconds. *)
Definition log_entry_as_specified (v : jvalue) : Prop :=
  exists kv, v = JObj kv /\
    is_Some (Dict.get "id" kv) /\
    (exists b, Dict.get "ok" kv = Some (JBool b)) /\
    has_timestamp kv /\
    optional_field "error" (fun e => exists s, e = JStr s) kv /\
    optional_field "latency_s" (fun l => exists x, l = JFloat x) kv.

(** The entries of the service: [error] only when [ok] is false, [ts]
    last, as [setdefault] adds it. *)
Definition service_log_entry (v : jvalue) : Prop :=
  exists id dir repo_key (ok : bool) (error : option string) ts,
    v = JObj ([("id", JStr id); ("dir", dir); ("repo_key", repo_key); ("ok", JBool ok)]
              ++ match error with Some m => [("error", JStr m)] | None => [] end
              ++ [("ts", JFloat ts)]) /\
    (ok = true -> error = None).

(** The entries of the file-queue worker. *)
Definition tools_log_entry (v : jvalue) : Prop :=
  exists id (ok : bool) lat,
    v = JObj [("id", JStr id); ("ok", JBool ok); ("latency_s", JFloat lat)].

(** A computation that only appends to the log, and only entries that
    meet [P]. *)
Definition appends {A} (P : jvalue -> Prop) (m : M A) : Prop :=
  forall w, exists es, log (snd (m w)) = log w ++ es /\ Forall P es.

(** ** The scoreboard *)



(** ** Records and their content *)

(** The record named [n] is in the store with the text [t], in whatever
    state directory. *)
Definition stored (s : store) (n : string) (t : rtext) : Prop :=
  exists d, sget d s !! n = Some t.

(** * service.py: the repository key *)

Module RepoKey.

(** [ch.isalnum()] on the code points below 256. *)
Definition is_alnum (c : ascii) : bool :=
  let n := nat_of_ascii c in
  ((48 <=? n) && (n <=? 57) || (65 <=? n) && (n <=? 90) || (97 <=? n) && (n <=? 122)
   || (n =? 170) || (178 <=? n) && (n <=? 179) || (n =? 181)
   || (185 <=? n) && (n <=? 186) || (188 <=? n) && (n <=? 190)
   || (192 <=? n) && (n <=? 214) || (216 <=? n) && (n <=? 246)
   || (248 <=? n) && (n <=? 255))%nat.

(** [ch.lower()] on the code points below 256. *)
Definition lower_char (c : ascii) : ascii :=
  let n := nat_of_ascii c in
  if ((65 <=? n) && (n <=? 90) || (192 <=? n) && (n <=? 214)
      || (216 <=? n) && (n <=? 222))%nat
  then ascii_of_nat (n + 32)
  else c.

Fixpoint map_chars (f : ascii -> ascii) (s : string) : string :=
  match s with
  | String c s' => String (f c) (map_chars f s')
  | EmptyString => EmptyString
  end.

(** [s.lower()] *)
Definition lower (s : string) : string := map_chars lower_char s.

Definition dash : ascii := "-"%char.

(** [ch if ch.isalnum() or ch in {"-", "_"} else "-"] *)
Definition keep_or_dash (ch : ascii) : ascii :=
  if is_alnum ch || Ascii.eqb ch dash || Ascii.eqb ch "_"%char then ch else dash.

Fixpoint lstrip_dash (s : string) : string :=
  match s with
  | String c s' => if Ascii.eqb c dash then lstrip_dash s' else s
  | EmptyString => EmptyString
  end.

Fixpoint rstrip_dash (s : string) : string :=
  match s with
  | String c s' =>
      match rstrip_dash s' with
      | EmptyString => if Ascii.eqb c dash then EmptyString else String c EmptyString
      | r => String c r
      end
  | EmptyString => EmptyString
  end.

(** [s.strip("-")] *)
Definition strip_dash (s : string) : string := rstrip_dash (lstrip_dash s).

(** The slug of [compute_repo_key], from [repo.name]. *)
Definition slug_of (name : string) : string :=
  let slug := PyStr.or_else (lower (PyStr.strip name)) "project" in
  let slug := map_chars keep_or_dash slug in
  PyStr.or_else (strip_dash slug) "project".

(** [compute_repo_key(repo)]: [name] is [repo.name] and [digest] the
    first eight characters of the SHA-256 hex digest of [str(repo)]. *)
Definition compute_repo_key (name digest : string) : string :=
  slug_of name +:+ "-" +:+ digest.

(** The characters of a slug. *)
Definition slug_char (c : ascii) : bool :=
  is_alnum c || Ascii.eqb c dash || Ascii.eqb c "_"%char.

Fixpoint all_chars (P : ascii -> bool) (s : string) : bool :=
  match s with
  | String c s' => P c && all_chars P s'
  | EmptyString => true
  end.

Definition first_char (s : string) : option ascii :=
  match s with
  | String c _ => Some c
  | EmptyString => None
  end.

Fixpoint last_char (s : string) : option ascii :=
  match s with
  | String c EmptyString => Some c
  | String _ s' => last_char s'
  | EmptyString => None
  end.

End RepoKey.

(** * The rules handed to the planner *)

(** What reading a file gives: its text, or the exception of
    [read_text]. *)
Definition file_read : Type := (exn + string)%type.

(** What [load_host_rules] looks at in a repository. *)
Record host_docs : Type := HostDocs {
  rules_md : option file_read;                 (* [docs/rules.md], when it exists *)
  rules_dir : option (gmap string file_read)   (* the entries of [docs/rules], when it is a directory *)
}.

(** [rules_dir.glob("*.md")] and [sorted] of it. *)
Definition glob_md (m : gmap string file_read) : list string :=
  filter (fun n => PyStr.ends_with ".md" n = true) (map fst (map_to_list m)).

Definition sorted_glob_md (m : gmap string file_read) : list string :=
  merge_sort str_le (glob_md m).

(** The index of the last ["."] of a name, [name.rfind(".")]. *)
Fixpoint rfind_dot (s : string) : option nat :=
  match s with
  | EmptyString => None
  | String c s' =>
      match rfind_dot s' with
      | Some i => Some (S i)
      | None => if Ascii.eqb c "."%char then Some 0%nat else None
      end
  end.

(** [Path.stem] of a file name. *)
Definition path_stem (name : string) : string :=
  match rfind_dot name with
  | Some i =>
      if ((0 <? i) && (i <? String.length name - 1))%nat
      then String.substring 0 i name
      else name
  | None => name
  end.

Definition blank_line : string := "

".

Module ServiceRules.

(** [read_text(path)]: the empty text when the file is missing or cannot
    be read. *)
Definition read_text (f : option file_read) : string :=
  match f with
  | Some (inr text) => text
  | _ => ""
  end.

Definition load_host_rules (repo : host_docs) : string :=
  match rules_md repo with
  | Some f => read_text (Some f)
  | None =>
      match rules_dir repo with
      | Some m =>
          let chunks :=
            List.filter PyStr.nonempty
              (map (fun child => read_text (m !! child)) (sorted_glob_md m)) in
          String.concat blank_line chunks
      | None => ""
      end
  end.

(** [combined_rules(repo)]; [agents_file] is [RULES_FILE]. *)
Definition combined_rules (repo : host_docs) (agents_file : option file_read) : string :=
  let host := load_host_rules repo in
  let agents := read_text agents_file in
  if PyStr.nonempty host && PyStr.nonempty agents
  then String.concat blank_line [host; "---"; "# TaskArena Agent Rules"; agents]
  else PyStr.or_else host (PyStr.or_else agents "No additional rules available.").

End ServiceRules.

Module ToolsRules.

(** [read_file(p)]: the empty text when the file is missing; reading a
    file that exists can raise. *)
Definition read_file (f : option file_read) : exn + string :=
  match f with
  | Some r => r
  | None => inr ""
  end.

(** The loop over [sorted(rules_dir.glob("*.md"))] with the final
    ["".join(parts)]. *)
Fixpoint join_parts (m : gmap string file_read) (names : list string) : exn + string :=
  match names with
  | [] => inr ""
  | f :: rest =>
      match read_file (m !! f) with
      | inl e => inl e
      | inr text =>
          match join_parts m rest with
          | inl e => inl e
          | inr tail => inr (blank_line +:+ "# " +:+ path_stem f +:+ blank_line +:+ text +:+ tail)
          end
      end
  end.

Definition load_host_rules (repo_root : host_docs) : exn + string :=
  match rules_md repo_root with
  | Some f => f
  | None =>
      match rules_dir repo_root with
      | Some m => join_parts m (sorted_glob_md m)
      | None => inr ""
      end
  end.

(** [combined_rules(repo_root)]; [agents_file] is [AGENTS_RULES]. *)
Definition combined_rules (repo_root : host_docs) (agents_file : option file_read)
    : exn + string :=
  match load_host_rules repo_root with
  | inl e => inl e
  | inr host =>
      match read_file agents_file with
      | inl e => inl e
      | inr agents =>
          if PyStr.nonempty host && PyStr.nonempty agents
          then inr (host +:+ "

<!-- BEGIN: agents-fs-cli rules -->
" +:+ agents +:+ "
<!-- END: agents-fs-cli rules -->
")
          else if PyStr.nonempty agents then inr agents
          else inr host
      end
  end.

End ToolsRules.

(** * service.py: the HTTP front door *)

Module Http.


Section WithEnv.

Variable E : env.


End WithEnv.

End Http.

(** * .agents/tools/router.py *)

Module Router.

(** What [main] reads: the line typed at the terminal, or the lines of a
    pipe. *)
Inductive stdin : Type :=
| Terminal (typed : string)
| Piped (lines : list string).

Section WithEnv.

Variable E : env.

Definition main (input : stdin) : M unit :=
  let repo := resolve E "." in
  match input with
  | Terminal typed =>
      let prompt := PyStr.strip typed in
      Tools.enqueue E prompt repo "code_apply" None ;; ret tt
  | Piped lines =>
      for_each lines
        (fun line =>
           let line := PyStr.strip line in
           if PyStr.nonempty line
           then Tools.enqueue E line repo "code_apply" None ;; ret tt
           else ret tt)
  end.

End WithEnv.

(** An environment whose ids are pairwise distinct: the [n]-th id is
    [n] times the letter [u]. *)
Fixpoint unary (n : nat) : string :=
  match n with
  | O => ""
  | S k => String "u" (unary k)
  end.

Definition unary_env : env :=
  {| is_dir := is_dir Scenario.env1;
     expanduser := expanduser Scenario.env1;
     resolve := resolve Scenario.env1;
     executable := executable Scenario.env1;
     env_CLAUDE_CLI := env_CLAUDE_CLI Scenario.env1;
     which_claude := which_claude Scenario.env1;
     home_claude := home_claude Scenario.env1;
     agent := agent Scenario.env1;
     service_rules := service_rules Scenario.env1;
     repo_key_of := repo_key_of Scenario.env1;
     tools_rules := tools_rules Scenario.env1;
     plan_base := plan_base Scenario.env1;
     time_at := time_at Scenario.env1;
     uuid_at := unary;
     tmp_at := tmp_at Scenario.env1 |}.

(** The prompts a pipe gives rise to: its lines, stripped, without the
    blank ones. *)
Definition prompts (lines : list string) : list string :=
  List.filter PyStr.nonempty (map PyStr.strip lines).

(** The task [enqueue] writes for a prompt. *)
Definition task_for (tid prompt repo : string) : rtext :=
  Serialized (JObj [("id", JStr tid); ("mode", JStr "code_apply");
                    ("prompt", JStr prompt); ("repo", JStr repo)]).

End Router.

(** * Relations a computation keeps *)

(** The computation [m] keeps the relation [R] between the world it
    starts in and the world it leaves, however it ends. *)
Definition keeps (R : world -> world -> Prop) {A} (m : M A) : Prop :=
  forall w, R w (snd (m w)).



(** * The artifacts of a job of the service *)




(** * Probing the agent *)

(** The number of [--help] probes among some processes. *)
Definition probe_count (evs : list event) : nat :=
  length (List.filter (is_step Probe) evs).

(** From [w] to [w'] processes are only added; the answer of the probe,
    once cached, stays, and is not asked for again; and while it is not
    cached at most one probe caches it. *)
Definition probes_once (w w' : world) : Prop :=
  exists evs,
    trace w' = trace w ++ evs /\
    match supports_cache w with
    | Some b => supports_cache w' = Some b /\ probe_count evs = 0%nat
    | None =>
        (supports_cache w' = None /\ probe_count evs = 0%nat) \/
        (supports_cache w' <> None /\ (probe_count evs <= 1)%nat)
    end.

(** Spawning a process does not fail with a [RuntimeError]. *)
Definition spawn_errors_are_os_errors (E : env) : Prop :=
  forall n args e, agent E n args = SpawnFails e -> exn_type e <> RuntimeError.

Section StoreFacts.

Lemma sget_sset d d' m s :
  sget d (sset d' m s) = if decide (d = d') then m else sget d s.
Proof. destruct d, d'; reflexivity. Qed.

Lemma residency_bits s n :
  residency s n =
    (if holds s Inbox n then [Inbox] else []) ++
    (if holds s Running n then [Running] else []) ++
    (if holds s Done n then [Done] else []) ++
    (if holds s Failed n then [Failed] else []).
Proof.
  unfold residency, all_dirs. simpl.
  destruct (holds s Inbox n), (holds s Running n),
           (holds s Done n), (holds s Failed n); reflexivity.
Qed.

Lemma residency_ext s s' n n' :
  (forall d, holds s' d n' = holds s d n) -> residency s' n' = residency s n.
Proof. intros H. rewrite !residency_bits, !H. reflexivity. Qed.

Lemma exclusive_holds s n d1 d2 :
  exclusive s -> holds s d1 n = true -> holds s d2 n = true -> d1 = d2.
Proof.
  intros Hex H1 H2. specialize (Hex n). rewrite residency_bits in Hex.
  destruct d1, d2; try reflexivity; rewrite H1, H2 in Hex;
    repeat match type of Hex with
           | context [if ?b then _ else _] => destruct b
           end; simpl in Hex; lia.
Qed.

Lemma exclusive_intro s :
  (forall n d1 d2, holds s d1 n = true -> holds s d2 n = true -> d1 = d2) ->
  exclusive s.
Proof.
  intros H n. rewrite residency_bits.
  destruct (holds s Inbox n) eqn:Hi, (holds s Running n) eqn:Hr,
           (holds s Done n) eqn:Hd, (holds s Failed n) eqn:Hf;
    simpl; try lia;
    match goal with
    | Ha : holds s ?a n = true, Hb : holds s ?b n = true |- _ =>
        lazymatch a with
        | b => fail
        | _ => discriminate (H n a b Ha Hb)
        end
    end.
Qed.

Lemma residency_single s n d :
  exclusive s -> holds s d n = true -> residency s n = [d].
Proof.
  intros Hex Hd. rewrite residency_bits.
  destruct d;
    repeat match goal with
           | |- context [if holds s ?d' n then _ else _] =>
               destruct (holds s d' n) eqn:?
           end; try reflexivity; try congruence;
    match goal with
    | Ha : holds s ?a n = true, Hb : holds s ?b n = true |- _ =>
        lazymatch a with
        | b => fail
        | _ => discriminate (exclusive_holds s n a b Hex Ha Hb)
        end
    end.
Qed.

Lemma holds_os_replace d1 d2 n s s' :
  os_replace (d1, n) (d2, n) s = Some s' -> d1 <> d2 ->
  holds s d1 n = true /\
  forall d n',
    holds s' d n' =
      if decide (n' = n)
      then (if decide (d = d2) then true
            else if decide (d = d1) then false else holds s d n)
      else holds s d n'.
Proof.
  unfold os_replace, holds. simpl. intros H Hne.
  destruct (sget d1 s !! n) as [t|] eqn:Ht; [|discriminate].
  inversion H; subst s'; clear H. split; [reflexivity|].
  intros d n'. rewrite !sget_sset.
  repeat case_decide; subst; try congruence;
    rewrite ?sget_sset; repeat case_decide; try congruence;
    rewrite ?lookup_insert_eq, ?lookup_delete_eq;
    rewrite ?lookup_insert_ne by congruence;
    rewrite ?lookup_delete_ne by congruence;
    rewrite ?lookup_delete_eq; reflexivity.
Qed.

Lemma holds_unlink d n s d' n' :
  holds (unlink (d, n) s) d' n' =
    if decide (d' = d /\ n' = n) then false else holds s d' n'.
Proof.
  unfold unlink, holds. simpl. rewrite sget_sset.
  destruct (decide (d' = d /\ n' = n)) as [[-> ->]|Hn].
  - rewrite decide_True by reflexivity. rewrite lookup_delete_eq. reflexivity.
  - destruct (decide (d' = d)) as [->|Hd]; [|reflexivity].
    rewrite lookup_delete_ne; [reflexivity|]. intros ->. tauto.
Qed.

(** A rename between two state directories moves exactly that record. *)
Lemma rename_moves d1 d2 n s s' :
  os_replace (d1, n) (d2, n) s = Some s' -> d1 <> d2 -> exclusive s ->
  exclusive s' /\ residency s n = [d1] /\ residency s' n = [d2] /\
  forall n', n' <> n -> residency s' n' = residency s n'.
Proof.
  intros Hr Hne Hex. destruct (holds_os_replace _ _ _ _ _ Hr Hne) as [H1 Hh].
  assert (Hex' : exclusive s').
  { apply exclusive_intro. intros n' a b Ha Hb. rewrite Hh in Ha, Hb.
    destruct (decide (n' = n)) as [->|Hn'].
    - assert (Hx : forall d, (if decide (d = d2) then true
                              else if decide (d = d1) then false
                                   else holds s d n) = true -> d = d2).
      { intros d Hd. destruct (decide (d = d2)); [assumption|].
        destruct (decide (d = d1)); [discriminate|].
        exfalso. apply n1. eapply exclusive_holds; eassumption. }
      rewrite (Hx a Ha), (Hx b Hb). reflexivity.
    - eapply exclusive_holds; eassumption. }
  split; [assumption|]. split; [apply residency_single; assumption|].
  split.
  - apply residency_single; [assumption|]. rewrite Hh.
    rewrite !decide_True by reflexivity. reflexivity.
  - intros n' Hn'. apply residency_ext. intros d. rewrite Hh.
    rewrite decide_False by assumption. reflexivity.
Qed.

(** A deletion removes exactly that record, if it is there. *)
Lemma unlink_removes d n s :
  exclusive s ->
  exclusive (unlink (d, n) s) /\
  (holds s d n = true -> residency s n = [d] /\ residency (unlink (d, n) s) n = []) /\
  (holds s d n = false -> unlink (d, n) s = s) /\
  forall n', n' <> n -> residency (unlink (d, n) s) n' = residency s n'.
Proof.
  intros Hex.
  assert (Hex' : exclusive (unlink (d, n) s)).
  { apply exclusive_intro. intros n' a b Ha Hb. rewrite holds_unlink in Ha, Hb.
    destruct (decide (a = d /\ n' = n)); [discriminate|].
    destruct (decide (b = d /\ n' = n)); [discriminate|].
    eapply exclusive_holds; eassumption. }
  split; [assumption|]. split; [|split].
  - intros Hd. split; [apply residency_single; assumption|].
    rewrite residency_bits, !holds_unlink.
    repeat match goal with
           | |- context [decide ?P] => destruct (decide P) as [[? ?]|?]
           end; subst;
      repeat match goal with
             | |- context [if holds s ?d' n then _ else _] =>
                 destruct (holds s d' n) eqn:?
             end; try reflexivity;
      match goal with
      | Ha : holds s ?a n = true, Hb : holds s ?b n = true |- _ =>
          lazymatch a with
          | b => fail
          | _ => first [ discriminate (exclusive_holds s n a b Hex Ha Hb)
                       | exfalso; pose proof (exclusive_holds s n a b Hex Ha Hb);
                         subst; tauto ]
          end
      end.
  - unfold holds, unlink. simpl. intros Hd.
    destruct (sget d s !! n) eqn:Hl; [discriminate|].
    rewrite delete_id by assumption.
    destruct s, d; reflexivity.
  - intros n' Hn'. apply residency_ext. intros d'. rewrite holds_unlink.
    rewrite decide_False by tauto. reflexivity.
Qed.

(** One file-system step keeps the directories exclusive, and changes
    the residency of every name by at most one legal transition. *)
Lemma fs_step_sound a s s' :
  exclusive s -> fs_step a s s' ->
  exclusive s' /\ forall n, rtc (move a) (residency s n) (residency s' n).
Proof.
  intros Hex Hstep. destruct Hstep as [n s s' Hr | n ok s s' Hr | d n s Hd].
  - destruct (rename_moves _ _ _ _ _ Hr ltac:(discriminate) Hex)
      as (Hex' & Hb & Ha & Ho).
    split; [assumption|]. intros n'. destruct (decide (n' = n)) as [->|Hn].
    + rewrite Hb, Ha. apply rtc_once. constructor.
    + rewrite Ho by assumption. apply rtc_refl.
  - assert (Hne : Running <> (if ok then Done else Failed))
      by (destruct ok; discriminate).
    destruct (rename_moves _ _ _ _ _ Hr Hne Hex) as (Hex' & Hb & Ha & Ho).
    split; [assumption|]. intros n'. destruct (decide (n' = n)) as [->|Hn].
    + rewrite Hb, Ha. apply rtc_once. destruct ok; constructor.
    + rewrite Ho by assumption. apply rtc_refl.
  - destruct (unlink_removes d n s Hex) as (Hex' & Hyes & Hno & Ho).
    split; [assumption|]. intros n'. destruct (decide (n' = n)) as [->|Hn].
    + destruct (holds s d n) eqn:Hh.
      * destruct (Hyes eq_refl) as [Hb Ha]. rewrite Hb, Ha.
        apply rtc_once. destruct Hd; subst; constructor.
      * rewrite (Hno eq_refl). apply rtc_refl.
    + rewrite Ho by assumption. apply rtc_refl.
Qed.

Lemma fs_steps_sound a s s' :
  exclusive s -> rtc (fs_step a) s s' ->
  exclusive s' /\ forall n, lifecycle a (residency s n) (residency s' n).
Proof.
  intros Hex Hsteps. induction Hsteps as [s | s s1 s2 Hstep _ IH].
  - split; [assumption|]. intros n. apply rtc_refl.
  - destruct (fs_step_sound _ _ _ Hex Hstep) as [Hex1 H1].
    destruct (IH Hex1) as [Hex2 H2].
    split; [assumption|]. intros n. unfold lifecycle.
    etransitivity; [apply H1 | apply H2].
Qed.

(** Under a worker a record stays in exactly one directory, never comes
    back to the inbox, and never leaves a terminal directory; nothing
    appears from nowhere. *)
Lemma lifecycle_worker r r' :
  lifecycle Worker r r' ->
  (In Inbox r' -> r' = r) /\
  (r = [Done] -> r' = [Done]) /\
  (r = [Failed] -> r' = [Failed]) /\
  (r = [] -> r' = []) /\
  (forall d, r = [d] -> exists d', r' = [d']).
Proof.
  intros H. induction H as [r | r r1 r2 Hm _ IH].
  - repeat split; eauto.
  - destruct IH as (IHi & IHd & IHf & IHn & IH1).
    assert (Hno : ~ In Inbox r2).
    { intros Hin. specialize (IHi Hin). subst r2.
      inversion Hm; subst; simpl in Hin; intuition discriminate. }
    split; [tauto|].
    inversion Hm; subst; repeat split; intros; try discriminate; eauto.
Qed.

(** Under the drain a record stays where it is or, when terminal, is
    deleted. *)
Lemma lifecycle_judge r r' :
  lifecycle Judge r r' ->
  r' = r \/ ((r = [Done] \/ r = [Failed]) /\ r' = []).
Proof.
  intros H. induction H as [r | r r1 r2 Hm _ IH].
  - left. reflexivity.
  - inversion Hm; subst; right; (split; [auto|]);
      destruct IH as [?|[[?|?] _]]; subst; try discriminate; reflexivity.
Qed.

End StoreFacts.

(** ** The effect of a computation on the queue *)

Section Effects.

Lemma neutral_ret {A} (a : A) : queue_neutral (ret a).
Proof. intros w. reflexivity. Qed.

Lemma neutral_raise {A} (e : exn) : queue_neutral (@raise A e).
Proof. intros w. reflexivity. Qed.

Lemma neutral_get_world : queue_neutral get_world.
Proof. intros w. reflexivity. Qed.

Lemma neutral_modify (f : world -> world) :
  (forall w, queue (f w) = queue w) -> queue_neutral (modify f).
Proof. intros H w. apply H. Qed.

Lemma neutral_bind {A B} (m : M A) (k : A -> M B) :
  queue_neutral m -> (forall a, queue_neutral (k a)) -> queue_neutral (bind m k).
Proof.
  intros Hm Hk w. unfold bind. specialize (Hm w).
  destruct (m w) as [[a|e|] w1]; simpl in *; try assumption.
  rewrite Hk. assumption.
Qed.

Lemma neutral_try_except {A} (m : M A) (h : exn -> M A) :
  queue_neutral m -> (forall e, queue_neutral (h e)) -> queue_neutral (try_except m h).
Proof.
  intros Hm Hh w. unfold try_except. specialize (Hm w).
  destruct (m w) as [[a|e|] w1]; simpl in *; try assumption.
  rewrite Hh. assumption.
Qed.

Lemma neutral_try_finally {A} (m : M A) (c : world -> world) :
  queue_neutral m -> (forall w, queue (c w) = queue w) ->
  queue_neutral (try_finally m c).
Proof.
  intros Hm Hc w. unfold try_finally. specialize (Hm w).
  destruct (m w) as [[a|e|] w1]; simpl in *; rewrite ?Hc; assumption.
Qed.

Lemma neutral_subprocess_run E tag args t :
  queue_neutral (subprocess_run E tag args t).
Proof.
  intros w. unfold subprocess_run.
  destruct (agent E (length (trace w)) args) as [secs rc out err| |e];
    [destruct t as [t|]; [destruct (t <? secs)|] | destruct t | ]; reflexivity.
Qed.

Lemma neutral_time_time E : queue_neutral (time_time E).
Proof. intros w. reflexivity. Qed.

Lemma neutral_uuid4 E : queue_neutral (uuid4 E).
Proof. intros w. reflexivity. Qed.

Lemma neutral_write_temp E text : queue_neutral (write_temp E text).
Proof. intros w. reflexivity. Qed.

Lemma legal_neutral {A} a (m : M A) : queue_neutral m -> legal a m.
Proof. intros H w. rewrite H. apply rtc_refl. Qed.

Lemma legal_bind {A B} c (P : A -> Prop) (m : M A) (k : A -> M B) :
  legal c m -> returns P m -> (forall a, P a -> legal c (k a)) -> legal c (bind m k).
Proof.
  intros Hm HP Hk w. unfold bind. specialize (Hm w). specialize (HP w).
  destruct (m w) as [[a|e|] w1]; simpl in *; try assumption.
  etransitivity; [exact Hm|]. apply Hk. eapply HP. reflexivity.
Qed.

Lemma legal_seq {A B} c (m : M A) (k : A -> M B) :
  legal c m -> (forall a, legal c (k a)) -> legal c (bind m k).
Proof.
  intros Hm Hk. apply (legal_bind c (fun _ => True)); auto.
  intros w a w' _. exact I.
Qed.

Lemma legal_try_except {A} c (m : M A) (h : exn -> M A) :
  legal c m -> (forall e, legal c (h e)) -> legal c (try_except m h).
Proof.
  intros Hm Hh w. unfold try_except. specialize (Hm w).
  destruct (m w) as [[a|e|] w1]; simpl in *; try assumption.
  etransitivity; [exact Hm|]. apply Hh.
Qed.

(** The rename of a finish is one legal step, or fails and changes
    nothing. *)
Lemma legal_finish_rename n (ok : bool) :
  legal Worker (replace_file (Running, n) (if ok then Done else Failed, n)).
Proof.
  intros w. unfold replace_file.
  destruct (os_replace _ _ (queue w)) as [s'|] eqn:Hr; simpl.
  - apply rtc_once. eapply fs_finish. exact Hr.
  - apply rtc_refl.
Qed.

(** The claim loop makes at most one step, the rename of the record it
    returns, and returns a path of [running]. *)
Lemma claim_loop_spec listing s :
  match claim_loop listing s with
  | (Some h, s') => exists n, h = (Running, n) /\ In n listing /\
                              os_replace (Inbox, n) (Running, n) s = Some s'
  | (None, s') => s' = s
  end.
Proof.
  induction listing as [|n rest IH]; simpl; [reflexivity|].
  destruct (os_replace (Inbox, n) (Running, n) s) as [s'|] eqn:Hr.
  - exists n. auto.
  - destruct (claim_loop rest s) as [[h|] s'']; [|assumption].
    destruct IH as (n' & -> & Hin & Hr'). exists n'. auto.
Qed.

Lemma claim_loop_legal listing s :
  rtc (fs_step Worker) s (snd (claim_loop listing s)).
Proof.
  pose proof (claim_loop_spec listing s) as H.
  destruct (claim_loop listing s) as [[h|] s']; simpl.
  - destruct H as (n & _ & _ & Hr). apply rtc_once. eapply fs_claim. exact Hr.
  - subst. apply rtc_refl.
Qed.

Lemma claim_loop_running listing s h :
  fst (claim_loop listing s) = Some h -> fst h = Running.
Proof.
  pose proof (claim_loop_spec listing s) as H.
  destruct (claim_loop listing s) as [[h'|] s']; simpl; [|discriminate].
  intros [= <-]. destruct H as (n & -> & _). reflexivity.
Qed.

End Effects.

(** ** Every operation of the two programs is a sequence of legal steps *)

Ltac break_neutral :=
  match goal with
  | |- queue_neutral (match ?x with _ => _ end) => destruct x
  | |- queue_neutral (if ?x then _ else _) => destruct x
  end.

Ltac neutral_step :=
  first
    [ apply neutral_ret | apply neutral_raise | apply neutral_get_world
    | apply neutral_subprocess_run | apply neutral_time_time
    | apply neutral_uuid4 | apply neutral_write_temp
    | apply neutral_modify; intros; reflexivity
    | apply neutral_bind; [|intros]
    | apply neutral_try_except; [|intros]
    | apply neutral_try_finally; [|intros; reflexivity]
    | break_neutral ].

Ltac neutral := repeat neutral_step.

Section ServiceEffects.

Variable E : env.

Lemma neutral_read_text p : queue_neutral (Service.read_text p).
Proof.
  intros w. unfold Service.read_text.
  destruct (sget (fst p) (queue w) !! snd p); reflexivity.
Qed.

Lemma neutral_resolve_claude_cli : queue_neutral (Service._resolve_claude_cli E).
Proof.
  intros w. unfold Service._resolve_claude_cli.
  destruct (claude_path w) as [p|]; [destruct (PyStr.nonempty p)|];
    try reflexivity;
    destruct (Service.resolve_loop E (Service.cli_candidates E) []); reflexivity.
Qed.

Lemma neutral_detect_supports_dash_p : queue_neutral (Service._detect_supports_dash_p E).
Proof.
  unfold Service._detect_supports_dash_p.
  apply neutral_bind; [apply neutral_get_world|]. intros w.
  destruct (supports_cache w); [apply neutral_ret|].
  apply neutral_bind.
  - apply neutral_try_except.
    + apply neutral_bind; [apply neutral_resolve_claude_cli|]. intros. neutral.
    + intros. neutral.
  - intros [[[rc out] err]|]; neutral.
Qed.

Lemma neutral_run_plan repo prompt job_id :
  queue_neutral (Service.run_plan E repo prompt job_id).
Proof.
  unfold Service.run_plan, Service._run_subprocess.
  apply neutral_bind; [apply neutral_detect_supports_dash_p|]. intros.
  apply neutral_bind; [apply neutral_resolve_claude_cli|]. intros.
  neutral.
Qed.

Lemma neutral_run_apply repo prompt job_id rules plan :
  queue_neutral (Service.run_apply E repo prompt job_id rules plan).
Proof.
  unfold Service.run_apply, Service._run_subprocess.
  apply neutral_bind; [apply neutral_detect_supports_dash_p|]. intros.
  apply neutral_bind; [apply neutral_resolve_claude_cli|]. intros.
  neutral.
Qed.

Lemma neutral_log_event entry : queue_neutral (Service.log_event E entry).
Proof. unfold Service.log_event. neutral. Qed.

Lemma neutral_write_artifact dir name content :
  queue_neutral (Service.write_artifact dir name content).
Proof. unfold Service.write_artifact. neutral. Qed.

Lemma legal_finish_job n ok : legal Worker (Service.finish_job (Running, n) ok).
Proof. unfold Service.finish_job. simpl. apply legal_finish_rename. Qed.

Lemma legal_finish_and_log n ok entry :
  legal Worker (Service.finish_job (Running, n) ok ;; Service.log_event E entry).
Proof.
  apply legal_seq; [apply legal_finish_job|].
  intros. apply legal_neutral, neutral_log_event.
Qed.

Lemma legal_process_job n : legal Worker (Service.process_job E (Running, n)).
Proof.
  unfold Service.process_job.
  apply legal_seq; [apply legal_neutral, neutral_read_text|]. intros raw.
  destruct (json_loads raw) as [e|job_v]; [apply legal_finish_and_log|].
  apply legal_seq; [apply legal_neutral; unfold as_dict; neutral|]. intros job.
  apply legal_seq; [apply legal_neutral; unfold Service.as_path; neutral|]. intros repo.
  apply legal_seq; [apply legal_neutral; unfold Service.strip_value; neutral|]. intros prompt.
  apply legal_seq; [apply legal_neutral; neutral|]. intros job_id_v.
  apply legal_seq; [apply legal_neutral; unfold Service.as_component; neutral|]. intros repo_key.
  apply legal_seq; [apply legal_neutral; unfold Service.as_component; neutral|]. intros job_id.
  destruct (negb (is_dir E repo)).
  { apply legal_seq; [apply legal_neutral, neutral_write_artifact|]. intros.
    apply legal_finish_and_log. }
  destruct (negb (PyStr.nonempty prompt)).
  { apply legal_seq; [apply legal_neutral, neutral_write_artifact|]. intros.
    apply legal_finish_and_log. }
  apply legal_seq.
  { apply legal_neutral. apply neutral_try_except.
    - apply neutral_bind; [apply neutral_run_plan|]. intros. neutral.
    - intros. neutral. }
  intros [msg|[[[plan_rc plan_out] plan_err] rules]].
  { apply legal_seq; [apply legal_neutral, neutral_write_artifact|]. intros.
    apply legal_finish_and_log. }
  apply legal_seq; [apply legal_neutral, neutral_write_artifact|]. intros.
  apply legal_seq; [apply legal_neutral, neutral_write_artifact|]. intros.
  destruct (negb (plan_rc =? 0)); [apply legal_finish_and_log|].
  apply legal_seq; [apply legal_neutral, neutral_run_apply|].
  intros [[apply_rc apply_out] apply_err].
  apply legal_seq; [apply legal_neutral, neutral_write_artifact|]. intros.
  apply legal_seq; [apply legal_neutral, neutral_write_artifact|]. intros.
  apply legal_finish_and_log.
Qed.

Lemma legal_claim_job : legal Worker Service.claim_job.
Proof. intros w. unfold Service.claim_job. simpl. apply claim_loop_legal. Qed.

Lemma claim_job_returns :
  returns (fun r => forall h, r = Some h -> fst h = Running) Service.claim_job.
Proof.
  intros w r w'. unfold Service.claim_job. intros [= <- _] h Hh.
  eapply claim_loop_running. exact Hh.
Qed.

Lemma legal_worker_turn : legal Worker (Service.worker_turn E).
Proof.
  unfold Service.worker_turn.
  eapply legal_bind; [apply legal_claim_job | apply claim_job_returns |].
  intros [[d n]|] Hr; [|apply legal_neutral, neutral_ret].
  specialize (Hr _ eq_refl). simpl in Hr. subst d.
  apply legal_try_except; [apply legal_process_job|].
  intros e. apply legal_finish_and_log.
Qed.

Lemma legal_Worker_run turns : legal Worker (Service.Worker_run E turns).
Proof.
  induction turns as [|k IH]; simpl.
  - apply legal_neutral, neutral_ret.
  - apply legal_seq; [apply legal_worker_turn|]. intros _. exact IH.
Qed.

End ServiceEffects.

Section ToolsEffects.

Variable E : env.

Lemma neutral_read_record p : queue_neutral (Tools.read_record p).
Proof.
  intros w. unfold Tools.read_record.
  destruct (sget (fst p) (queue w) !! snd p); reflexivity.
Qed.

Lemma neutral_lift_result {A} (r : exn + A) : queue_neutral (Tools.lift_result r).
Proof. unfold Tools.lift_result. neutral. Qed.

Lemma neutral_subscript k task : queue_neutral (Tools.subscript k task).
Proof. unfold Tools.subscript. neutral. Qed.

Lemma neutral_cli_supports_dash_p : queue_neutral (Tools._cli_supports_dash_p E).
Proof.
  unfold Tools._cli_supports_dash_p. destruct (negb (Tools.claude_available E)).
  - apply neutral_ret.
  - apply neutral_try_except; [|intros; apply neutral_ret].
    apply neutral_bind; [apply neutral_subprocess_run|].
    intros [[rc out] err]. apply neutral_ret.
Qed.

Lemma neutral_claude_plan_apply repo plan_md apply_md :
  queue_neutral (Tools.claude_plan_apply E repo plan_md apply_md).
Proof.
  unfold Tools.claude_plan_apply, Tools.run, Tools.as_text.
  destruct (negb (Tools.claude_available E)); [apply neutral_raise|].
  apply neutral_bind; [apply neutral_cli_supports_dash_p|]. intros [|].
  - apply neutral_bind; [apply neutral_subprocess_run|]. intros [[rc1 out1] err1].
    apply neutral_bind; [neutral|]. intros apply_text.
    apply neutral_bind; [apply neutral_subprocess_run|]. intros [[rc2 out2] err2].
    apply neutral_ret.
  - apply neutral_bind; [apply neutral_write_temp|]. intros f1.
    apply neutral_bind; [apply neutral_subprocess_run|]. intros [[rc1 out1] err1].
    apply neutral_bind; [apply neutral_write_temp|]. intros f2.
    apply neutral_bind; [neutral|]. intros apply_text.
    apply neutral_bind; [neutral|]. intros _.
    apply neutral_bind; [apply neutral_subprocess_run|]. intros [[rc2 out2] err2].
    apply neutral_ret.
Qed.

Lemma neutral_attempt task : queue_neutral (Tools.attempt E task).
Proof.
  unfold Tools.attempt, Tools.attempt_body.
  apply neutral_try_except; [|intros; apply neutral_ret].
  apply neutral_bind; [unfold as_dict; neutral|]. intros task_d.
  apply neutral_bind; [unfold Tools.resolved_path; neutral|]. intros repo_root.
  apply neutral_bind; [apply neutral_lift_result|]. intros rules.
  apply neutral_bind; [apply neutral_subscript|]. intros apply_md.
  destruct (negb (Tools.claude_available E)); [apply neutral_ret|].
  apply neutral_bind; [apply neutral_claude_plan_apply|].
  intros [[rc out] err]. apply neutral_ret.
Qed.

Lemma legal_finish n ok : legal Worker (Tools.finish (Running, n) ok).
Proof.
  unfold Tools.finish. simpl.
  apply legal_seq; [apply legal_finish_rename|].
  intros. apply legal_neutral, neutral_ret.
Qed.

Lemma legal_claim : legal Worker Tools.claim.
Proof. intros w. unfold Tools.claim. simpl. apply claim_loop_legal. Qed.

Lemma claim_returns :
  returns (fun r => forall h, r = Some h -> fst h = Running) Tools.claim.
Proof.
  intros w r w'. unfold Tools.claim. intros [= <- _] h Hh.
  eapply claim_loop_running. exact Hh.
Qed.

Lemma legal_run_once : legal Worker (Tools.run_once E).
Proof.
  unfold Tools.run_once.
  eapply legal_bind; [apply legal_claim | apply claim_returns |].
  intros [[d n]|] Hr; [|apply legal_neutral, neutral_ret].
  specialize (Hr _ eq_refl). simpl in Hr. subst d.
  apply legal_seq; [apply legal_neutral, neutral_read_record|]. intros text.
  apply legal_seq; [apply legal_neutral, neutral_lift_result|]. intros task.
  apply legal_seq; [apply legal_neutral, neutral_time_time|]. intros t0.
  apply legal_seq; [apply legal_neutral, neutral_attempt|]. intros [[ok out] err].
  apply legal_seq; [apply legal_neutral, neutral_subscript|]. intros id.
  apply legal_seq; [apply legal_neutral; unfold Tools.patch_dir; neutral|]. intros ap.
  apply legal_seq; [apply legal_neutral; unfold Tools.write_text; neutral|]. intros _.
  apply legal_seq; [apply legal_neutral; unfold Tools.write_text; neutral|]. intros _.
  apply legal_seq; [apply legal_finish|]. intros _.
  apply legal_neutral. unfold Tools.logj.
  apply neutral_bind; [apply neutral_subscript|]. intros. neutral.
Qed.

Lemma legal_worker_main turns : legal Worker (Tools.worker_main E turns).
Proof.
  induction turns as [|k IH]; simpl.
  - apply legal_neutral, neutral_ret.
  - apply legal_seq; [apply legal_run_once|]. intros _. exact IH.
Qed.

Lemma legal_drain_dir d key listing s :
  d = Done \/ d = Failed -> legal Judge (Tools.drain_dir d key listing s).
Proof.
  intros Hd. revert s. induction listing as [|n rest IH]; intros s; simpl.
  - apply legal_neutral, neutral_ret.
  - apply legal_seq; [apply legal_neutral, neutral_lift_result|]. intros s'.
    apply legal_seq; [|intros; apply IH].
    intros w. simpl. apply rtc_once. apply fs_drain. exact Hd.
Qed.

Lemma legal_drain_cycle s : legal Judge (Tools.drain_cycle s).
Proof.
  unfold Tools.drain_cycle, Tools.save_score.
  apply legal_seq; [apply legal_neutral, neutral_get_world|]. intros w.
  apply legal_seq; [apply legal_drain_dir; auto|]. intros s1.
  apply legal_seq; [apply legal_neutral, neutral_get_world|]. intros w1.
  apply legal_seq; [apply legal_drain_dir; auto|]. intros s2.
  apply legal_neutral. neutral.
Qed.

Lemma legal_judge_main cycles : legal Judge (Tools.judge_main cycles).
Proof.
  unfold Tools.judge_main. apply legal_seq.
  - apply legal_neutral. intros w. unfold Tools.load_score.
    destruct (score_file w) as [[v|t]|]; reflexivity.
  - intros s. revert s. induction cycles as [|k IH]; intros s; simpl.
    + apply legal_neutral, neutral_ret.
    + apply legal_seq; [apply legal_drain_cycle|]. exact IH.
Qed.

End ToolsEffects.

(** ** What the agent stages of the service do *)

Ltac conjs := repeat match goal with |- _ /\ _ => refine (conj _ _) end.

Ltac break_inner H :=
  match type of H with
  | context [match ?x with _ => _ end] =>
      lazymatch x with
      | context [match _ with _ => _ end] => fail
      | _ => first [ is_var x; destruct x | destruct x eqn:? ]
      end
  end.


Lemma bind_inv {A B} (m : M A) (k : A -> M B) w r w' :
  bind m k w = (r, w') ->
  (exists a w1, m w = (Ret a, w1) /\ k a w1 = (r, w')) \/
  (exists e, m w = (Raise e, w') /\ r = Raise e) \/
  (m w = (Blocked, w') /\ r = Blocked).
Proof.
  unfold bind. destruct (m w) as [[a|e|] w1]; intros H.
  - left. eauto.
  - right. left. injection H as <- <-. eauto.
  - right. right. injection H as <- <-. eauto.
Qed.

Lemma extends_refl w : extends w w [].
Proof. unfold extends. rewrite app_nil_r. repeat split. Qed.

Lemma extends_trans w1 w2 w3 e1 e2 :
  extends w1 w2 e1 -> extends w2 w3 e2 -> extends w1 w3 (e1 ++ e2).
Proof.
  unfold extends. intros (?&?&?&?&?&?&Ha) (?&?&?&?&?&?&Hb).
  repeat split; try congruence. rewrite Hb, Ha, app_assoc. reflexivity.
Qed.

Ltac solve_extends :=
  first [ apply extends_refl
        | unfold extends; simpl; repeat split; rewrite ?app_nil_r; reflexivity ].

Section ServiceSpecs.

Variable E : env.

Lemma resolve_spec w r w' :
  Service._resolve_claude_cli E w = (r, w') ->
  extends w w' [] /\ tmpfiles w' = tmpfiles w /\
  ((exists p, r = Ret p) \/ (exists e, r = Raise e /\ exn_type e = RuntimeError)).
Proof.
  unfold Service._resolve_claude_cli.
  destruct (claude_path w) as [p|]; [destruct (PyStr.nonempty p)|];
  try destruct (Service.resolve_loop E (Service.cli_candidates E) []);
  intros [= <- <-]; (split; [apply extends_refl || (unfold extends; simpl; rewrite app_nil_r; repeat split)|]);
  (split; [reflexivity|]); eauto.
Qed.

Lemma subprocess_run_spec tag args t w r w' :
  subprocess_run E tag args t w = (r, w') ->
  extends w w' [(Invocation tag args t (tmpfiles w), agent E (length (trace w)) args)] /\
  tmpfiles w' = tmpfiles w /\
  supports_cache w' = supports_cache w /\ claude_path w' = claude_path w /\
  tmp_reads w' = tmp_reads w /\
  r = outcome_of (agent E (length (trace w)) args) t (fun x => x).
Proof.
  unfold subprocess_run, outcome_of. intros H.
  destruct (agent E (length (trace w)) args) as [secs rc out err| |e];
    [destruct t as [t|]; [destruct (t <? secs)|] | destruct t | ];
    injection H as <- <-; unfold extends; simpl; repeat split.
Qed.

Lemma exn_class_eqb_eq a b : exn_class_eqb a b = true -> a = b.
Proof. destruct a, b; simpl; intros H; try reflexivity; discriminate. Qed.

Lemma detect_spec w r w' :
  Service._detect_supports_dash_p E w = (r, w') ->
  exists probes, extends w w' probes /\ all_probes probes /\ tmpfiles w' = tmpfiles w /\
  tmp_reads w' = tmp_reads w /\
  ((exists b, r = Ret b) \/ (exists e, r = Raise e /\ exn_type e = RuntimeError)).
Proof.
  unfold Service._detect_supports_dash_p, Service._resolve_claude_cli, subprocess_run,
    bind, try_except, get_world, modify, ret, raise.
  intros H. repeat (break_inner H; simpl in H); simplify_eq; simpl in *.
  all: eexists; (split; [solve_extends|]); (split; [repeat constructor|]);
       (split; [reflexivity|]); (split; [reflexivity|]);
       eauto using exn_class_eqb_eq.
Qed.

Lemma run_subprocess_spec tag args w r w' :
  Service._run_subprocess E tag args w = (r, w') ->
  exists inv b, extends w w' [(inv, b)] /\ inv_step inv = tag /\ inv_args inv = args /\
    inv_timeout inv = None /\ inv_files inv = tmpfiles w /\
    tmpfiles w' = tmpfiles w /\
    r = match b with
        | Exits _ rc out err => Ret (rc, out, err)
        | Hangs => Blocked
        | SpawnFails e => Raise e
        end.
Proof.
  unfold Service._run_subprocess. intros H.
  destruct (subprocess_run_spec _ _ _ _ _ _ H) as (Hx & Ht & _ & _ & _ & Hr).
  eexists _, _. split; [exact Hx|]. simpl. repeat split; try assumption.
Qed.

Lemma extends_tmp_frame w w' evs f :
  extends w w' evs -> extends w (with_tmpfiles f w') evs.
Proof. unfold extends. simpl. tauto. Qed.

Lemma finally_run_spec tag args temp w r w' :
  try_finally (Service._run_subprocess E tag args) (with_tmpfiles (delete temp)) w = (r, w') ->
  exists inv b, extends w w' [(inv, b)] /\ inv_step inv = tag /\ inv_args inv = args /\
    inv_timeout inv = None /\ inv_files inv = tmpfiles w /\
    r = outcome_of b None (fun x => x).
Proof.
  unfold try_finally. intros H.
  destruct (Service._run_subprocess E tag args w) as [r1 w1] eqn:Hs.
  destruct (run_subprocess_spec _ _ _ _ _ Hs) as (inv & b & Hx & H1 & H2 & H3 & H4 & _ & Hr).
  exists inv, b. conjs; try assumption.
  - destruct r1; injection H as <- <-; try assumption; apply extends_tmp_frame; assumption.
  - destruct r1; injection H as <- <-; rewrite Hr; destruct b; reflexivity.
Qed.

Lemma write_temp_spec text w :
  exists name, write_temp E text w = (Ret name, with_tmpfiles (insert name text) (tick_tmp w)).
Proof. eexists. reflexivity. Qed.

(** The invocation of one step, in either style. *)
Lemma invoke_spec {A} tag (sub cli repo text : string) (dash : bool)
    (k : Z * string * string -> A) w r w' :
  (if dash
   then let* proc := Service._run_subprocess E tag [cli; "-p"; text] in ret (k proc)
   else let* temp_path := write_temp E text in
        let* proc :=
          try_finally
            (Service._run_subprocess E tag
               [cli; "code"; sub; "--repo"; repo; "--plan"; temp_path])
            (with_tmpfiles (delete temp_path)) in
        ret (k proc)) w = (r, w') ->
  exists inv b, extends w w' [(inv, b)] /\ inv_step inv = tag /\
    inv_timeout inv = None /\ prompt_given inv = Some text /\
    r = outcome_of b None k.
Proof.
  destruct dash; intros H.
  - apply bind_inv in H. destruct H as [(proc & w1 & Hs & H)|[(e & Hs & ->)|[Hs ->]]];
      destruct (run_subprocess_spec _ _ _ _ _ Hs) as (inv & b & Hx & H1 & H2 & H3 & H4 & _ & Hr);
      exists inv, b; unfold prompt_given; rewrite H2; simpl;
      try (injection H as <- <-); conjs; try assumption; try reflexivity;
      destruct b; unfold outcome_of in *; simplify_eq; reflexivity.
  - apply bind_inv in H. destruct H as [(temp & w1 & Ht & H)|[(e & [=] & _)|[[=] _]]].
    injection Ht as <- <-.
    apply bind_inv in H. destruct H as [(proc & w2 & Hs & H)|[(e & Hs & ->)|[Hs ->]]];
      destruct (finally_run_spec _ _ _ _ _ _ Hs) as (inv & b & Hx & H1 & H2 & H3 & H4 & Hr);
      exists inv, b; unfold prompt_given; rewrite H2, H4; simpl;
      rewrite lookup_insert_eq;
      try (injection H as <- <-); conjs; try assumption; try reflexivity;
      try (destruct Hx as (?&?&?&?&?&?&?); unfold extends; simpl in *; tauto);
      destruct b; unfold outcome_of in *; simplify_eq; reflexivity.
Qed.


Lemma invoke_raw_spec tag (sub cli repo text : string) (dash : bool) w r w' :
  (if dash
   then Service._run_subprocess E tag [cli; "-p"; text]
   else let* temp_path := write_temp E text in
        try_finally
          (Service._run_subprocess E tag
             [cli; "code"; sub; "--repo"; repo; "--plan"; temp_path])
          (with_tmpfiles (delete temp_path))) w = (r, w') ->
  exists inv b, extends w w' [(inv, b)] /\ inv_step inv = tag /\
    inv_timeout inv = None /\ prompt_given inv = Some text /\
    r = outcome_of b None (fun x => x).
Proof.
  destruct dash; intros H.
  - destruct (run_subprocess_spec _ _ _ _ _ H) as (inv & b & Hx & H1 & H2 & H3 & H4 & _ & Hr).
    exists inv, b. unfold prompt_given. rewrite H2. simpl. conjs; try assumption; try reflexivity.
  - apply bind_inv in H. destruct H as [(temp & w1 & Ht & H)|[(e & [=] & _)|[[=] _]]].
    injection Ht as <- <-.
    destruct (finally_run_spec _ _ _ _ _ _ H) as (inv & b & Hx & H1 & H2 & H3 & H4 & Hr).
    exists inv, b. unfold prompt_given. rewrite H2, H4. simpl. rewrite lookup_insert_eq.
    conjs; try assumption; try reflexivity.
    all: destruct Hx as (?&?&?&?&?&?&?); unfold extends; simpl in *; tauto.
Qed.

(** [run_plan]: probes, then at most the plan process. *)
Lemma run_plan_spec repo prompt job_id w r w' :
  Service.run_plan E repo prompt job_id w = (r, w') ->
  exists probes, all_probes probes /\
    ((extends w w' probes /\ exists e, r = Raise e /\ exn_type e = RuntimeError) \/
     (exists inv b, extends w w' (probes ++ [(inv, b)]) /\
        inv_step inv = Plan /\ inv_timeout inv = None /\
        r = outcome_of b None (fun proc => (proc, service_rules E repo)))).
Proof.
  unfold Service.run_plan. intros H.
  apply bind_inv in H. destruct H as [(dash & w1 & Hd & H)|[(e & Hd & ->)|[Hd ->]]];
    destruct (detect_spec _ _ _ Hd) as (probes & Hx1 & Hp & _ & _ & Hr1);
    exists probes; (split; [assumption|]).
  2: { left. split; [assumption|]. destruct Hr1 as [[b [=]]|(e' & [= <-] & He)]. eauto. }
  2: { destruct Hr1 as [[b [=]]|(e' & [=] & He)]. }
  apply bind_inv in H. destruct H as [(cli & w2 & Hc & H)|[(e & Hc & ->)|[Hc ->]]];
    destruct (resolve_spec _ _ _ Hc) as (Hx2 & _ & Hr2);
    pose proof (extends_trans _ _ _ _ _ Hx1 Hx2) as Hx12; rewrite app_nil_r in Hx12.
  2: { left. split; [assumption|]. destruct Hr2 as [[b [=]]|(e' & [= <-] & He)]. eauto. }
  2: { destruct Hr2 as [[b [=]]|(e' & [=] & He)]. }
  right. destruct (invoke_spec _ _ _ _ _ _ _ _ _ _ H) as (inv & b & Hx3 & H1 & H3 & _ & Hr).
  exists inv, b. conjs; try assumption. eapply extends_trans; eassumption.
Qed.

(** [run_apply]: probes, then at most the apply process, which is handed
    the apply prompt built around the stripped plan output. *)
Lemma run_apply_spec repo prompt job_id rules plan_output w r w' :
  Service.run_apply E repo prompt job_id rules plan_output w = (r, w') ->
  exists probes, all_probes probes /\
    ((extends w w' probes /\ exists e, r = Raise e /\ exn_type e = RuntimeError) \/
     (exists inv b, extends w w' (probes ++ [(inv, b)]) /\
        inv_step inv = Apply /\ inv_timeout inv = None /\
        prompt_given inv =
          Some (Service.apply_template job_id repo rules
                  (Service.approved_plan plan_output) prompt) /\
        r = outcome_of b None (fun proc => proc))).
Proof.
  unfold Service.run_apply. intros H.
  apply bind_inv in H. destruct H as [(dash & w1 & Hd & H)|[(e & Hd & ->)|[Hd ->]]];
    destruct (detect_spec _ _ _ Hd) as (probes & Hx1 & Hp & _ & _ & Hr1);
    exists probes; (split; [assumption|]).
  2: { left. split; [assumption|]. destruct Hr1 as [[b [=]]|(e' & [= <-] & He)]. eauto. }
  2: { destruct Hr1 as [[b [=]]|(e' & [=] & He)]. }
  apply bind_inv in H. destruct H as [(cli & w2 & Hc & H)|[(e & Hc & ->)|[Hc ->]]];
    destruct (resolve_spec _ _ _ Hc) as (Hx2 & _ & Hr2);
    pose proof (extends_trans _ _ _ _ _ Hx1 Hx2) as Hx12; rewrite app_nil_r in Hx12.
  2: { left. split; [assumption|]. destruct Hr2 as [[b [=]]|(e' & [= <-] & He)]. eauto. }
  2: { destruct Hr2 as [[b [=]]|(e' & [=] & He)]. }
  right. destruct (invoke_raw_spec _ _ _ _ _ _ _ _ _ H) as (inv & b & Hx3 & H1 & H3 & Hg & Hr).
  exists inv, b. conjs; try assumption. eapply extends_trans; eassumption.
Qed.

End ServiceSpecs.


(** ** The summary of one [process_job] *)

Lemma writes_only_same names w w' :
  patches w' = patches w -> writes_only names w w'.
Proof. intros H path Hne. rewrite H in Hne. congruence. Qed.

Lemma writes_only_insert names w w1 w2 dir name content :
  writes_only names w w1 ->
  patches w2 = <[dir ++ [name] := content]> (patches w1) ->
  In name names -> writes_only names w w2.
Proof.
  intros H1 H2 Hin path Hne. rewrite H2 in Hne.
  destruct (decide (path = dir ++ [name])) as [->|Hp].
  - exists name. split; [apply last_snoc|assumption].
  - rewrite lookup_insert_ne in Hne by congruence. apply H1. assumption.
Qed.

Lemma writes_only_incl names names' w w' :
  writes_only names w w' -> incl names names' -> writes_only names' w w'.
Proof.
  intros H Hi path Hne. destruct (H path Hne) as (name & Hl & Hin).
  exists name. split; [assumption|]. apply Hi. assumption.
Qed.

Lemma os_replace_running n t (ok : bool) s :
  running s !! n = Some t ->
  exists s', os_replace (Running, n) (if ok then Done else Failed, n) s = Some s'.
Proof. intros H. unfold os_replace. simpl. rewrite H. eauto. Qed.

Section FinishSpec.

Variable E : env.

Lemma finish_log_spec n t ok entry w r w' :
  running (queue w) !! n = Some t ->
  (Service.finish_job (Running, n) ok ;; Service.log_event E entry) w = (r, w') ->
  r = Ret tt /\
  os_replace (Running, n) (if ok then Done else Failed, n) (queue w) = Some (queue w') /\
  log w' = log w ++ [JObj (Dict.setdefault "ts" (JFloat (time_at E (clock_reads w))) entry)] /\
  trace w' = trace w /\ patches w' = patches w /\ score_file w' = score_file w.
Proof.
  intros Hrun. destruct (os_replace_running n t ok _ Hrun) as [s' Hs].
  unfold Service.finish_job, Service.log_event, replace_file, bind, time_time, modify. simpl.
  rewrite Hs. simpl. intros [= <- <-]. simpl. conjs; auto.
Qed.

End FinishSpec.

Lemma progress_refl w names : progress w w [] names.
Proof.
  unfold progress. rewrite app_nil_r. conjs; try reflexivity.
  apply writes_only_same. reflexivity.
Qed.

Lemma progress_start w0 w1 names :
  queue w1 = queue w0 -> patches w1 = patches w0 -> log w1 = log w0 ->
  trace w1 = trace w0 -> score_file w1 = score_file w0 ->
  progress w0 w1 [] names.
Proof.
  intros. unfold progress. rewrite app_nil_r. conjs; try assumption.
  apply writes_only_same. assumption.
Qed.

Lemma progress_extends w0 w1 w2 evs evs2 names :
  progress w0 w1 evs names -> extends w1 w2 evs2 ->
  progress w0 w2 (evs ++ evs2) names.
Proof.
  intros (Hq & Hl & Hs & Ht & Hw) (Hq2 & Hp2 & Hl2 & Hs2 & _ & _ & Ht2).
  unfold progress. conjs; try congruence.
  - rewrite Ht2, Ht, app_assoc. reflexivity.
  - intros path Hne. apply Hw. congruence.
Qed.

Lemma progress_write w0 w1 evs names dir name content :
  progress w0 w1 evs names -> In name names ->
  progress w0 (with_patches (insert (dir ++ [name]) content) w1) evs names.
Proof.
  intros (Hq & Hl & Hs & Ht & Hw) Hin. unfold progress. simpl.
  conjs; try assumption.
  eapply writes_only_insert; [exact Hw|reflexivity|assumption].
Qed.

Lemma progress_names w0 w1 evs names names' :
  progress w0 w1 evs names -> incl names names' -> progress w0 w1 evs names'.
Proof.
  intros (Hq & Hl & Hs & Ht & Hw) Hi. unfold progress. conjs; try assumption.
  eapply writes_only_incl; eassumption.
Qed.

Lemma writes_only_finish names w0 w1 w' :
  writes_only names w0 w1 -> patches w' = patches w1 -> writes_only names w0 w'.
Proof. intros Hw Hp path Hne. apply Hw. congruence. Qed.

Ltac pure_inv0 H := unfold ret, raise in H.

Section ServiceSummary.

Variable E : env.

Lemma bind_ret_l {A B} (a : A) (k : A -> M B) w : bind (ret a) k w = k a w.
Proof. reflexivity. Qed.

Lemma bind_raise_l {A B} (e : exn) (k : A -> M B) w : bind (raise e) k w = (Raise e, w).
Proof. reflexivity. Qed.

Lemma bind_modify {B} (f : world -> world) (k : unit -> M B) w :
  bind (modify f) k w = k tt (f w).
Proof. reflexivity. Qed.

(** The [try] around [run_plan] in [process_job]. *)
Lemma planned_spec repo prompt job_id w res w' :
  try_except
    (let* r := Service.run_plan E repo prompt job_id in ret (inr r))
    (fun e => if exn_class_eqb (exn_type e) RuntimeError
              then ret (inl (exn_msg e)) else raise e) w = (res, w') ->
  exists probes, all_probes probes /\
    ((extends w w' probes /\ exists msg, res = Ret (inl msg)) \/
     (exists inv b, extends w w' (probes ++ [(inv, b)]) /\
        inv_step inv = Plan /\ inv_timeout inv = None /\
        match b with
        | Exits _ rc out err => res = Ret (inr ((rc, out, err), service_rules E repo))
        | Hangs => res = Blocked
        | SpawnFails e =>
            if exn_class_eqb (exn_type e) RuntimeError
            then res = Ret (inl (exn_msg e)) else res = Raise e
        end)).
Proof.
  unfold try_except. intros H.
  destruct (bind (Service.run_plan E repo prompt job_id) _ w) as [r1 w1] eqn:Hb.
  apply bind_inv in Hb.
  destruct Hb as [(a & w2 & Hp & Hb)|[(e & Hp & ->)|[Hp ->]]];
    destruct (run_plan_spec _ _ _ _ _ _ _ Hp) as (probes & Hpr & Hcase);
    exists probes; (split; [assumption|]).
  - pure_inv0 Hb. simplify_eq.
    destruct Hcase as [(_ & e & [=] & _)|(inv & b & Hx & H1 & H2 & Hr)].
    right. exists inv, b. conjs; try assumption.
    destruct b; unfold outcome_of in Hr; simplify_eq. reflexivity.
  - destruct Hcase as [(Hx & e' & [= <-] & He)|(inv & b & Hx & H1 & H2 & Hr)].
    + left. rewrite He in H. simpl in H. pure_inv0 H. simplify_eq. eauto.
    + right. exists inv, b.
      destruct b; unfold outcome_of in Hr; simplify_eq.
      match type of H with
      | context [if ?c then _ else _] => destruct c eqn:Hc
      end; pure_inv0 H; simplify_eq; rewrite ?Hc; conjs; try assumption; reflexivity.
  - simplify_eq. destruct Hcase as [(_ & e & [=] & _)|(inv & b & Hx & H1 & H2 & Hr)].
    right. exists inv, b. conjs; try assumption.
    destruct b; unfold outcome_of in Hr; simplify_eq. reflexivity.
Qed.


(** The end of every path that returns: the record is moved and one line
    is logged. *)
Lemma finish_log_progress n t ok entry w0 w1 evs names r w' :
  running (queue w0) !! n = Some t ->
  progress w0 w1 evs names ->
  (Service.finish_job (Running, n) ok ;; Service.log_event E entry) w1 = (r, w') ->
  r = Ret tt /\
  os_replace (Running, n) (if ok then Done else Failed, n) (queue w0) = Some (queue w') /\
  log w' = log w0 ++ [JObj (Dict.setdefault "ts" (JFloat (time_at E (clock_reads w1))) entry)] /\
  trace w' = trace w0 ++ evs /\ score_file w' = score_file w0 /\
  writes_only names w0 w'.
Proof.
  intros Hrun (Hq & Hl & Hs & Ht & Hw) H.
  assert (Hrun1 : running (queue w1) !! n = Some t) by (rewrite Hq; exact Hrun).
  destruct (finish_log_spec E _ _ _ _ _ _ _ Hrun1 H) as (-> & Hmv & Hlog & Htr & Hpa & Hsc).
  conjs; try congruence. eapply writes_only_finish; eassumption.
Qed.

Lemma summary_no_agent_raise n w e w' names :
  progress w w' [] names -> incl names error_artifacts ->
  service_summary n w (Raise e) w'.
Proof.
  intros (Hq & Hl & Hs & Ht & Hw) Hi. rewrite app_nil_r in Ht.
  assert (Hw' : writes_only error_artifacts w w') by (eapply writes_only_incl; eassumption).
  exists [], None, [], None. simpl. rewrite app_nil_r.
  conjs; try assumption; try apply Forall_nil_2; try discriminate; try exact I;
    try (intros _; conjs; first [reflexivity | assumption]).
  - intros _. eapply writes_only_incl; [exact Hw'|]. intros x Hx.
    unfold error_artifacts, plan_artifacts in *. simpl in *. tauto.
  - eapply writes_only_incl; [exact Hw'|]. intros x Hx.
    unfold error_artifacts, plan_artifacts, apply_artifacts in *. simpl in *. tauto.
Qed.


Ltac early_raise H :=
  unfold as_dict, Service.as_path, Service.strip_value, Service.as_component in H;
  rewrite bind_raise_l in H; simplify_eq;
  eapply summary_no_agent_raise;
  [ apply progress_start; first [reflexivity | assumption] | apply incl_refl ].

Ltac names_incl :=
  let x := fresh "x" in
  let Hx := fresh "Hx" in
  intros x Hx;
  unfold error_artifacts, plan_artifacts, apply_artifacts in *; simpl in *; tauto.

Ltac in_names :=
  unfold error_artifacts, plan_artifacts, apply_artifacts; simpl; tauto.

(** Solves one conjunct of a summary at the end of a path. *)
Ltac leaf :=
  first
    [ assumption
    | eassumption
    | reflexivity
    | solve [intros _; eexists; reflexivity]
    | discriminate
    | exact I
    | apply Forall_nil_2
    | eexists; reflexivity
    | eexists; eexists; eexists; eexists; split; reflexivity
    | solve [intros; simplify_eq; simpl; conjs; first [assumption | reflexivity]]
    | solve [intros; conjs;
             first [ reflexivity | assumption
                   | eapply writes_only_incl; [eassumption | names_incl] ]]
    | solve [eapply writes_only_incl; [eassumption | names_incl]]
    | solve [right; eexists; eexists; eexists; reflexivity]
    | solve [left; reflexivity]
    | solve [split; [reflexivity|]; left; eexists; eexists; eexists; eexists;
             split; [reflexivity | apply Z.eqb_neq; assumption]]
    | solve [split; [reflexivity|]; right; eexists;
             split; [reflexivity | apply exn_class_eqb_eq; assumption]]
    | solve [split; [reflexivity | exact I]]
    | solve [left; eexists; eexists; eexists; eexists;
             split; [reflexivity | apply Z.eqb_neq; assumption]]
    | solve [right; eexists;
             split; [reflexivity | apply exn_class_eqb_eq; assumption]]
    | solve [match goal with
             | Ht : trace ?w = _ |- trace ?w = _ =>
                 rewrite Ht, ?app_nil_r, <- ?app_assoc; reflexivity
             end] ].

Lemma process_job_summary n t w r w' :
  running (queue w) !! n = Some t ->
  Service.process_job E (Running, n) w = (r, w') ->
  service_summary n w r w'.
Proof.
  intros Hrun H. unfold Service.process_job in H.
  apply bind_inv in H. destruct H as [(raw & w0 & Hm & H)|[(e & Hm & ->)|[Hm ->]]];
    unfold Service.read_text in Hm; simpl in Hm; rewrite Hrun in Hm; simplify_eq.
  destruct raw as [job_v|s]; simpl in H.
  2: { destruct (finish_log_progress _ _ _ _ _ _ _ _ _ _ Hrun
                   (progress_refl w0 error_artifacts) H)
         as (-> & Hmv & Hlog & Htr & Hsc & Hw).
       exists [], None, [], None. rewrite app_nil_r in Htr. simpl.
       conjs; try leaf.
       exists false. eexists. conjs; try leaf. }
  destruct job_v as [ | | | | |l|job]; try (early_raise H).
  unfold as_dict in H. rewrite bind_ret_l in H.
  destruct (get_default "dir" (JStr ".") job) as [ | | | |dir| | ]; try (early_raise H).
  unfold Service.as_path in H. rewrite bind_ret_l in H.
  destruct (get_default "prompt" (JStr "") job) as [ | | | |raw_prompt| | ]; try (early_raise H).
  unfold Service.strip_value in H. rewrite bind_ret_l in H.
  set (repo := expanduser E dir) in *. set (prompt := PyStr.strip raw_prompt) in *.
  match type of H with
  | bind _ ?k _ = _ =>
      assert (Hcont : forall w1 v,
                 queue w1 = queue w0 -> patches w1 = patches w0 -> log w1 = log w0 ->
                 trace w1 = trace w0 -> score_file w1 = score_file w0 ->
                 k v w1 = (r, w') -> service_summary n w0 r w')
  end.
  2: { destruct (truthy (get_default "id" JNull job)).
       - rewrite bind_ret_l in H.
         apply (Hcont w0 (get_default "id" JNull job)); try reflexivity. exact H.
       - apply (Hcont (tick_uuid w0) (JStr (uuid_at E (uuid_reads w0)))); try reflexivity.
         exact H. }
  clear H. intros w1 job_id_v Hq1 Hp1 Hl1 Ht1 Hs1 H. simpl in H.
  destruct (py_or (get_default "repo_key" JNull job) (JStr (repo_key_of E repo)))
    as [ | | | |repo_key| | ]; try (early_raise H).
  unfold Service.as_component at 1 in H. rewrite bind_ret_l in H.
  destruct job_id_v as [ | | | |job_id| | ]; try (early_raise H).
  unfold Service.as_component at 1 in H. rewrite bind_ret_l in H.
  pose proof (progress_start w0 w1 error_artifacts Hq1 Hp1 Hl1 Ht1 Hs1) as Hpr.
  unfold Service.write_artifact in H.
  destruct (negb (is_dir E repo)).
  { rewrite bind_modify in H.
    destruct (finish_log_progress _ _ _ _ _ _ _ _ _ _ Hrun
                (progress_write _ _ _ _ [repo_key; job_id] "error.txt" _ Hpr ltac:(in_names)) H)
      as (-> & Hmv & Hlog & Htr & Hsc & Hw).
    exists [], None, [], None. rewrite app_nil_r in Htr. simpl.
    conjs; try leaf.
    exists false. eexists. conjs; try leaf. }
  destruct (negb (PyStr.nonempty prompt)).
  { rewrite bind_modify in H.
    destruct (finish_log_progress _ _ _ _ _ _ _ _ _ _ Hrun
                (progress_write _ _ _ _ [repo_key; job_id] "error.txt" _ Hpr ltac:(in_names)) H)
      as (-> & Hmv & Hlog & Htr & Hsc & Hw).
    exists [], None, [], None. rewrite app_nil_r in Htr. simpl.
    conjs; try leaf.
    exists false. eexists. conjs; try leaf. }
  apply bind_inv in H. destruct H as [(planned & w2 & Hpl & H)|[(e & Hpl & ->)|[Hpl ->]]];
    destruct (planned_spec _ _ _ _ _ _ Hpl)
      as (probes & Hprobes & [(Hx & msg & Hres)|(inv & b & Hx & Hi1 & Hi2 & Hb)]);
    pose proof (progress_extends _ _ _ _ _ _ Hpr Hx) as Hpr2; simpl in Hpr2;
    try discriminate.
  - (* the agent executable is missing *)
    injection Hres as ->. rewrite bind_modify in H.
    destruct (finish_log_progress _ _ _ _ _ _ _ _ _ _ Hrun
                (progress_write _ _ _ _ [repo_key; job_id] "stderr.txt" _ Hpr2 ltac:(in_names)) H)
      as (-> & Hmv & Hlog & Htr & Hsc & Hw).
    exists probes, None, [], None. simpl. rewrite app_nil_r.
    conjs; try leaf.
    exists false. eexists. conjs; try leaf.
  - (* the plan process was spawned and [run_plan] returned or was caught *)
    destruct b as [secs plan_rc plan_out plan_err| |e].
    + injection Hb as ->. rewrite !bind_modify in H.
      pose proof (progress_names _ _ _ _ (error_artifacts ++ plan_artifacts) Hpr2
                    ltac:(names_incl)) as Hpr3.
      pose proof (progress_write _ _ _ _ [repo_key; job_id] "plan.stdout.txt" plan_out
                    Hpr3 ltac:(in_names)) as Hpr4.
      pose proof (progress_write _ _ _ _ [repo_key; job_id] "plan.stderr.txt" plan_err
                    Hpr4 ltac:(in_names)) as Hpr5.
      destruct (plan_rc =? 0) eqn:Hrc; simpl in H.
      * (* the plan succeeded: the apply step runs *)
        apply Z.eqb_eq in Hrc. subst plan_rc.
        pose proof (progress_names _ _ _ _
                      (error_artifacts ++ plan_artifacts ++ apply_artifacts) Hpr5
                      ltac:(names_incl)) as Hpr6.
        apply bind_inv in H.
        destruct H as [(applied & w3 & Hap & H)|[(e & Hap & ->)|[Hap ->]]];
          destruct (run_apply_spec _ _ _ _ _ _ _ _ _ Hap)
            as (probes2 & Hprobes2 &
                [(Hx2 & e2 & Hres & He2)|(inv2 & b2 & Hx2 & Hj1 & Hj2 & Hj3 & Hb2)]);
          pose proof (progress_extends _ _ _ _ _ _ Hpr5 Hx2) as Hpr7;
          pose proof (progress_extends _ _ _ _ _ _ Hpr6 Hx2) as Hpr8;
          try discriminate.
        -- destruct b2 as [secs2 rc2 out2 err2| |e2]; try discriminate.
           injection Hb2 as ->. rewrite !bind_modify in H.
           destruct (finish_log_progress _ _ _ _ _ _ _ _ _ _ Hrun
                       (progress_write _ _ _ _ [repo_key; job_id] "apply.stderr.txt" err2
                          (progress_write _ _ _ _ [repo_key; job_id] "apply.stdout.txt" out2
                             Hpr8 ltac:(in_names)) ltac:(in_names)) H)
             as (-> & Hmv & Hlog & Htr & Hsc & Hw).
           exists probes, (Some (inv, Exits secs 0 plan_out plan_err)),
                  probes2, (Some (inv2, Exits secs2 rc2 out2 err2)).
           simpl. conjs; try leaf.
           ++ intros ev [= <-]. simpl. conjs; try assumption.
              exists (inv, Exits secs 0 plan_out plan_err), secs, plan_out, plan_err,
                     job_id, repo, (service_rules E repo), prompt.
              conjs; first [reflexivity | exact Hj3].
           ++ exists (rc2 =? 0). eexists. conjs; leaf.
        -- (* [run_apply] raised before spawning *)
           injection Hres as <-. simplify_eq.
           destruct Hpr7 as (Hq7 & Hl7 & Hs7 & Ht7 & Hw7).
           destruct Hpr8 as (_ & _ & _ & _ & Hw8).
           exists probes, (Some (inv, Exits secs 0 plan_out plan_err)), probes2, None.
           simpl. conjs; leaf.
        -- (* the apply process could not be spawned *)
           destruct b2 as [secs2 rc2 out2 err2| |e2]; try discriminate.
           injection Hb2 as ->.
           destruct Hpr7 as (Hq7 & Hl7 & Hs7 & Ht7 & Hw7).
           destruct Hpr8 as (_ & _ & _ & _ & Hw8).
           exists probes, (Some (inv, Exits secs 0 plan_out plan_err)),
                  probes2, (Some (inv2, SpawnFails e2)).
           simpl. conjs; try leaf.
           intros ev [= <-]. simpl. conjs; try assumption.
           exists (inv, Exits secs 0 plan_out plan_err), secs, plan_out, plan_err,
                  job_id, repo, (service_rules E repo), prompt.
           conjs; first [reflexivity | exact Hj3].
        -- (* the apply process never exits *)
           destruct b2 as [secs2 rc2 out2 err2| |e2]; try discriminate.
           destruct Hpr7 as (Hq7 & Hl7 & Hs7 & Ht7 & Hw7).
           destruct Hpr8 as (_ & _ & _ & _ & Hw8).
           exists probes, (Some (inv, Exits secs 0 plan_out plan_err)),
                  probes2, (Some (inv2, Hangs)).
           simpl. conjs; try leaf.
           intros ev [= <-]. simpl. conjs; try assumption.
           exists (inv, Exits secs 0 plan_out plan_err), secs, plan_out, plan_err,
                  job_id, repo, (service_rules E repo), prompt.
           conjs; first [reflexivity | exact Hj3].
      * (* the plan failed: the apply step is skipped *)
        destruct (finish_log_progress _ _ _ _ _ _ _ _ _ _ Hrun Hpr5 H)
          as (-> & Hmv & Hlog & Htr & Hsc & Hw).
        exists probes, (Some (inv, Exits secs plan_rc plan_out plan_err)), [], None.
        simpl. conjs; try leaf.
        exists false. eexists. conjs; leaf.
    + discriminate.
    + (* the plan process could not be spawned, with a [RuntimeError] *)
      destruct (exn_class_eqb (exn_type e) RuntimeError) eqn:He; try discriminate.
      injection Hb as ->. rewrite bind_modify in H.
      pose proof (progress_names _ _ _ _ (error_artifacts ++ plan_artifacts) Hpr2
                    ltac:(names_incl)) as Hpr3.
      destruct (finish_log_progress _ _ _ _ _ _ _ _ _ _ Hrun
                  (progress_write _ _ _ _ [repo_key; job_id] "stderr.txt" _ Hpr3
                     ltac:(in_names)) H)
        as (-> & Hmv & Hlog & Htr & Hsc & Hw).
      exists probes, (Some (inv, SpawnFails e)), [], None.
      simpl. conjs; try leaf.
      exists false. eexists. conjs; leaf.
  - (* an exception left [run_plan] *)
    destruct b as [secs plan_rc plan_out plan_err| |e']; try discriminate.
    destruct (exn_class_eqb (exn_type e') RuntimeError) eqn:He; try discriminate.
    injection Hb as <-.
    destruct Hpr2 as (Hq2 & Hl2 & Hs2 & Htr2 & Hw2).
    exists probes, (Some (inv, SpawnFails e)), [], None.
    simpl. conjs; leaf.
  - (* the plan process never exits *)
    destruct b as [secs plan_rc plan_out plan_err| |e']; try discriminate.
    + destruct Hpr2 as (Hq2 & Hl2 & Hs2 & Htr2 & Hw2).
      exists probes, (Some (inv, Hangs)), [], None.
      simpl. conjs; leaf.
    + destruct (exn_class_eqb (exn_type e') RuntimeError); discriminate.
Qed.
End ServiceSummary.

(** ** The summary of one [run_once] *)

Section ToolsSummary.

Variable E : env.

Lemma supports_spec w r w' :
  Tools._cli_supports_dash_p E w = (r, w') ->
  exists probe, extends w w' (option_events probe) /\
    (forall ev, probe = Some ev ->
       inv_step (fst ev) = Probe /\ inv_timeout (fst ev) = Some 15) /\
    exists b, r = Ret b.
Proof.
  unfold Tools._cli_supports_dash_p, try_except, bind, ret, subprocess_run.
  intros H. repeat (break_inner H; simpl in H); simplify_eq.
  all: first [ exists None; split; [solve_extends|]; split; [discriminate|]; eauto
             | eexists (Some _); split; [solve_extends|];
               split; [intros ev [= <-]; split; reflexivity|]; eauto ].
Qed.

(** A [run] of [claude_plan_apply]: one process with a 600 s timeout. *)
Lemma run_spec tag args w r w' :
  Tools.run E tag args w = (r, w') ->
  exists ev, extends w w' [ev] /\ inv_step (fst ev) = tag /\ inv_args (fst ev) = args /\
    inv_timeout (fst ev) = Some 600 /\ inv_files (fst ev) = tmpfiles w /\
    tmpfiles w' = tmpfiles w /\ tmp_reads w' = tmp_reads w /\
    match completion ev with
    | Some res => r = Ret res
    | None => exists e, r = Raise e /\ (snd ev = SpawnFails e \/ exn_type e = TimeoutExpired)
    end.
Proof.
  unfold Tools.run. intros H.
  destruct (subprocess_run_spec _ _ _ _ _ _ _ H) as (Hx & Ht & _ & _ & Hn & Hr).
  eexists (_, _). split; [exact Hx|]. simpl. conjs; try reflexivity; try assumption.
  unfold completion. simpl. rewrite Hr. unfold outcome_of.
  destruct (agent E (length (trace w)) args) as [secs rc out err| |e];
    [destruct (600 <? secs)| |]; eauto.
Qed.

Lemma extends_tmp w w' evs f :
  extends w w' evs -> extends (with_tmpfiles f (tick_tmp w)) w' evs.
Proof. unfold extends. simpl. tauto. Qed.

Lemma extends_tmp_inv w w' evs f :
  extends (with_tmpfiles f (tick_tmp w)) w' evs -> extends w w' evs.
Proof. unfold extends. simpl. tauto. Qed.

Lemma extends_tmp' w w' evs f :
  extends w w' evs -> extends (with_tmpfiles f w) w' evs.
Proof. unfold extends. simpl. tauto. Qed.

Lemma extends_two w w1 w2 a ev :
  extends w w1 a -> extends w1 w2 [ev] ->
  extends w w2 (a ++ [ev] ++ []).
Proof. intros H1 H2. simpl. eapply extends_trans; eassumption. Qed.

Lemma extends_three w w1 w2 w3 a ev1 ev2 :
  extends w w1 a -> extends w1 w2 [ev1] -> extends w2 w3 [ev2] ->
  extends w w3 (a ++ [ev1] ++ [ev2]).
Proof.
  intros H1 H2 H3. pose proof (extends_trans _ _ _ _ _ H2 H3) as H23.
  eapply extends_trans; eassumption.
Qed.

(** The two runs of [claude_plan_apply], after the probe, in either
    style: the plan process, the check of the apply text, the apply
    process. *)
Lemma two_runs_spec (w1 w2 w2r : world) (p1r : outcome (Z * string * string))
    (apply_md : jvalue) (args2 : string -> list string)
    (setup : string -> world -> world) pev r w' :
  (forall text w, queue (setup text w) = queue w /\ patches (setup text w) = patches w /\
                  log (setup text w) = log w /\ score_file (setup text w) = score_file w /\
                  clock_reads (setup text w) = clock_reads w /\
                  uuid_reads (setup text w) = uuid_reads w /\
                  trace (setup text w) = trace w) ->
  (forall text inv w, inv_args inv = args2 text -> inv_files inv = tmpfiles (setup text w) ->
                      prompt_given inv = Some text) ->
  extends w1 w2 [pev] -> extends w1 w2r [pev] ->
  inv_step (fst pev) = Plan -> inv_timeout (fst pev) = Some 600 ->
  match completion pev with
  | Some res => p1r = Ret res
  | None => exists e, p1r = Raise e /\ (snd pev = SpawnFails e \/ exn_type e = TimeoutExpired)
  end ->
  match p1r with
  | Ret p1 =>
      (let* apply_text := Tools.as_text apply_md in
       modify (setup apply_text) ;;
       let* p2 := Tools.run E Apply (args2 apply_text) in
       let '(_, out1, err1) := p1 in
       let '(rc, out2, err2) := p2 in
       ret (rc, out1 +:+ Tools.separator +:+ out2, err1 +:+ Tools.separator +:+ err2)) w2
  | Raise e => (Raise e, w2r)
  | Blocked => (Blocked, w2r)
  end = (r, w') ->
  exists apply,
    extends w1 w' ([pev] ++ option_events apply) /\
    (forall ev, apply = Some ev ->
       inv_step (fst ev) = Apply /\ inv_timeout (fst ev) = Some 600 /\
       exists text, apply_md = JStr text /\ prompt_given (fst ev) = Some text) /\
    match completion pev with
    | None =>
        apply = None /\
        exists e, r = Raise e /\ (snd pev = SpawnFails e \/ exn_type e = TimeoutExpired)
    | Some (rc1, out1, err1) =>
        match apply with
        | None =>
            (forall text, apply_md <> JStr text) /\
            exists e, r = Raise e /\ exn_type e = TypeError
        | Some aev =>
            match completion aev with
            | None =>
                exists e, r = Raise e /\
                          (snd aev = SpawnFails e \/ exn_type e = TimeoutExpired)
            | Some (rc, out2, err2) =>
                r = Ret (rc, out1 +:+ Tools.separator +:+ out2,
                         err1 +:+ Tools.separator +:+ err2)
            end
        end
    end.
Proof.
  intros Hsetup Hgiven Hx Hxr Hp1 Hp3 Hc1 H.
  destruct (completion pev) as [[[rc1 out1] err1]|] eqn:Hcomp.
  2: { destruct Hc1 as (e & -> & He). simplify_eq. exists None. simpl.
       conjs; try discriminate; eauto. }
  subst p1r. destruct apply_md as [ | | | |text| | ];
    try (unfold Tools.as_text in H; rewrite bind_raise_l in H; simplify_eq;
         exists None; simpl; conjs; try discriminate; eauto).
  unfold Tools.as_text in H. rewrite bind_ret_l, bind_modify in H.
  unfold bind at 1 in H.
  destruct (Tools.run E Apply (args2 text) (setup text w2)) as [p2r w3] eqn:Hr2.
  destruct (run_spec _ _ _ _ _ Hr2) as (aev & Hx3 & Ha1 & Ha2 & Ha3 & Ha4 & Ha5 & Ha6 & Hc2).
  exists (Some aev). simpl.
  assert (Hx3' : extends w2 w3 [aev]).
  { destruct (Hsetup text w2) as (?&?&?&?&?&?&?).
    destruct Hx3 as (?&?&?&?&?&?&?). unfold extends. conjs; congruence. }
  pose proof (extends_trans _ _ _ _ _ Hx Hx3') as Hx13.
  assert (Hfacts : inv_step (fst aev) = Apply /\ inv_timeout (fst aev) = Some 600 /\
                   exists text', JStr text = JStr text' /\ prompt_given (fst aev) = Some text').
  { conjs; try assumption. exists text. split; [reflexivity|].
    eapply Hgiven; eassumption. }
  destruct (completion aev) as [[[rc2 out2] err2]|].
  - subst p2r. pure_inv0 H. simplify_eq.
    conjs; try assumption; try reflexivity. intros ev [= <-]. exact Hfacts.
  - destruct Hc2 as (e & -> & He). simplify_eq.
    conjs; try assumption; eauto. intros ev [= <-]. exact Hfacts.
Qed.

Lemma cpa_spec repo plan_md apply_md w r w' :
  Tools.claude_plan_apply E repo plan_md apply_md w = (r, w') ->
  exists probe plan apply,
    extends w w' (option_events probe ++ option_events plan ++ option_events apply) /\
    (forall ev, probe = Some ev ->
       inv_step (fst ev) = Probe /\ inv_timeout (fst ev) = Some 15) /\
    (forall ev, plan = Some ev ->
       inv_step (fst ev) = Plan /\ inv_timeout (fst ev) = Some 600) /\
    (forall ev, apply = Some ev ->
       inv_step (fst ev) = Apply /\ inv_timeout (fst ev) = Some 600 /\
       exists text, apply_md = JStr text /\ prompt_given (fst ev) = Some text) /\
    match plan with
    | None => probe = None /\ apply = None /\ r = Raise Tools.cli_missing_util /\
              Tools.claude_available E = false
    | Some pev =>
        Tools.claude_available E = true /\
        match completion pev with
        | None =>
            apply = None /\
            exists e, r = Raise e /\ (snd pev = SpawnFails e \/ exn_type e = TimeoutExpired)
        | Some (rc1, out1, err1) =>
            match apply with
            | None =>
                (forall text, apply_md <> JStr text) /\
                exists e, r = Raise e /\ exn_type e = TypeError
            | Some aev =>
                match completion aev with
                | None =>
                    exists e, r = Raise e /\
                              (snd aev = SpawnFails e \/ exn_type e = TimeoutExpired)
                | Some (rc, out2, err2) =>
                    r = Ret (rc, out1 +:+ Tools.separator +:+ out2,
                             err1 +:+ Tools.separator +:+ err2)
                end
            end
        end
    end.
Proof.
  unfold Tools.claude_plan_apply. intros H.
  destruct (Tools.claude_available E) eqn:Hav; simpl in H.
  2: { pure_inv0 H. simplify_eq. exists None, None, None. simpl.
       conjs; try discriminate; try reflexivity. apply extends_refl. }
  apply bind_inv in H. destruct H as [(dash & w1 & Hd & H)|[(e & Hd & ->)|[Hd ->]]];
    destruct (supports_spec _ _ _ Hd) as (probe & Hx1 & Hprobe & b & Hb); try discriminate.
  injection Hb as ->. destruct b.
  - (* two [claude -p] runs *)
    unfold bind at 1 in H.
    destruct (Tools.run E Plan ["claude"; "-p"; plan_md] w1) as [p1r w2] eqn:Hr1.
    destruct (run_spec _ _ _ _ _ Hr1) as (pev & Hx2 & Hp1 & Hp2 & Hp3 & Hp4 & Hp5 & Hp6 & Hc1).
    destruct (two_runs_spec w1 w2 w2 p1r apply_md (fun text => ["claude"; "-p"; text])
                (fun _ w => w) pev r w') as (apply & Hx & Happly & Hres); try assumption.
    + intros. conjs; reflexivity.
    + intros text inv w0 Hargs _. unfold prompt_given. rewrite Hargs. reflexivity.
    + exists probe, (Some pev), apply. simpl.
      conjs; try assumption; try reflexivity.
      * eapply extends_trans; eassumption.
      * intros ev [= <-]. split; assumption.
  - (* [claude code plan] and [claude code apply] on temporary files *)
    rewrite (bind_ret_l (tmp_at E (tmp_reads w1)) _ (with_tmpfiles _ (tick_tmp w1))
             : bind (write_temp E plan_md) _ w1 = _) in H.
    unfold bind at 1 in H.
    match type of H with
    | context [Tools.run E Plan ?args ?w0] =>
        destruct (Tools.run E Plan args w0) as [p1r w2] eqn:Hr1
    end.
    destruct (run_spec _ _ _ _ _ Hr1) as (pev & Hx2 & Hp1 & Hp2 & Hp3 & Hp4 & Hp5 & Hp6 & Hc1).
    apply extends_tmp_inv in Hx2.
    set (f2 := tmp_at E (tmp_reads w2)).
    destruct (two_runs_spec w1 (with_tmpfiles (insert f2 "") (tick_tmp w2)) w2 p1r apply_md
                (fun _ => ["claude"; "code"; "apply"; "--repo"; repo; "--plan"; f2])
                (fun text => with_tmpfiles (insert f2 text)) pev r w')
      as (apply & Hx & Happly & Hres); try assumption.
    + intros. conjs; reflexivity.
    + intros text inv w0 Hargs Hfiles. unfold prompt_given. rewrite Hargs, Hfiles.
      simpl. apply lookup_insert_eq.
    + exists probe, (Some pev), apply. simpl.
      conjs; try assumption; try reflexivity.
      * eapply extends_trans; eassumption.
      * intros ev [= <-]. split; assumption.
Qed.

Lemma attempt_spec task w res w' :
  Tools.attempt E task w = (res, w') ->
  exists probe plan apply caught ok out err,
    res = Ret (ok, out, err) /\
    attempt_summary E task w w' probe plan apply caught ok out err.
Proof.
  unfold Tools.attempt, Tools.attempt_body, try_except. intros H.
  match type of H with
  | context [match ?m w with _ => _ end] => destruct (m w) as [r1 w1] eqn:Hb
  end.
  (* a path that spawns nothing *)
  assert (Hquiet : forall caught ok err, (r1, w1) = (Raise caught, w) \/ (r1, w1) = (Ret (ok, "", err), w) ->
            (forall kv repo rules apply_md,
               task = JObj kv -> get_default "repo" (JStr ".") kv = JStr repo ->
               tools_rules E (resolve E repo) = inr rules ->
               Dict.get "prompt" kv = Some apply_md -> which_claude E <> None -> False) ->
            ok = false ->
            exists probe plan apply caught ok out err,
              res = Ret (ok, out, err) /\
              attempt_summary E task w w' probe plan apply caught ok out err).
  { intros e ok err Hr Hno ->.
    assert (Hsum : forall c o er, w' = w ->
              (forall e', c = Some e' ->
                 false = false /\ o = "" /\
                 er = type_name (exn_type e') +:+ ": " +:+ exn_msg e') ->
              attempt_summary E task w w' None None None c false o er).
    { intros c o er -> Hc. unfold attempt_summary. simpl.
      conjs; try discriminate; try apply extends_refl; try assumption.
      - intros kv repo rules md H1 H2 H3 H4 H5. exfalso. eauto.
      - intros ev [[=]|[=]].
      - split; [discriminate|]. intros (ev & [=] & _). }
    destruct Hr as [Hr|Hr]; injection Hr as -> ->; pure_inv0 H; simplify_eq.
    - exists None, None, None, (Some e), false, "". eexists. split; [reflexivity|].
      apply Hsum; [reflexivity|]. intros e' [= <-]. auto.
    - exists None, None, None, None, false, "", err. split; [reflexivity|].
      apply Hsum; [reflexivity|]. discriminate. }
  destruct task as [ | | | | | |kv];
    try (unfold as_dict in Hb; rewrite bind_raise_l in Hb;
         eapply (Hquiet _ false ""); [left; symmetry; exact Hb | discriminate | reflexivity]).
  unfold as_dict in Hb. rewrite bind_ret_l in Hb.
  destruct (get_default "repo" (JStr ".") kv) as [ | | | |repo| | ] eqn:Hrepo;
    try (unfold Tools.resolved_path in Hb; rewrite bind_raise_l in Hb;
         eapply (Hquiet _ false "");
         [left; symmetry; exact Hb | intros ? ? ? ? [= <-]; congruence | reflexivity]).
  unfold Tools.resolved_path in Hb. rewrite bind_ret_l in Hb.
  destruct (tools_rules E (resolve E repo)) as [e|rules] eqn:Hrules;
    [unfold Tools.lift_result in Hb; rewrite bind_raise_l in Hb;
     eapply (Hquiet _ false "");
     [left; symmetry; exact Hb
     | intros ? ? ? ? [= <-] Hr'; rewrite Hrepo in Hr'; injection Hr' as <-; congruence
     | reflexivity]|].
  unfold Tools.lift_result in Hb. rewrite bind_ret_l in Hb.
  unfold Tools.subscript in Hb.
  destruct (Dict.get "prompt" kv) as [apply_md|] eqn:Hprompt;
    [|rewrite bind_raise_l in Hb;
      eapply (Hquiet _ false "");
      [left; symmetry; exact Hb | intros ? ? ? ? [= <-]; congruence | reflexivity]].
  rewrite bind_ret_l in Hb.
  destruct (Tools.claude_available E) eqn:Hav; simpl in Hb.
  2: { eapply (Hquiet (Exn OSError "") false);
         [right; symmetry; exact Hb | | reflexivity].
       intros ? ? ? ? _ _ _ _ Hw. unfold Tools.claude_available in Hav.
       destruct (which_claude E); congruence. }
  unfold bind at 1 in Hb.
  match type of Hb with
  | context [Tools.claude_plan_apply E ?a ?b ?c w] =>
      destruct (Tools.claude_plan_apply E a b c w) as [r2 w2] eqn:Hcpa
  end.
  destruct (cpa_spec _ _ _ _ _ _ Hcpa) as (probe & plan & apply & Hx & Hprobe & Hplan & Happly & Hres).
  clear Hquiet.
  destruct plan as [pev|]; [|destruct Hres as (_ & _ & _ & Hf); congruence].
  destruct Hres as [_ Hres].
  assert (Happly' : forall ev, apply = Some ev ->
            is_Some (completion pev) ->
            inv_step (fst ev) = Apply /\ inv_timeout (fst ev) = Some 600 /\
            (exists pev', Some pev = Some pev' /\ is_Some (completion pev')) /\
            exists kv' prompt, JObj kv = JObj kv' /\
                               Dict.get "prompt" kv' = Some (JStr prompt) /\
                               prompt_given (fst ev) = Some prompt).
  { intros ev Hev Hc. destruct (Happly ev Hev) as (Ha1 & Ha2 & text & -> & Hg).
    conjs; try assumption; eauto 10. }
  (* the result when the [try] block raised [e] *)
  assert (Hcaught : forall e, r2 = Raise e ->
            res = Ret (false, "", type_name (exn_type e) +:+ ": " +:+ exn_msg e) /\ w' = w2).
  { intros e ->. simplify_eq. pure_inv0 H. simplify_eq. split; reflexivity. }
  assert (Hspawned : forall kv' repo' rules' md,
            JObj kv = JObj kv' -> get_default "repo" (JStr ".") kv' = JStr repo' ->
            tools_rules E (resolve E repo') = inr rules' ->
            Dict.get "prompt" kv' = Some md -> which_claude E <> None ->
            is_Some (Some pev)) by (intros; eauto).
  destruct (completion pev) as [[[rc1 out1] err1]|] eqn:Hc1.
  - destruct apply as [aev|].
    + destruct (completion aev) as [[[rc out2] err2]|] eqn:Hc2.
      * subst r2. pure_inv0 Hb. simplify_eq.
        exists probe, (Some pev), (Some aev), None, (rc =? 0). eexists _, _.
        split; [reflexivity|]. unfold attempt_summary.
        conjs; try assumption; try discriminate; eauto.
        -- intros ev [[= <-]|[= <-]]; congruence.
        -- unfold exit_status. split.
           ++ intros Hok. exists aev. rewrite Hc2. apply Z.eqb_eq in Hok. subst. auto.
           ++ intros (ev & [= <-] & Hs). rewrite Hc2 in Hs. injection Hs as ->. reflexivity.
      * destruct Hres as (e & -> & He). destruct (Hcaught e eq_refl) as [-> ->].
        exists probe, (Some pev), (Some aev), (Some e), false. eexists _, _.
        split; [reflexivity|]. unfold attempt_summary.
        conjs; try assumption; eauto.
        -- intros ev [[= <-]|[= <-]]; [congruence|]. eauto.
        -- unfold exit_status. split; [discriminate|].
           intros (ev & [= <-] & Hs). rewrite Hc2 in Hs. discriminate.
        -- intros e' [= <-]. auto.
    + destruct Hres as (Hnot & e & -> & He). destruct (Hcaught e eq_refl) as [-> ->].
      exists probe, (Some pev), None, (Some e), false. eexists _, _.
      split; [reflexivity|]. unfold attempt_summary.
      conjs; try assumption; try discriminate.
      * intros pev' kv' prompt _ _ [= <-] Hp. rewrite Hprompt in Hp.
        injection Hp as ->. exfalso. eapply Hnot. reflexivity.
      * intros ev [[= <-]|[=]]; congruence.
      * split; [discriminate|]. intros (ev & [=] & _).
      * intros e' [= <-]. auto.
  - destruct Hres as (-> & e & -> & He). destruct (Hcaught e eq_refl) as [-> ->].
    exists probe, (Some pev), None, (Some e), false. eexists _, _.
    split; [reflexivity|]. unfold attempt_summary.
    conjs; try assumption; try discriminate.
    + intros pev' kv' prompt [= <-] [x Hx']. congruence.
    + intros ev [[= <-]|[=]]. eauto.
    + split; [discriminate|]. intros (ev & [=] & _).
    + intros e' [= <-]. auto.
Qed.

Lemma claimed_in_running w n w1 :
  Tools.claim w = (Ret (Some (Running, n)), w1) \/
  Service.claim_job w = (Ret (Some (Running, n)), w1) ->
  exists t, inbox (queue w) !! n = Some t /\ running (queue w1) !! n = Some t /\
            os_replace (Inbox, n) (Running, n) (queue w) = Some (queue w1) /\
            patches w1 = patches w /\ log w1 = log w /\ trace w1 = trace w /\
            score_file w1 = score_file w.
Proof.
  intros Hc.
  assert (Hl : claim_loop (sorted_glob_json (inbox (queue w))) (queue w)
               = (Some (Running, n), queue w1) /\
               patches w1 = patches w /\ log w1 = log w /\ trace w1 = trace w /\
               score_file w1 = score_file w).
  { destruct Hc as [Hc|Hc]; unfold Tools.claim, Service.claim_job in Hc;
      destruct (claim_loop (sorted_glob_json (inbox (queue w))) (queue w)) as [h s'];
      simpl in Hc; simplify_eq; simpl; auto. }
  destruct Hl as (Hl & Hp & Hlg & Ht & Hs).
  pose proof (claim_loop_spec (sorted_glob_json (inbox (queue w))) (queue w)) as Hspec.
  rewrite Hl in Hspec. destruct Hspec as (n' & [= <-] & _ & Hr).
  pose proof Hr as Hr'. unfold os_replace in Hr'. simpl in Hr'.
  destruct (inbox (queue w) !! n) as [t|] eqn:Hin; [|discriminate].
  exists t. conjs; try assumption; try reflexivity.
  injection Hr' as <-. simpl. apply lookup_insert_eq.
Qed.

Lemma run_once_summary n w w1 r w' :
  Tools.claim w = (Ret (Some (Running, n)), w1) ->
  Tools.run_once E w = (r, w') ->
  exists t, running (queue w1) !! n = Some t /\ tools_summary E n t w1 r w'.
Proof.
  intros Hc H.
  destruct (claimed_in_running _ _ _ (or_introl Hc)) as (t & _ & Hrun & _).
  exists t. split; [assumption|].
  unfold Tools.run_once in H. unfold bind at 1 in H. rewrite Hc in H.
  unfold Tools.read_record, bind at 1 in H. simpl in H. rewrite Hrun in H.
  destruct t as [task|s]; simpl in H.
  2: { rewrite bind_raise_l in H. simplify_eq. simpl.
       conjs; try reflexivity. intros; discriminate. }
  rewrite bind_ret_l in H. unfold time_time, bind at 1 in H.
  unfold bind at 1 in H.
  destruct (Tools.attempt E task (tick_clock w1)) as [res wa] eqn:Hat.
  destruct (attempt_spec _ _ _ _ Hat)
    as (probe & plan & apply & caught & ok & out & err & -> & Hsum).
  assert (Hxa : queue wa = queue w1 /\ patches wa = patches w1 /\ log wa = log w1 /\
                score_file wa = score_file w1).
  { destruct Hsum as ((Hq & Hp & Hl & Hs & _) & _). simpl in *. auto. }
  destruct Hxa as (Hqa & Hpa & Hla & Hsa).
  unfold Tools.subscript at 1 in H.
  destruct task as [ | | | | | |kv];
    try (rewrite bind_raise_l in H; simplify_eq; simpl;
         conjs; try assumption; intros; discriminate).
  destruct (Dict.get "id" kv) as [id_v|] eqn:Hid.
  2: { rewrite bind_raise_l in H. simplify_eq. simpl.
       conjs; try assumption. intros kv' id [= <-]. congruence. }
  rewrite bind_ret_l in H. unfold Tools.patch_dir in H.
  destruct id_v as [ | | | |id| | ];
    try (rewrite bind_raise_l in H; simplify_eq; simpl;
         conjs; try assumption; intros kv' id' [= <-]; congruence).
  rewrite bind_ret_l in H. unfold Tools.write_text in H. rewrite !bind_modify in H.
  unfold Tools.finish, bind, replace_file in H. simpl in H.
  assert (Hrun' : running (queue wa) !! n = Some (Serialized (JObj kv)))
    by (rewrite Hqa; exact Hrun).
  destruct (os_replace_running n _ ok _ Hrun') as [s' Hs']. rewrite Hs' in H.
  simpl in H. unfold Tools.subscript in H. rewrite Hid in H.
  unfold ret, Tools.logj, time_time, modify in H. simpl in H. simplify_eq. simpl.
  do 12 eexists. conjs; try reflexivity; try eassumption.
  - simpl. rewrite <- Hqa. exact Hs'.
  - simpl. rewrite Hla. reflexivity.
  - simpl. rewrite Hpa. reflexivity.
Qed.
End ToolsSummary.
(** * The claims *)

Section Exclusivity.

Lemma exclusive_empty : exclusive empty_store.
Proof. intros n. rewrite residency_bits. unfold holds. simpl.
       rewrite !lookup_empty. simpl. lia. Qed.

Lemma holds_write_file d n t s d' n' :
  holds (write_file (d, n) t s) d' n' =
    if decide (d' = d /\ n' = n) then true else holds s d' n'.
Proof.
  unfold write_file, holds. simpl. rewrite sget_sset.
  destruct (decide (d' = d /\ n' = n)) as [[-> ->]|Hn].
  - rewrite decide_True by reflexivity. rewrite lookup_insert_eq. reflexivity.
  - destruct (decide (d' = d)) as [->|Hd]; [|reflexivity].
    rewrite lookup_insert_ne; [reflexivity|]. intros ->. tauto.
Qed.

(** A record written under a name that is nowhere in the store. *)
Lemma exclusive_write_fresh d n t s :
  exclusive s -> residency s n = [] -> exclusive (write_file (d, n) t s).
Proof.
  intros Hex Hfresh. apply exclusive_intro. intros n' a b Ha Hb.
  rewrite holds_write_file in Ha, Hb.
  assert (Hnone : forall d', holds s d' n = false).
  { intros d'. rewrite residency_bits in Hfresh.
    destruct d'; repeat match type of Hfresh with
                        | context [if ?c then _ else _] => destruct c eqn:?
                        end; simpl in Hfresh; congruence. }
  destruct (decide (n' = n)) as [->|Hn].
  - destruct (decide (a = d /\ n = n)) as [[-> _]|Hna];
      [|rewrite Hnone in Ha; discriminate].
    destruct (decide (b = d /\ n = n)) as [[-> _]|Hnb];
      [reflexivity|rewrite Hnone in Hb; discriminate].
  - rewrite decide_False in Ha by tauto. rewrite decide_False in Hb by tauto.
    eapply exclusive_holds; eassumption.
Qed.

Lemma residency_empty n : residency empty_store n = [].
Proof. rewrite residency_bits. unfold holds. simpl.
       rewrite !lookup_empty. reflexivity. Qed.

End Exclusivity.

Lemma legal_perform E o : handle_claimed o -> legal (actor_of o) (perform E o).
Proof.
  destruct o as [ | [d n] ok | [d n] | turns | | [d n] ok | turns | listing | s | cycles];
    simpl; intros Hh; subst; unfold discard.
  - apply legal_seq; [apply legal_claim_job|]. intros. apply legal_neutral, neutral_ret.
  - apply legal_finish_job.
  - apply legal_process_job.
  - apply legal_Worker_run.
  - apply legal_seq; [apply legal_claim|]. intros. apply legal_neutral, neutral_ret.
  - apply legal_seq; [apply legal_finish|]. intros. apply legal_neutral, neutral_ret.
  - apply legal_worker_main.
  - intros w. simpl. apply claim_loop_legal.
  - apply legal_seq; [apply legal_drain_cycle|]. intros. apply legal_neutral, neutral_ret.
  - apply legal_seq; [apply legal_judge_main|]. intros. apply legal_neutral, neutral_ret.
Qed.

Lemma claim_moves_inbox_to_running s h s' :
  exclusive s ->
  claim_loop (sorted_glob_json (inbox s)) s = (Some h, s') ->
  fst h = Running /\ residency s (snd h) = [Inbox] /\ residency s' (snd h) = [Running] /\
  forall n, n <> snd h -> residency s' n = residency s n.
Proof.
  intros Hex Hc. pose proof (claim_loop_spec (sorted_glob_json (inbox s)) s) as H.
  rewrite Hc in H. destruct H as (n & -> & _ & Hr). simpl.
  destruct (rename_moves _ _ _ _ _ Hr ltac:(discriminate) Hex) as (_ & Hb & Ha & Ho).
  auto.
Qed.

Lemma finish_moves_running_to_terminal s n (ok : bool) :
  exclusive s -> residency s n = [Running] ->
  exists s', os_replace (Running, n) (if ok then Done else Failed, n) s = Some s' /\
             residency s' n = [if ok then Done else Failed].
Proof.
  intros Hex Hres.
  assert (Hh : holds s Running n = true).
  { rewrite residency_bits in Hres.
    destruct (holds s Running n); [reflexivity|].
    destruct (holds s Inbox n), (holds s Done n), (holds s Failed n); discriminate. }
  unfold holds in Hh.
  destruct (os_replace (Running, n) (if ok then Done else Failed, n) s) as [s'|] eqn:Hr.
  - exists s'. split; [reflexivity|].
    assert (Hne : Running <> (if ok then Done else Failed)) by (destruct ok; discriminate).
    destruct (rename_moves _ _ _ _ _ Hr Hne Hex) as (_ & _ & Ha & _). exact Ha.
  - unfold os_replace in Hr. simpl in *.
    destruct (running s !! n); discriminate.
Qed.

(** C1. State exclusivity and legal transitions. From a store in which
    no name is in two state directories, every operation of the service,
    of the file-queue tools and of the drain, given a handle that a
    claim returned, leaves a store with the same property, and moves
    each record only along inbox -> running -> done / failed when the
    actor is a worker, and only out of done / failed by deletion when
    the actor is the drain: a record that is in exactly one directory
    stays in exactly one (or is deleted by the drain), none comes back
    to the inbox, none leaves a terminal directory under a worker, and
    none appears from nowhere. A claim that returns a handle has moved
    that record from inbox to running; a finish on a running record
    moves it to done on success and to failed otherwise. *)
Theorem job_store_state_machine (E : env) (w : world) (o : operation) :
  exclusive (queue w) -> handle_claimed o ->
  let before := residency (queue w) in
  let after := residency (queue (snd (perform E o w))) in
  exclusive (queue (snd (perform E o w))) /\
  (forall n, lifecycle (actor_of o) (before n) (after n)) /\
  (forall n d, before n = [d] ->
     match actor_of o with
     | Worker => exists d', after n = [d'] /\
                            (d' = Inbox -> d = Inbox) /\
                            (d = Done \/ d = Failed -> d' = d)
     | Judge => after n = [d] \/ ((d = Done \/ d = Failed) /\ after n = [])
     end) /\
  (forall n, before n = [] -> after n = []) /\
  (forall h w',
     Service.claim_job w = (Ret (Some h), w') \/ Tools.claim w = (Ret (Some h), w') ->
     fst h = Running /\ before (snd h) = [Inbox] /\
     residency (queue w') (snd h) = [Running] /\
     forall n, n <> snd h -> residency (queue w') n = before n) /\
  (forall n ok, before n = [Running] ->
     residency (queue (snd (Service.finish_job (Running, n) ok w))) n
       = [if ok then Done else Failed] /\
     residency (queue (snd (Tools.finish (Running, n) ok w))) n
       = [if ok then Done else Failed]).
Proof.
  intros Hex Hh before after.
  destruct (fs_steps_sound _ _ _ Hex (legal_perform E o Hh w)) as [Hex' Hlife].
  split; [exact Hex'|]. split; [exact Hlife|]. split; [|split; [|split]].
  - intros n d Hb. specialize (Hlife n). fold before after in Hlife.
    rewrite Hb in Hlife. destruct (actor_of o).
    + destruct (lifecycle_worker _ _ Hlife) as (Hi & Hd & Hf & _ & H1).
      destruct (H1 d eq_refl) as [d' Hd']. exists d'. split; [exact Hd'|]. split.
      * intros ->. rewrite Hd' in Hi. specialize (Hi (or_introl eq_refl)). congruence.
      * intros [->| ->]; [specialize (Hd eq_refl)|specialize (Hf eq_refl)]; congruence.
    + destruct (lifecycle_judge _ _ Hlife) as [->|[[Hd|Hd] ->]]; [left; reflexivity| |];
        right; split; try reflexivity; injection Hd as ->; auto.
  - intros n Hb. specialize (Hlife n). fold before after in Hlife. rewrite Hb in Hlife.
    destruct (actor_of o).
    + apply (lifecycle_worker _ _ Hlife). reflexivity.
    + destruct (lifecycle_judge _ _ Hlife) as [->|[_ ->]]; reflexivity.
  - intros h w' Hc.
    assert (Hloop : claim_loop (sorted_glob_json (inbox (queue w))) (queue w)
                    = (Some h, queue w')).
    { destruct Hc as [Hc|Hc]; unfold Service.claim_job, Tools.claim in Hc;
        injection Hc as Hf <-; simpl;
        destruct (claim_loop (sorted_glob_json (inbox (queue w))) (queue w));
        simpl in *; subst; reflexivity. }
    apply (claim_moves_inbox_to_running _ _ _ Hex Hloop).
  - intros n ok Hb.
    destruct (finish_moves_running_to_terminal _ n ok Hex Hb) as (s' & Hr & Hres).
    unfold Service.finish_job, Tools.finish, bind, replace_file. simpl.
    rewrite Hr. simpl. auto.
Qed.

Lemma job_store_state_machine_witness :
  let w := Scenario.one_job Scenario.job1 in
  let w' := snd (perform Scenario.env1 (ServiceWorker 1) w) in
  exclusive (queue w') /\
  lifecycle Worker (residency (queue w) "j1.json") (residency (queue w') "j1.json").
Proof.
  intros w w'.
  assert (Hex : exclusive (queue w)).
  { apply exclusive_write_fresh; [apply exclusive_empty | apply residency_empty]. }
  pose proof (job_store_state_machine Scenario.env1 w (ServiceWorker 1) Hex I) as H.
  split; [apply H | apply (proj1 (proj2 H))].
Defined.

(** ** Plan and apply *)

Lemma new_events_app w w' evs :
  trace w' = trace w ++ evs -> new_events w w' = evs.
Proof. intros H. unfold new_events. rewrite H. apply drop_app_length. Qed.


Lemma is_step_of ev tag : inv_step (fst ev) = tag -> is_step tag ev = true.
Proof. unfold is_step. intros ->. destruct tag; reflexivity. Qed.



(** The events of a summary, one kind at a time. *)
Lemma summary_events_cases (probes probes2 : list event) plan apply ev :
  In ev (probes ++ option_events plan ++ probes2 ++ option_events apply) ->
  In ev probes \/ plan = Some ev \/ In ev probes2 \/ apply = Some ev.
Proof.
  rewrite !in_app_iff. intros [H|[H|[H|H]]]; auto.
  - destruct plan; simpl in H; intuition congruence.
  - destruct apply; simpl in H; intuition congruence.
Qed.


(** The processes of a [run_once] that returned, and where it left the
    record. *)
Lemma run_once_returned E n w w1 w' :
  Tools.claim w = (Ret (Some (Running, n)), w1) ->
  Tools.run_once E w = (Ret tt, w') ->
  exists kv id probe plan apply caught (ok : bool) out err wa t0 t1,
    inbox (queue w) !! n = Some (Serialized (JObj kv)) /\
    running (queue w1) !! n = Some (Serialized (JObj kv)) /\
    Dict.get "id" kv = Some (JStr id) /\
    Tools.attempt E (JObj kv) (tick_clock w1) = (Ret (ok, out, err), wa) /\
    attempt_summary E (JObj kv) (tick_clock w1) wa probe plan apply caught ok out err /\
    new_events w w' = option_events probe ++ option_events plan ++ option_events apply /\
    os_replace (Running, n) (if ok then Done else Failed, n) (queue w1) = Some (queue w') /\
    log w' = log w ++ [JObj [("id", JStr id); ("ok", JBool ok);
                             ("latency_s", JFloat (t1 - t0))]] /\
    patches w' = <[[id; "stderr.txt"] := err]> (<[[id; "stdout.txt"] := out]> (patches w)).
Proof.
  intros Hc Hr.
  destruct (claimed_in_running _ _ _ (or_introl Hc))
    as (t & Hin & Hrun & _ & Hp1 & Hl1 & Ht1 & _).
  destruct (run_once_summary E n w w1 _ w' Hc Hr) as (t' & Hrun' & Hsum).
  assert (t' = t) by congruence. subst t'. simpl in Hsum.
  destruct Hsum as (kv & id & probe & plan & apply & caught & ok & out & err & wa & t0 & t1
                    & -> & Hid & Hat & Hs & Htr & _ & Hmv & Hlog & Hpa).
  exists kv, id, probe, plan, apply, caught, ok, out, err, wa, t0, t1.
  conjs; try assumption; try congruence.
  apply new_events_app. destruct Hs as ((_ & _ & _ & _ & _ & _ & Hx) & _).
  simpl in Hx. congruence.
Qed.











(** ** Exceptions at the loop boundary *)

Lemma starts_with_refl p : PyStr.starts_with p p = true.
Proof. induction p as [|c p IH]; simpl; [reflexivity|]. rewrite Ascii.eqb_refl. exact IH. Qed.


Lemma contains_here p s : PyStr.starts_with p s = true -> PyStr.contains p s = true.
Proof. intros H. destruct s; simpl in *; rewrite H; reflexivity. Qed.

Lemma contains_after pre p s :
  PyStr.contains p s = true -> PyStr.contains p (pre +:+ s) = true.
Proof.
  intros H. induction pre as [|c pre IH]; simpl; [exact H|].
  rewrite IH. apply orb_true_r.
Qed.









(** ** Validation *)






(** ** Timeouts *)

(** In the service every plan and apply process is run without a
    timeout. *)
Lemma service_agent_calls_unbounded E n t w r w' ev :
  running (queue w) !! n = Some t ->
  Service.process_job E (Running, n) w = (r, w') ->
  In ev (new_events w w') -> is_step Probe ev = false ->
  inv_timeout (fst ev) = None.
Proof.
  intros Hrun Hp Hin Hstep.
  destruct (process_job_summary E n t w r w' Hrun Hp)
    as (probes & plan & probes2 & apply & Htr & Hpr & Hpr2 & _ & Hplan & Happly & _).
  rewrite (new_events_app _ _ _ Htr) in Hin.
  unfold all_probes in *. rewrite Forall_forall in Hpr, Hpr2.
  destruct (summary_events_cases _ _ _ _ _ Hin) as [H|[H|[H|H]]].
  - apply list_elem_of_In, Hpr in H. rewrite (is_step_of _ _ H) in Hstep. discriminate.
  - apply (Hplan _ H).
  - apply list_elem_of_In, Hpr2 in H. rewrite (is_step_of _ _ H) in Hstep. discriminate.
  - apply (Happly _ H).
Qed.

(** C6 fails on the service. With an agent whose plan process never
    exits, the plan process is spawned by [_run_subprocess] with no
    timeout, the turn of [Worker.run] never returns, and the job stays
    in [running]; the same agent under the file-queue worker, which
    passes [timeout=600], costs that job only: [run_once] returns and
    the task is in [failed]. *)
Theorem service_plan_call_has_no_timeout :
  let E := Scenario.base_env Scenario.agent_plan_hangs in
  let w := Scenario.one_job Scenario.job1 in
  let w' := snd (Service.Worker_run E 1 w) in
  fst (Service.Worker_run E 1 w) = Blocked /\
  (exists ev, last (trace w') = Some ev /\ is_step Plan ev = true /\
              snd ev = Hangs /\ inv_timeout (fst ev) = None) /\
  residency (queue w') "j1.json" = [Running] /\
  let v := Scenario.one_task "add a README" "/repo" in
  fst (Tools.run_once E v) = Ret tt /\
  (exists ev, last (trace (snd (Tools.run_once E v))) = Some ev /\
              is_step Plan ev = true /\ snd ev = Hangs /\
              inv_timeout (fst ev) = Some 600) /\
  residency (queue (snd (Tools.run_once E v))) "u0.json" = [Failed].
Proof.
  intros E w w'. split; [vm_compute; reflexivity|]. split.
  { eexists. split; [vm_compute; reflexivity|]. repeat split. }
  split; [vm_compute; reflexivity|].
  intros v. split; [vm_compute; reflexivity|]. split.
  { eexists. split; [vm_compute; reflexivity|]. repeat split. }
  vm_compute. reflexivity.
Qed.

(** ** The apply text *)







(** ** The log format *)

Section Appends.

Variable P : jvalue -> Prop.

Lemma appends_quiet {A} (m : M A) :
  (forall w, log (snd (m w)) = log w) -> appends P m.
Proof. intros H w. exists []. rewrite H, app_nil_r. split; [reflexivity|constructor]. Qed.

Lemma appends_bind {A B} (m : M A) (k : A -> M B) :
  appends P m -> (forall a, appends P (k a)) -> appends P (bind m k).
Proof.
  intros Hm Hk w. unfold bind. destruct (Hm w) as (es & He & Hf).
  destruct (m w) as [[a|e|] w1]; simpl in *; try (exists es; split; assumption).
  destruct (Hk a w1) as (es' & He' & Hf').
  exists (es ++ es'). split; [rewrite He', He, app_assoc; reflexivity|].
  apply Forall_app; split; assumption.
Qed.

Lemma appends_try_except {A} (m : M A) (h : exn -> M A) :
  appends P m -> (forall e, appends P (h e)) -> appends P (try_except m h).
Proof.
  intros Hm Hh w. unfold try_except. destruct (Hm w) as (es & He & Hf).
  destruct (m w) as [[a|e|] w1]; simpl in *; try (exists es; split; assumption).
  destruct (Hh e w1) as (es' & He' & Hf').
  exists (es ++ es'). split; [rewrite He', He, app_assoc; reflexivity|].
  apply Forall_app; split; assumption.
Qed.

Lemma appends_try_finally {A} (m : M A) (c : world -> world) :
  appends P m -> (forall w, log (c w) = log w) -> appends P (try_finally m c).
Proof.
  intros Hm Hc w. unfold try_finally. destruct (Hm w) as (es & He & Hf).
  destruct (m w) as [[a|e|] w1]; simpl in *; rewrite ?Hc; exists es; split; assumption.
Qed.

Lemma appends_subprocess_run E tag args t : appends P (subprocess_run E tag args t).
Proof.
  apply appends_quiet. intros w. unfold subprocess_run.
  destruct (agent E (length (trace w)) args) as [secs rc out err| |e];
    [destruct t as [t|]; [destruct (t <? secs)|] | destruct t | ]; reflexivity.
Qed.

Lemma appends_replace_file src dst : appends P (replace_file src dst).
Proof.
  apply appends_quiet. intros w. unfold replace_file.
  destruct (os_replace src dst (queue w)); reflexivity.
Qed.

End Appends.

Ltac quiet_step :=
  first
    [ apply appends_subprocess_run | apply appends_replace_file
    | apply appends_bind; [|intros]
    | apply appends_try_except; [|intros]
    | apply appends_try_finally; [|intros; reflexivity]
    | match goal with
      | |- appends _ (match ?x with _ => _ end) => destruct x
      | |- appends _ (if ?x then _ else _) => destruct x
      end
    | apply appends_quiet; intros; reflexivity ].

Ltac quiet := repeat quiet_step.

Section ServiceLog.

Variable E : env.

Lemma appends_read_text P p : appends P (Service.read_text p).
Proof.
  apply appends_quiet. intros w. unfold Service.read_text.
  destruct (sget (fst p) (queue w) !! snd p); reflexivity.
Qed.

Lemma appends_resolve_claude_cli P : appends P (Service._resolve_claude_cli E).
Proof.
  apply appends_quiet. intros w. unfold Service._resolve_claude_cli.
  destruct (claude_path w) as [p|]; [destruct (PyStr.nonempty p)|];
    try reflexivity;
    destruct (Service.resolve_loop E (Service.cli_candidates E) []); reflexivity.
Qed.

Lemma appends_detect_supports_dash_p P : appends P (Service._detect_supports_dash_p E).
Proof.
  unfold Service._detect_supports_dash_p.
  apply appends_bind; [quiet|]. intros w.
  destruct (supports_cache w); [quiet|].
  apply appends_bind.
  - apply appends_try_except.
    + apply appends_bind; [apply appends_resolve_claude_cli|]. intros. quiet.
    + intros. quiet.
  - intros [[[rc out] err]|]; quiet.
Qed.

Lemma appends_run_plan P repo prompt job_id :
  appends P (Service.run_plan E repo prompt job_id).
Proof.
  unfold Service.run_plan, Service._run_subprocess.
  apply appends_bind; [apply appends_detect_supports_dash_p|]. intros.
  apply appends_bind; [apply appends_resolve_claude_cli|]. intros.
  quiet.
Qed.

Lemma appends_run_apply P repo prompt job_id rules plan :
  appends P (Service.run_apply E repo prompt job_id rules plan).
Proof.
  unfold Service.run_apply, Service._run_subprocess.
  apply appends_bind; [apply appends_detect_supports_dash_p|]. intros.
  apply appends_bind; [apply appends_resolve_claude_cli|]. intros.
  quiet.
Qed.

Lemma appends_write_artifact P dir name content :
  appends P (Service.write_artifact dir name content).
Proof. unfold Service.write_artifact. quiet. Qed.

(** [log_event] appends the entry, with [ts] at its end when it had
    none. *)
Lemma appends_log_event (P : jvalue -> Prop) entry :
  (forall ts, P (JObj (Dict.setdefault "ts" (JFloat ts) entry))) ->
  appends P (Service.log_event E entry).
Proof.
  intros H w. eexists. split; [reflexivity|]. repeat constructor. apply H.
Qed.

Lemma failure_entry_shape id dir repo_key message ts :
  service_log_entry
    (JObj (Dict.setdefault "ts" (JFloat ts)
             (Service.failure_entry (JStr id) dir repo_key message))).
Proof. exists id, dir, repo_key, false, (Some message), ts. split; [reflexivity|discriminate]. Qed.

Lemma appends_finish_and_fail job_file id dir repo_key message :
  appends service_log_entry
    (Service.finish_job job_file false ;;
     Service.log_event E (Service.failure_entry (JStr id) dir repo_key message)).
Proof.
  apply appends_bind; [apply appends_replace_file|]. intros _.
  apply appends_log_event. intros ts. apply failure_entry_shape.
Qed.

Lemma appends_process_job job_file :
  appends service_log_entry (Service.process_job E job_file).
Proof.
  unfold Service.process_job.
  apply appends_bind; [apply appends_read_text|]. intros raw.
  destruct (json_loads raw) as [e|job_v]; [apply appends_finish_and_fail|].
  apply appends_bind; [unfold as_dict; quiet|]. intros job.
  apply appends_bind; [unfold Service.as_path; quiet|]. intros repo.
  apply appends_bind; [unfold Service.strip_value; quiet|]. intros prompt.
  apply appends_bind; [quiet|]. intros job_id_v.
  apply appends_bind; [unfold Service.as_component; quiet|]. intros repo_key.
  apply appends_bind; [unfold Service.as_component; quiet|]. intros job_id.
  destruct (negb (is_dir E repo)).
  { apply appends_bind; [apply appends_write_artifact|]. intros.
    apply appends_finish_and_fail. }
  destruct (negb (PyStr.nonempty prompt)).
  { apply appends_bind; [apply appends_write_artifact|]. intros.
    apply appends_finish_and_fail. }
  apply appends_bind.
  { apply appends_try_except.
    - apply appends_bind; [apply appends_run_plan|]. intros. quiet.
    - intros. quiet. }
  intros [msg|[[[plan_rc plan_out] plan_err] rules]].
  { apply appends_bind; [apply appends_write_artifact|]. intros.
    apply appends_finish_and_fail. }
  apply appends_bind; [apply appends_write_artifact|]. intros.
  apply appends_bind; [apply appends_write_artifact|]. intros.
  destruct (negb (plan_rc =? 0)); [apply appends_finish_and_fail|].
  apply appends_bind; [apply appends_run_apply|].
  intros [[apply_rc apply_out] apply_err].
  apply appends_bind; [apply appends_write_artifact|]. intros.
  apply appends_bind; [apply appends_write_artifact|]. intros.
  apply appends_bind; [apply appends_replace_file|]. intros _.
  apply appends_log_event. intros ts.
  exists job_id, (JStr repo), (JStr repo_key), (apply_rc =? 0), None, ts.
  split; [reflexivity|reflexivity].
Qed.

Lemma appends_worker_turn : appends service_log_entry (Service.worker_turn E).
Proof.
  unfold Service.worker_turn.
  apply appends_bind.
  { apply appends_quiet. intros w. reflexivity. }
  intros [job_file|]; [|quiet].
  apply appends_try_except; [apply appends_process_job|].
  intros e. apply appends_finish_and_fail.
Qed.

Lemma appends_Worker_run turns : appends service_log_entry (Service.Worker_run E turns).
Proof.
  induction turns as [|k IH]; simpl; [quiet|].
  apply appends_bind; [apply appends_worker_turn|]. intros _. exact IH.
Qed.

Lemma appends_run_once : appends tools_log_entry (Tools.run_once E).
Proof.
  intros w. destruct (Tools.run_once E w) as [r w'] eqn:Hr. simpl.
  destruct (Tools.claim w) as [rc w1] eqn:Hc.
  assert (Hn : rc = Ret None \/ exists n, rc = Ret (Some (Running, n))).
  { unfold Tools.claim in Hc. injection Hc as <- _.
    destruct (claim_loop (sorted_glob_json (inbox (queue w))) (queue w)) as [[h|] s'] eqn:Hl;
      [right|left; reflexivity].
    destruct h as [d n].
    pose proof (claim_loop_running (sorted_glob_json (inbox (queue w))) (queue w) (d, n)) as Hd.
    rewrite Hl in Hd. specialize (Hd eq_refl). simpl in Hd. subst d.
    exists n. reflexivity. }
  destruct Hn as [->|(n & ->)].
  - unfold Tools.run_once in Hr. unfold bind at 1 in Hr. rewrite Hc in Hr.
    injection Hr as <- <-. unfold Tools.claim in Hc. injection Hc as _ <-.
    exists []. rewrite app_nil_r. split; [reflexivity|constructor].
  - destruct (claimed_in_running _ _ _ (or_introl Hc)) as (t & _ & _ & _ & _ & Hl1 & _).
    destruct (run_once_summary E n w w1 r w' Hc Hr) as (t' & _ & Hs).
    destruct r as [[]|e|]; simpl in Hs.
    + destruct Hs as (kv & id & probe & plan & apply & caught & ok & out & err & wa & t0 & t1
                      & _ & _ & _ & _ & _ & _ & _ & Hlog & _).
      eexists. split; [rewrite Hlog, Hl1; reflexivity|].
      repeat constructor. exists id, ok, (t1 - t0). reflexivity.
    + destruct Hs as (_ & Hlog & _). exists []. rewrite app_nil_r.
      split; [congruence|constructor].
    + contradiction.
Qed.

Lemma appends_worker_main turns : appends tools_log_entry (Tools.worker_main E turns).
Proof.
  induction turns as [|k IH]; simpl; [quiet|].
  apply appends_bind; [apply appends_run_once|]. intros _. exact IH.
Qed.

End ServiceLog.

Lemma service_entry_as_specified v :
  service_log_entry v ->
  log_entry_as_specified v /\
  exists kv, v = JObj kv /\ Dict.get "latency_s" kv = None.
Proof.
  intros (id & dir & key & ok & error & ts & -> & _).
  split.
  - eexists. split; [reflexivity|]. destruct error as [m|]; simpl.
    + conjs; [eexists; reflexivity | eexists; reflexivity | | | ].
      * exists "ts", ts. split; [discriminate|reflexivity].
      * unfold optional_field. simpl. eexists; reflexivity.
      * exact I.
    + conjs; [eexists; reflexivity | eexists; reflexivity | | | ].
      * exists "ts", ts. split; [discriminate|reflexivity].
      * exact I.
      * exact I.
  - eexists. split; [reflexivity|]. destruct error; reflexivity.
Qed.

Lemma tools_entry_has_no_timestamp v kv :
  tools_log_entry v -> v = JObj kv -> ~ has_timestamp kv.
Proof.
  intros (id & ok & lat & ->) [= <-] (k & ts & Hk & Hg). simpl in Hg.
  destruct (String.eqb k "id"); [discriminate|].
  destruct (String.eqb k "ok"); [discriminate|].
  destruct (String.eqb k "latency_s") eqn:Hl; [|discriminate].
  apply String.eqb_eq in Hl. contradiction.
Qed.

(** C8, as stated, fails on the file-queue worker: the entry it writes
    for a task that ended in [done] has the fields [id], [ok] and
    [latency_s], and no timestamp. *)
Lemma log_entry_format_counterexample :
  let E := Scenario.base_env Scenario.agent_all_ok in
  let w := Scenario.one_task "add a README" "/repo" in
  let w' := snd (Tools.run_once E w) in
  residency (queue w') "u0.json" = [Done] /\
  exists lat,
    log w' = [JObj [("id", JStr "u0"); ("ok", JBool true); ("latency_s", JFloat lat)]] /\
    ~ log_entry_as_specified
        (JObj [("id", JStr "u0"); ("ok", JBool true); ("latency_s", JFloat lat)]).
Proof.
  intros E w w'. split; [vm_compute; reflexivity|].
  eexists. split; [vm_compute; reflexivity|].
  intros (kv & Hv & _ & _ & Hts & _). revert Hts.
  eapply tools_entry_has_no_timestamp; [|exact Hv].
  eexists _, _, _. reflexivity.
Qed.

(** C8, amended. Every entry the service appends to the log, in any
    number of turns of [Worker.run], has the fields [id], [dir],
    [repo_key], a boolean [ok], an [error] string only when [ok] is
    false, and a timestamp [ts], and no latency: it has the specified
    format. A [process_job] that returns has appended exactly one entry.
    Every entry the file-queue worker appends has exactly the fields
    [id], [ok] and [latency_s]: it has a latency and no timestamp. A
    [run_once] that claimed a task and returns has appended exactly one
    entry. *)
Theorem log_entry_format (E : env) :
  (forall turns w, exists es,
     log (snd (Service.Worker_run E turns w)) = log w ++ es /\
     Forall (fun v => service_log_entry v /\ log_entry_as_specified v /\
                      exists kv, v = JObj kv /\ Dict.get "latency_s" kv = None) es) /\
  (forall n t w w',
     running (queue w) !! n = Some t ->
     Service.process_job E (Running, n) w = (Ret tt, w') ->
     exists v, log w' = log w ++ [v]) /\
  (forall turns w, exists es,
     log (snd (Tools.worker_main E turns w)) = log w ++ es /\
     Forall (fun v => tools_log_entry v /\
                      forall kv, v = JObj kv -> ~ has_timestamp kv) es) /\
  (forall n w w1 w',
     Tools.claim w = (Ret (Some (Running, n)), w1) ->
     Tools.run_once E w = (Ret tt, w') ->
     exists v, log w' = log w ++ [v]).
Proof.
  conjs.
  - intros turns w. destruct (appends_Worker_run E turns w) as (es & He & Hf).
    exists es. split; [exact He|].
    eapply Forall_impl; [exact Hf|]. intros v Hv. split; [exact Hv|].
    apply service_entry_as_specified, Hv.
  - intros n t w w' Hrun Hp.
    destruct (process_job_summary E n t w _ w' Hrun Hp)
      as (probes & plan & probes2 & apply & _ & _ & _ & _ & _ & _ & _ & _ & _ & Hr).
    destruct Hr as (ok & entry & _ & Hlog & _). eexists. exact Hlog.
  - intros turns w. destruct (appends_worker_main E turns w) as (es & He & Hf).
    exists es. split; [exact He|].
    eapply Forall_impl; [exact Hf|]. intros v Hv. split; [exact Hv|].
    intros kv. apply tools_entry_has_no_timestamp, Hv.
  - intros n w w1 w' Hc Hr.
    destruct (run_once_returned E n w w1 w' Hc Hr)
      as (kv & id & probe & plan & apply & caught & ok & out & err & wa & t0 & t1
          & _ & _ & _ & _ & _ & _ & _ & Hlog & _).
    eexists. exact Hlog.
Qed.

Lemma log_entry_format_witness :
  let E := Scenario.base_env Scenario.agent_all_ok in
  let w := Scenario.one_running (Serialized (JObj Scenario.job1)) in
  exists v, log (snd (Service.process_job E (Running, "j1.json") w)) = log w ++ [v].
Proof.
  intros E w.
  apply (proj1 (proj2 (log_entry_format E)) "j1.json" (Serialized (JObj Scenario.job1)) w).
  - vm_compute. reflexivity.
  - vm_compute. reflexivity.
Defined.

(** ** The drain *)










(** * Further properties of the code *)

(** ** The order of claims *)

Lemma str_le_total : Total str_le.
Proof. intros a b. apply String.leb_total. Qed.

Lemma string_compare_trans a :
  forall b c, String.compare a b <> Gt -> String.compare b c <> Gt ->
              String.compare a c <> Gt.
Proof.
  induction a as [|x a IH]; intros b c Hab Hbc.
  - destruct c; simpl; discriminate.
  - destruct b as [|y b]; [simpl in Hab; congruence|].
    destruct c as [|z c]; [simpl in Hbc; congruence|].
    simpl in *. unfold Ascii.compare in *.
    destruct (N.compare_spec (N_of_ascii x) (N_of_ascii y)) as [Hxy|Hxy|Hxy];
      [|clear Hab|congruence];
      (destruct (N.compare_spec (N_of_ascii y) (N_of_ascii z)) as [Hyz|Hyz|Hyz];
       [|clear Hbc|congruence]).
    + rewrite Hxy, Hyz. rewrite N.compare_refl. eapply IH; eassumption.
    + rewrite Hxy. apply N.compare_lt_iff in Hyz. rewrite Hyz. discriminate.
    + rewrite <- Hyz. apply N.compare_lt_iff in Hxy. rewrite Hxy. discriminate.
    + assert (H : (N_of_ascii x < N_of_ascii z)%N) by lia.
      apply N.compare_lt_iff in H. rewrite H. discriminate.
Qed.

Lemma str_le_trans : Transitive str_le.
Proof.
  intros a b c. unfold str_le, String.leb. intros Hab Hbc.
  pose proof (string_compare_trans a b c) as H.
  destruct (String.compare a b); destruct (String.compare b c);
    destruct (String.compare a c); try reflexivity; try discriminate;
    exfalso; apply H; try discriminate; reflexivity.
Qed.

(** [dir.glob("*.json")] lists the names of the directory that end in
    [.json]. *)
Lemma glob_json_elem (m : gmap string rtext) n :
  n ∈ glob_json m <-> PyStr.ends_with ".json" n = true /\ is_Some (m !! n).
Proof.
  unfold glob_json. rewrite list_elem_of_filter. split.
  - intros [Hp Hn]. split; [exact Hp|].
    apply list_elem_of_In, in_map_iff in Hn. destruct Hn as ([n' t] & Hfst & Hin).
    simpl in Hfst. subst n'. apply list_elem_of_In, elem_of_map_to_list in Hin.
    exists t. exact Hin.
  - intros [Hp [t Ht]]. split; [exact Hp|].
    apply list_elem_of_In, in_map_iff. exists (n, t). split; [reflexivity|].
    apply list_elem_of_In, elem_of_map_to_list. exact Ht.
Qed.

Lemma sorted_glob_json_elem (m : gmap string rtext) n :
  n ∈ sorted_glob_json m <-> n ∈ glob_json m.
Proof. unfold sorted_glob_json. rewrite merge_sort_Permutation. reflexivity. Qed.

Lemma with_queue_same w : with_queue (fun _ => queue w) w = w.
Proof. destruct w; reflexivity. Qed.

(** The claim loop over the sorted listing of the inbox it was taken
    from stops at the first name. *)
Lemma claim_loop_sorted s :
  match sorted_glob_json (inbox s) with
  | [] => claim_loop (sorted_glob_json (inbox s)) s = (None, s)
  | n :: _ => exists t s',
      inbox s !! n = Some t /\
      os_replace (Inbox, n) (Running, n) s = Some s' /\
      claim_loop (sorted_glob_json (inbox s)) s = (Some (Running, n), s')
  end.
Proof.
  destruct (sorted_glob_json (inbox s)) as [|n rest] eqn:Hl; [reflexivity|].
  assert (Hn : n ∈ sorted_glob_json (inbox s)) by (rewrite Hl; left).
  apply sorted_glob_json_elem, glob_json_elem in Hn. destruct Hn as [_ [t Ht]].
  simpl. unfold os_replace. simpl. rewrite Ht. eauto.
Qed.

(** X1. [claim_job] and [claim] take the same record: the one whose
    name comes first among the [*.json] names of the inbox, in the order
    of [sorted]. The record is moved to [running] with its content, and
    nothing is claimed only when the inbox lists no [*.json] name, in
    which case nothing changes. *)
Theorem claim_takes_least_name (w : world) :
  Tools.claim w = Service.claim_job w /\
  match Service.claim_job w with
  | (Ret (Some (d, n)), w') =>
      d = Running /\ n ∈ glob_json (inbox (queue w)) /\
      (forall m, m ∈ glob_json (inbox (queue w)) -> str_le n m) /\
      is_Some (inbox (queue w) !! n) /\
      running (queue w') !! n = inbox (queue w) !! n /\
      inbox (queue w') !! n = None
  | (Ret None, w') => glob_json (inbox (queue w)) = [] /\ w' = w
  | _ => False
  end.
Proof.
  split; [reflexivity|]. unfold Service.claim_job.
  pose proof (claim_loop_sorted (queue w)) as H.
  pose proof (@StronglySorted_merge_sort _ str_le _ str_le_trans str_le_total
                (glob_json (inbox (queue w)))) as Hs.
  fold (sorted_glob_json (inbox (queue w))) in Hs.
  destruct (sorted_glob_json (inbox (queue w))) as [|n rest] eqn:Hl.
  - rewrite H. simpl. split; [|apply with_queue_same].
    destruct (glob_json (inbox (queue w))) as [|m l] eqn:Hg; [reflexivity|exfalso].
    assert (Hm : m ∈ sorted_glob_json (inbox (queue w)))
      by (apply sorted_glob_json_elem; rewrite Hg; left).
    rewrite Hl in Hm. inversion Hm.
  - destruct H as (t & s' & Ht & Hr & ->). simpl.
    split; [reflexivity|]. split.
    { apply sorted_glob_json_elem. rewrite Hl. left. }
    split.
    { intros m Hm. apply sorted_glob_json_elem in Hm. rewrite Hl in Hm.
      apply StronglySorted_inv in Hs. destruct Hs as [_ Hall].
      apply elem_of_cons in Hm. destruct Hm as [->|Hm].
      - destruct (str_le_total n n); assumption.
      - rewrite Forall_forall in Hall. apply Hall. exact Hm. }
    split; [eauto|].
    unfold os_replace in Hr. simpl in Hr. rewrite Ht in Hr. injection Hr as <-.
    simpl. split; [rewrite lookup_insert_eq; symmetry; exact Ht|apply lookup_delete_eq].
Qed.

(** ** From enqueue to claim *)

Lemma string_length_app s p :
  String.length (s +:+ p) = (String.length s + String.length p)%nat.
Proof. induction s as [|c s IH]; simpl; [reflexivity|]. rewrite IH. reflexivity. Qed.







(** ** When the file-queue worker stops *)



(** ** The accounts of the drain *)





(** X5. A scoreboard file that parses but whose counters cannot be
    incremented is not reset: when [done] lists a record and
    [s["pass"] += 1] raises on the loaded value (a missing key, a value
    that is no object, a counter that is no number), the drain ends with
    that exception in its first cycle, before anything is removed or
    written. *)
Theorem drain_stops_on_bad_scoreboard (cycles : nat) (s : jvalue) (e : exn)
    (n : string) (rest : list string) (w : world) :
  score_file w = Some (Serialized s) ->
  Tools.incr_key "pass" s = inl e ->
  glob_json (done (queue w)) = n :: rest ->
  Tools.judge_main (S cycles) w = (Raise e, w).
Proof.
  intros Hs He Hd. unfold Tools.judge_main. unfold bind at 1.
  unfold Tools.load_score. rewrite Hs. simpl Tools.drain_loop.
  unfold bind at 1. unfold Tools.drain_cycle.
  unfold bind at 1. unfold get_world at 1. rewrite Hd. simpl Tools.drain_dir.
  rewrite He. reflexivity.
Qed.

Lemma drain_stops_on_bad_scoreboard_witness :
  let E := Scenario.base_env Scenario.agent_all_ok in
  let w0 := snd (Tools.run_once E (Scenario.one_task "add a README" "/repo")) in
  let w := with_score_file (Some (Serialized (JObj [("fail", JInt 2)]))) w0 in
  Tools.judge_main 1 w = (Raise (Exn KeyError "'pass'"), w).
Proof.
  intros E w0 w.
  apply (drain_stops_on_bad_scoreboard 0 (JObj [("fail", JInt 2)])
           (Exn KeyError "'pass'") "u0.json" [] w); vm_compute; reflexivity.
Defined.

(** ** Finding the agent executable *)

Section ResolveCli.

Variable E : env.

(** The resolved form of a candidate, as the loop of
    [_resolve_claude_cli] computes it. *)
Let resolved (c : string) : string := resolve E (expanduser E c).


End ResolveCli.



(** X7. The two caches of the service are sticky. Once
    [_detect_supports_dash_p] has returned an answer, every later call
    returns the same answer without spawning a process or changing
    anything, whatever the environment has become; and once
    [_resolve_claude_cli] has returned a path, every later call returns
    that path without looking at the file system again. *)
Theorem service_caches_are_sticky (E E' : env) (w w1 : world) :
  (forall b, Service._detect_supports_dash_p E w = (Ret b, w1) ->
             Service._detect_supports_dash_p E' w1 = (Ret b, w1)) /\
  (forall p, Service._resolve_claude_cli E w = (Ret p, w1) ->
             PyStr.nonempty p = true ->
             Service._resolve_claude_cli E' w1 = (Ret p, w1)).
Proof.
  split.
  - intros b H.
    assert (Hc : supports_cache w1 = Some b).
    { unfold Service._detect_supports_dash_p in H.
      unfold bind at 1 in H. unfold get_world at 1 in H.
      destruct (supports_cache w) as [b0|] eqn:Hw.
      - injection H as <- <-. exact Hw.
      - apply bind_inv in H.
        destruct H as [(probed & w2 & Hp & H)|[(e & _ & [=])|[_ [=]]]].
        destruct probed as [[[rc out] err]|].
        + unfold bind, modify, ret in H. injection H as <- <-. reflexivity.
        + injection H as <- <-.
          unfold try_except in Hp.
          destruct ((let* claude_cli := Service._resolve_claude_cli E
                     in let* result := subprocess_run E Probe [claude_cli; "--help"] (Some 10)
                        in ret (Some result)) w) as [[a|e|] w3] eqn:Hb.
          * apply bind_inv in Hb.
            destruct Hb as [(cli & w4 & _ & Hb)|[(e & _ & [=])|[_ [=]]]].
            apply bind_inv in Hb.
            destruct Hb as [(res & w5 & _ & Hb)|[(e & _ & [=])|[_ [=]]]].
            injection Hb as <- <-. discriminate Hp.
          * destruct (exn_class_eqb (exn_type e) RuntimeError); [discriminate Hp|].
            unfold bind, modify, ret in Hp. injection Hp as <-. reflexivity.
          * discriminate Hp. }
    unfold Service._detect_supports_dash_p. unfold bind at 1. unfold get_world at 1.
    rewrite Hc. reflexivity.
  - intros p H Hp.
    assert (Hc : claude_path w1 = Some p).
    { unfold Service._resolve_claude_cli in H.
      destruct (claude_path w) as [p0|] eqn:Hw; [destruct (PyStr.nonempty p0) eqn:Hp0|].
      - injection H as <- <-. exact Hw.
      - destruct (Service.resolve_loop E (Service.cli_candidates E) []);
          [injection H as <- <-; reflexivity|discriminate H].
      - destruct (Service.resolve_loop E (Service.cli_candidates E) []);
          [injection H as <- <-; reflexivity|discriminate H]. }
    unfold Service._resolve_claude_cli. rewrite Hc, Hp. reflexivity.
Qed.

Lemma service_caches_are_sticky_witness :
  let E := Scenario.env1 in
  let E' := Scenario.base_env (fun _ _ => Hangs) in
  Service._resolve_claude_cli E' (snd (Service._resolve_claude_cli E empty_world))
    = (Ret "/bin/claude", snd (Service._resolve_claude_cli E empty_world)).
Proof.
  intros E E'.
  apply (proj2 (service_caches_are_sticky E E' empty_world
                  (snd (Service._resolve_claude_cli E empty_world))) "/bin/claude");
    reflexivity.
Defined.

(** ** Temporary files *)

Section TempFiles.

Variable E : env.

Lemma resolve_keeps_tmp w r w' :
  Service._resolve_claude_cli E w = (r, w') ->
  tmpfiles w' = tmpfiles w /\ tmp_reads w' = tmp_reads w.
Proof.
  unfold Service._resolve_claude_cli. intros H.
  destruct (claude_path w) as [p|]; [destruct (PyStr.nonempty p)|];
    try (injection H as <- <-; split; reflexivity);
    destruct (Service.resolve_loop E (Service.cli_candidates E) []);
    injection H as <- <-; split; reflexivity.
Qed.

Lemma detect_keeps_tmp w r w' :
  Service._detect_supports_dash_p E w = (r, w') ->
  tmpfiles w' = tmpfiles w /\ tmp_reads w' = tmp_reads w.
Proof.
  intros H. destruct (detect_spec E _ _ _ H) as (probes & _ & _ & Ht & Hr & _).
  split; assumption.
Qed.

(** A process run between the creation of a temporary file and the
    [finally] that removes it. *)
Lemma guarded_run_cleans tag args text w r w' :
  let name := tmp_at E (tmp_reads w) in
  tmpfiles w !! name = None ->
  try_finally (Service._run_subprocess E tag (args name))
    (with_tmpfiles (delete name))
    (with_tmpfiles (insert name text) (tick_tmp w)) = (r, w') ->
  r <> Blocked -> tmpfiles w' = tmpfiles w.
Proof.
  intros name Hfresh H Hr. unfold try_finally, Service._run_subprocess, subprocess_run in H.
  simpl in H.
  destruct (agent E (length (trace w)) (args name)) as [secs rc out err| |e];
    injection H as <- <-; try congruence; simpl;
    apply delete_insert_id; exact Hfresh.
Qed.

Lemma plain_run_keeps_tmp tag args w r w' :
  Service._run_subprocess E tag args w = (r, w') -> tmpfiles w' = tmpfiles w.
Proof.
  intros H. destruct (run_subprocess_spec E _ _ _ _ _ H) as (inv & b & _ & _ & _ & _ & _ & Ht & _).
  exact Ht.
Qed.

Lemma run_plan_cleans repo prompt job_id w r w' :
  tmpfiles w !! tmp_at E (tmp_reads w) = None ->
  Service.run_plan E repo prompt job_id w = (r, w') ->
  r <> Blocked -> tmpfiles w' = tmpfiles w.
Proof.
  intros Hfresh H Hr. unfold Service.run_plan in H.
  apply bind_inv in H. destruct H as [(dash & w1 & Hd & H)|[(e & Hd & _)|[_ ->]]];
    [|apply (detect_keeps_tmp _ _ _ Hd)|congruence].
  destruct (detect_keeps_tmp _ _ _ Hd) as [Ht1 Hn1].
  apply bind_inv in H. destruct H as [(cli & w2 & Hc & H)|[(e & Hc & _)|[_ ->]]];
    [|rewrite <- Ht1; apply (resolve_keeps_tmp _ _ _ Hc)|congruence].
  destruct (resolve_keeps_tmp _ _ _ Hc) as [Ht2 Hn2].
  assert (Hfresh2 : tmpfiles w2 !! tmp_at E (tmp_reads w2) = None) by congruence.
  rewrite <- Ht1, <- Ht2.
  destruct dash.
  - apply bind_inv in H. destruct H as [(proc & w3 & Hp & H)|[(e & Hp & _)|[_ ->]]];
      [injection H as _ <-| |congruence]; apply (plain_run_keeps_tmp _ _ _ _ _ Hp).
  - unfold bind at 1 in H. unfold write_temp at 1 in H.
    apply bind_inv in H. destruct H as [(proc & w3 & Hp & H)|[(e & Hp & _)|[Hp ->]]];
      [injection H as _ <-| |congruence];
      refine (guarded_run_cleans Plan
                (fun name => [cli; "code"; "plan"; "--repo"; repo; "--plan"; name])
                _ w2 _ _ Hfresh2 Hp _); discriminate.
Qed.

Lemma run_apply_cleans repo prompt job_id rules plan_output w r w' :
  tmpfiles w !! tmp_at E (tmp_reads w) = None ->
  Service.run_apply E repo prompt job_id rules plan_output w = (r, w') ->
  r <> Blocked -> tmpfiles w' = tmpfiles w.
Proof.
  intros Hfresh H Hr. unfold Service.run_apply in H.
  apply bind_inv in H. destruct H as [(dash & w1 & Hd & H)|[(e & Hd & _)|[_ ->]]];
    [|apply (detect_keeps_tmp _ _ _ Hd)|congruence].
  destruct (detect_keeps_tmp _ _ _ Hd) as [Ht1 Hn1].
  apply bind_inv in H. destruct H as [(cli & w2 & Hc & H)|[(e & Hc & _)|[_ ->]]];
    [|rewrite <- Ht1; apply (resolve_keeps_tmp _ _ _ Hc)|congruence].
  destruct (resolve_keeps_tmp _ _ _ Hc) as [Ht2 Hn2].
  assert (Hfresh2 : tmpfiles w2 !! tmp_at E (tmp_reads w2) = None) by congruence.
  rewrite <- Ht1, <- Ht2.
  destruct dash.
  - apply (plain_run_keeps_tmp _ _ _ _ _ H).
  - unfold bind at 1 in H. unfold write_temp at 1 in H.
    refine (guarded_run_cleans Apply
              (fun name => [cli; "code"; "apply"; "--repo"; repo; "--plan"; name])
              _ w2 _ _ Hfresh2 H Hr).
Qed.

End TempFiles.

(** X8. The service leaves no temporary file behind. Whenever [run_plan]
    or [run_apply] returns or raises, in either invocation style, the
    temporary files are those that existed before the call: the file
    that holds the prompt is removed by the [finally], also when the
    process could not be spawned. (The name that [NamedTemporaryFile]
    hands out is taken to be unused.) *)
Theorem service_removes_its_temp_files (E : env) (w : world) :
  tmpfiles w !! tmp_at E (tmp_reads w) = None ->
  (forall repo prompt job_id r w',
     Service.run_plan E repo prompt job_id w = (r, w') ->
     r <> Blocked -> tmpfiles w' = tmpfiles w) /\
  (forall repo prompt job_id rules plan_output r w',
     Service.run_apply E repo prompt job_id rules plan_output w = (r, w') ->
     r <> Blocked -> tmpfiles w' = tmpfiles w).
Proof.
  intros Hfresh. split.
  - intros repo prompt job_id r w'. apply run_plan_cleans. exact Hfresh.
  - intros repo prompt job_id rules plan_output r w'. apply run_apply_cleans. exact Hfresh.
Qed.

Lemma service_removes_its_temp_files_witness :
  let E := Scenario.base_env Scenario.agent_file_style in
  tmpfiles (snd (Service.run_plan E "/repo" "add a README" "j1" empty_world))
    = tmpfiles empty_world.
Proof.
  intros E.
  apply (proj1 (service_removes_its_temp_files E empty_world eq_refl)
           "/repo" "add a README" "j1"
           (fst (Service.run_plan E "/repo" "add a README" "j1" empty_world))).
  - apply surjective_pairing.
  - vm_compute. discriminate.
Defined.

Section ToolsTempFiles.

Variable E : env.

Lemma supports_keeps_tmp w r w' :
  Tools._cli_supports_dash_p E w = (r, w') ->
  tmpfiles w' = tmpfiles w /\ tmp_reads w' = tmp_reads w.
Proof.
  unfold Tools._cli_supports_dash_p. intros H.
  destruct (negb (Tools.claude_available E)); [injection H as _ <-; split; reflexivity|].
  unfold try_except, bind, subprocess_run in H. simpl in H.
  destruct (agent E (length (trace w)) ["claude"; "--help"]) as [secs rc out err| |e];
    [destruct (15 <? secs)| |]; injection H as _ <-; split; reflexivity.
Qed.

Lemma run_keeps_tmp tag args w r w' :
  Tools.run E tag args w = (r, w') ->
  tmpfiles w' = tmpfiles w /\ tmp_reads w' = tmp_reads w.
Proof.
  intros H. destruct (run_spec E _ _ _ _ _ H) as (ev & _ & _ & _ & _ & _ & Ht & Hn & _).
  split; assumption.
Qed.

End ToolsTempFiles.

(** X9. The file-queue tools never remove a temporary file. When the
    agent has no [-p] flag, [claude_plan_apply] writes the plan prompt
    to a temporary file, and whatever happens next (the plan process
    exits, times out or cannot be spawned) that file is still there when
    the call is over; when the call returns, the file with the apply
    text is there as well. No temporary file that existed before the
    call is removed. *)
Theorem tools_keep_their_temp_files (E : env) (repo plan_md : string) (apply_md : jvalue)
    (w w0 : world) :
  Tools.claude_available E = true ->
  Tools._cli_supports_dash_p E w = (Ret false, w0) ->
  let f1 := tmp_at E (tmp_reads w) in
  let f2 := tmp_at E (S (tmp_reads w)) in
  let r := fst (Tools.claude_plan_apply E repo plan_md apply_md w) in
  let w' := snd (Tools.claude_plan_apply E repo plan_md apply_md w) in
  is_Some (tmpfiles w' !! f1) /\
  (forall res, r = Ret res ->
     exists apply_text, apply_md = JStr apply_text /\ tmpfiles w' !! f2 = Some apply_text) /\
  (forall name, is_Some (tmpfiles w !! name) -> is_Some (tmpfiles w' !! name)).
Proof.
  intros Hav Hd f1 f2 r w'.
  destruct (supports_keeps_tmp E _ _ _ Hd) as [Ht0 Hn0].
  destruct (Tools.claude_plan_apply E repo plan_md apply_md w) as [r0 wz] eqn:H.
  simpl in r, w'. subst r w'.
  unfold Tools.claude_plan_apply in H. rewrite Hav in H.
  change (negb true) with false in H. cbv iota in H.
  unfold bind at 1 in H. rewrite Hd in H.
  unfold bind at 1 in H. unfold write_temp at 1 in H.
  set (w1 := with_tmpfiles (insert (tmp_at E (tmp_reads w0)) plan_md) (tick_tmp w0)) in H.
  assert (Hf1 : tmp_at E (tmp_reads w0) = f1) by (unfold f1; congruence).
  assert (H1 : tmpfiles w1 = <[f1 := plan_md]> (tmpfiles w)).
  { unfold w1. simpl. rewrite Hf1, Ht0. reflexivity. }
  assert (Hn1 : tmp_reads w1 = S (tmp_reads w)) by (unfold w1; simpl; congruence).
  assert (Hkeep1 : forall name, is_Some (tmpfiles w !! name) \/ name = f1 ->
                                is_Some (tmpfiles w1 !! name)).
  { intros name [Hs| ->]; rewrite H1.
    - destruct (decide (f1 = name)) as [<-|Hne];
        [rewrite lookup_insert_eq; eauto|rewrite lookup_insert_ne by exact Hne; exact Hs].
    - rewrite lookup_insert_eq. eauto. }
  apply bind_inv in H. destruct H as [(p_plan & w2 & Hp & H)|[(e & Hp & ->)|[Hp ->]]];
    destruct (run_keeps_tmp E _ _ _ _ _ Hp) as [Ht2 Hn2].
  2, 3: (conjs; [rewrite Ht2; apply Hkeep1; right; reflexivity
                | intros res [=]
                | intros name Hs; rewrite Ht2; apply Hkeep1; left; exact Hs]).
  unfold bind at 1 in H. unfold write_temp at 1 in H.
  assert (Hf2 : tmp_at E (tmp_reads w2) = f2) by (unfold f2; congruence).
  rewrite Hf2 in H.
  set (w3 := with_tmpfiles (insert f2 "") (tick_tmp w2)) in H.
  assert (Hkeep3 : forall name, is_Some (tmpfiles w !! name) \/ name = f1 ->
                                is_Some (tmpfiles w3 !! name)).
  { intros name Hs. unfold w3. simpl. rewrite Ht2.
    destruct (decide (f2 = name)) as [<-|Hne];
      [rewrite lookup_insert_eq; eauto|rewrite lookup_insert_ne by exact Hne; auto]. }
  destruct apply_md as [ | | | |apply_text| | ];
    try (unfold Tools.as_text in H; rewrite bind_raise_l in H; injection H as <- <-;
         conjs; [apply Hkeep3; right; reflexivity
                | intros res [=]
                | intros name Hs; apply Hkeep3; left; exact Hs]).
  unfold Tools.as_text in H. rewrite bind_ret_l in H. rewrite bind_modify in H.
  set (w4 := with_tmpfiles (insert f2 apply_text) w3) in H.
  assert (Hkeep4 : forall name, is_Some (tmpfiles w !! name) \/ name = f1 ->
                                is_Some (tmpfiles w4 !! name)).
  { intros name Hs. unfold w4. simpl tmpfiles.
    destruct (decide (f2 = name)) as [<-|Hne];
      [rewrite lookup_insert_eq; eauto|rewrite lookup_insert_ne by exact Hne; auto]. }
  assert (H4 : tmpfiles w4 !! f2 = Some apply_text).
  { unfold w4. simpl tmpfiles. apply lookup_insert_eq. }
  apply bind_inv in H. destruct H as [(p_apply & w5 & Ha & H)|[(e & Ha & ->)|[Ha ->]]];
    destruct (run_keeps_tmp E _ _ _ _ _ Ha) as [Ht5 Hn5].
  2, 3: (conjs; [rewrite Ht5; apply Hkeep4; right; reflexivity
                | intros res [=]
                | intros name Hs; rewrite Ht5; apply Hkeep4; left; exact Hs]).
  destruct p_plan as [[rc1 out1] err1]. destruct p_apply as [[rc2 out2] err2].
  injection H as <- <-.
  conjs; [rewrite Ht5; apply Hkeep4; right; reflexivity
         | intros res _; exists apply_text; split; [reflexivity|rewrite Ht5; exact H4]
         | intros name Hs; rewrite Ht5; apply Hkeep4; left; exact Hs].
Qed.

Lemma tools_keep_their_temp_files_witness :
  let E := Scenario.base_env Scenario.agent_file_style in
  let w' := snd (Tools.claude_plan_apply E "/repo" "the plan prompt" (JStr "add a README")
                   empty_world) in
  is_Some (tmpfiles w' !! tmp_at E 0) /\
  (forall res,
     fst (Tools.claude_plan_apply E "/repo" "the plan prompt" (JStr "add a README")
            empty_world) = Ret res ->
     exists apply_text,
       JStr "add a README" = JStr apply_text /\
       tmpfiles w' !! tmp_at E 1 = Some apply_text) /\
  (forall name, is_Some (tmpfiles empty_world !! name) -> is_Some (tmpfiles w' !! name)).
Proof.
  intros E w'.
  apply (tools_keep_their_temp_files E "/repo" "the plan prompt" (JStr "add a README")
           empty_world (snd (Tools._cli_supports_dash_p E empty_world))).
  - reflexivity.
  - vm_compute. reflexivity.
Defined.

(** ** Records the service cannot read *)

(** X10. A claimed record that is no JSON text is not handed to the
    agent: [process_job] returns, the record is moved to [failed] as it
    is, no process is spawned and no artifact written, and the log gains
    one entry whose [id] is the stem of the file name, whose [dir] and
    [repo_key] are null and whose error is ["Invalid job JSON"]. *)
Theorem invalid_job_json_is_failed (E : env) (n text : string) (w : world) :
  running (queue w) !! n = Some (Malformed text) ->
  exists w',
    Service.process_job E (Running, n) w = (Ret tt, w') /\
    failed (queue w') !! n = Some (Malformed text) /\
    running (queue w') !! n = None /\
    inbox (queue w') = inbox (queue w) /\ done (queue w') = done (queue w) /\
    log w' = log w ++
             [JObj [("id", JStr (stem n)); ("dir", JNull); ("repo_key", JNull);
                    ("ok", JBool false); ("error", JStr "Invalid job JSON");
                    ("ts", JFloat (time_at E (clock_reads w)))]] /\
    trace w' = trace w /\ patches w' = patches w.
Proof.
  intros Hrun. eexists. split.
  - unfold Service.process_job. unfold bind at 1. unfold Service.read_text. simpl.
    rewrite Hrun. simpl json_loads. cbv iota.
    unfold Service.finish_job, replace_file, os_replace. unfold bind at 1. simpl.
    rewrite Hrun. reflexivity.
  - simpl. conjs; try reflexivity.
    + apply lookup_insert_eq.
    + apply lookup_delete_eq.
Qed.

Lemma invalid_job_json_is_failed_witness :
  let E := Scenario.env1 in
  let w := Scenario.one_running (Malformed "{id: j1") in
  exists w',
    Service.process_job E (Running, "j1.json") w = (Ret tt, w') /\
    failed (queue w') !! "j1.json" = Some (Malformed "{id: j1") /\
    running (queue w') !! "j1.json" = None /\
    inbox (queue w') = inbox (queue w) /\ done (queue w') = done (queue w) /\
    log w' = log w ++
             [JObj [("id", JStr (stem "j1.json")); ("dir", JNull); ("repo_key", JNull);
                    ("ok", JBool false); ("error", JStr "Invalid job JSON");
                    ("ts", JFloat (time_at E (clock_reads w)))]] /\
    trace w' = trace w /\ patches w' = patches w.
Proof.
  intros E w. apply (invalid_job_json_is_failed E "j1.json" "{id: j1" w).
  vm_compute. reflexivity.
Defined.

(** ** Records are neither lost nor rewritten *)

Lemma os_replace_lookup d1 d2 n s s' :
  os_replace (d1, n) (d2, n) s = Some s' -> d1 <> d2 ->
  exists t, sget d1 s !! n = Some t /\
    forall d n',
      sget d s' !! n' =
        if decide (n' = n)
        then (if decide (d = d2) then Some t
              else if decide (d = d1) then None else sget d s !! n)
        else sget d s !! n'.
Proof.
  unfold os_replace. simpl. intros H Hne.
  destruct (sget d1 s !! n) as [t|] eqn:Ht; [|discriminate].
  injection H as <-. exists t. split; [reflexivity|].
  intros d n'. rewrite !sget_sset.
  repeat case_decide; subst; try congruence;
    rewrite ?sget_sset; repeat case_decide; try congruence;
    rewrite ?lookup_insert_eq, ?lookup_delete_eq;
    rewrite ?lookup_insert_ne by congruence;
    rewrite ?lookup_delete_ne by congruence;
    rewrite ?lookup_delete_eq; reflexivity.
Qed.

Lemma holds_lookup s d n : holds s d n = true <-> is_Some (sget d s !! n).
Proof.
  unfold holds. destruct (sget d s !! n); split; intros H; eauto; try discriminate.
  destruct H as [x Hx]. discriminate.
Qed.

(** A rename between two state directories of a store in which no name
    is in two directories keeps every record and its text. *)
Lemma rename_keeps_records d1 d2 n s s' :
  os_replace (d1, n) (d2, n) s = Some s' -> d1 <> d2 -> exclusive s ->
  forall n' t, stored s n' t <-> stored s' n' t.
Proof.
  intros Hr Hne Hex n' t.
  destruct (os_replace_lookup _ _ _ _ _ Hr Hne) as (t0 & H1 & Hl).
  assert (Honly : forall d x, sget d s !! n = Some x -> d = d1).
  { intros d x Hx. apply (exclusive_holds s n d d1 Hex); apply holds_lookup; eauto. }
  unfold stored. split; intros [d Hd].
  - destruct (decide (n' = n)) as [->|Hn].
    + assert (d = d1) by (eapply Honly; exact Hd). subst d.
      exists d2. rewrite Hl. rewrite !decide_True by reflexivity. congruence.
    + exists d. rewrite Hl. rewrite decide_False by exact Hn. exact Hd.
  - rewrite Hl in Hd. destruct (decide (n' = n)) as [->|Hn]; [|eauto].
    destruct (decide (d = d2)) as [->|Hd2].
    + exists d1. congruence.
    + destruct (decide (d = d1)) as [->|Hd1]; [discriminate|].
      exfalso. apply Hd1. eapply Honly. exact Hd.
Qed.

Lemma worker_steps_keep_records s s' :
  rtc (fs_step Worker) s s' -> exclusive s ->
  forall n t, stored s n t <-> stored s' n t.
Proof.
  intros Hsteps. induction Hsteps as [s | s s1 s2 Hstep _ IH]; intros Hex n t.
  - reflexivity.
  - destruct (fs_step_sound _ _ _ Hex Hstep) as [Hex1 _].
    rewrite <- (IH Hex1 n t).
    inversion Hstep as [m x y Hr | m ok x y Hr | ]; subst.
    + apply (rename_keeps_records _ _ _ _ _ Hr); [discriminate|exact Hex].
    + apply (rename_keeps_records _ _ _ _ _ Hr); [destruct ok; discriminate|exact Hex].
Qed.

(** X11. Workers neither lose nor rewrite a record. From a store in
    which no name is in two state directories, after any number of turns
    of the service's [Worker.run] or of the file-queue worker's loop,
    however the turns end, the records in the store (names with their
    texts, over all four directories) are those that were there
    before. *)
Theorem workers_keep_every_record (E : env) (turns : nat) (w : world) :
  exclusive (queue w) ->
  forall n t,
    (stored (queue w) n t <->
     stored (queue (snd (Service.Worker_run E turns w))) n t) /\
    (stored (queue w) n t <->
     stored (queue (snd (Tools.worker_main E turns w))) n t).
Proof.
  intros Hex n t. split.
  - apply worker_steps_keep_records; [apply legal_Worker_run|exact Hex].
  - apply worker_steps_keep_records; [apply legal_worker_main|exact Hex].
Qed.

Lemma workers_keep_every_record_witness :
  let E := Scenario.base_env Scenario.agent_all_ok in
  let w := Scenario.one_job Scenario.job1 in
  (stored (queue w) "j1.json" (Serialized (JObj Scenario.job1)) <->
   stored (queue (snd (Service.Worker_run E 2 w))) "j1.json"
          (Serialized (JObj Scenario.job1))) /\
  (stored (queue w) "j1.json" (Serialized (JObj Scenario.job1)) <->
   stored (queue (snd (Tools.worker_main E 2 w))) "j1.json"
          (Serialized (JObj Scenario.job1))).
Proof.
  intros E w. apply (workers_keep_every_record E 2 w).
  apply exclusive_write_fresh; [apply exclusive_empty | apply residency_empty].
Defined.

Lemma drain_steps_only_remove s s' :
  rtc (fs_step Judge) s s' ->
  inbox s' = inbox s /\ running s' = running s /\
  forall d n t, sget d s' !! n = Some t -> sget d s !! n = Some t.
Proof.
  intros Hsteps. induction Hsteps as [s | s s1 s2 Hstep _ IH].
  - auto.
  - destruct IH as (Hi & Hr & Hsub).
    inversion Hstep as [ | | d m x Hd]; subst.
    assert (H1 : inbox (unlink (d, m) s) = inbox s /\ running (unlink (d, m) s) = running s)
      by (destruct Hd; subst d; split; reflexivity).
    destruct H1 as [H1i H1r].
    split; [congruence|]. split; [congruence|].
    intros d' n t Ht. apply Hsub in Ht. unfold unlink in Ht. simpl in Ht.
    rewrite sget_sset in Ht. destruct (decide (d' = d)) as [->|]; [|exact Ht].
    destruct (decide (n = m)) as [->|Hn].
    + rewrite lookup_delete_eq in Ht. discriminate.
    + rewrite lookup_delete_ne in Ht by congruence. exact Ht.
Qed.

(** X12. The drain only removes records of [done] and [failed]. After
    any number of cycles, however they end, [inbox] and [running] are as
    they were, and every record still in the store was there before, in
    the same directory and with the same text. *)
Theorem drain_only_removes_terminal_records (cycles : nat) (w : world) :
  let s' := queue (snd (Tools.judge_main cycles w)) in
  inbox s' = inbox (queue w) /\ running s' = running (queue w) /\
  forall d n t, sget d s' !! n = Some t -> sget d (queue w) !! n = Some t.
Proof. apply drain_steps_only_remove. apply legal_judge_main. Qed.

(** ** The artifacts of the file-queue worker *)

Section ToolsArtifacts.

Variable E : env.


End ToolsArtifacts.





(** ** The repository key *)

Section RepoKeyFacts.

Import RepoKey.

Lemma all_chars_map_keep s : all_chars slug_char (map_chars keep_or_dash s) = true.
Proof.
  induction s as [|c s IH]; [reflexivity|].
  cbn [map_chars all_chars]. rewrite IH, andb_true_r.
  unfold keep_or_dash. fold (slug_char c).
  destruct (slug_char c) eqn:Hc; [exact Hc|reflexivity].
Qed.

Lemma all_chars_lstrip_dash P s :
  all_chars P s = true -> all_chars P (lstrip_dash s) = true.
Proof.
  induction s as [|c s IH]; [reflexivity|]. cbn [all_chars lstrip_dash]. intros H.
  apply andb_true_iff in H. destruct H as [Hc Hs].
  destruct (Ascii.eqb c dash); [apply IH, Hs|]. cbn [all_chars]. rewrite Hc, Hs. reflexivity.
Qed.

Lemma all_chars_rstrip_dash P s :
  all_chars P s = true -> all_chars P (rstrip_dash s) = true.
Proof.
  induction s as [|c s IH]; [reflexivity|]. cbn [all_chars rstrip_dash]. intros H.
  apply andb_true_iff in H. destruct H as [Hc Hs]. specialize (IH Hs).
  destruct (rstrip_dash s) as [|c' r].
  - destruct (Ascii.eqb c dash); cbn [all_chars]; [reflexivity|]. rewrite Hc. reflexivity.
  - cbn [all_chars] in *. rewrite Hc, IH. reflexivity.
Qed.

Lemma first_lstrip_dash s : first_char (lstrip_dash s) <> Some dash.
Proof.
  induction s as [|c s IH]; cbn [lstrip_dash first_char]; [discriminate|].
  destruct (Ascii.eqb c dash) eqn:Hc; [exact IH|]. cbn [first_char]. intros [= ->].
  rewrite Ascii.eqb_refl in Hc. discriminate.
Qed.

Lemma first_rstrip_dash s :
  first_char s <> Some dash -> first_char (rstrip_dash s) <> Some dash.
Proof.
  destruct s as [|c s]; cbn [rstrip_dash first_char]; [discriminate|]. intros Hc.
  destruct (rstrip_dash s).
  - destruct (Ascii.eqb c dash); [discriminate|exact Hc].
  - exact Hc.
Qed.

Lemma last_rstrip_dash s : last_char (rstrip_dash s) <> Some dash.
Proof.
  induction s as [|c s IH]; cbn [rstrip_dash last_char]; [discriminate|].
  destruct (rstrip_dash s) as [|c' r] eqn:Hr.
  - destruct (Ascii.eqb c dash) eqn:Hc; [discriminate|]. cbn [last_char]. intros [= ->].
    rewrite Ascii.eqb_refl in Hc. discriminate.
  - exact IH.
Qed.

Lemma slug_of_safe name :
  slug_of name <> "" /\ all_chars slug_char (slug_of name) = true /\
  first_char (slug_of name) <> Some dash /\ last_char (slug_of name) <> Some dash.
Proof.
  unfold slug_of.
  set (s := map_chars keep_or_dash (PyStr.or_else (lower (PyStr.strip name)) "project")).
  assert (Hs : all_chars slug_char (strip_dash s) = true)
    by (apply all_chars_rstrip_dash, all_chars_lstrip_dash, all_chars_map_keep).
  assert (Hf : first_char (strip_dash s) <> Some dash)
    by (apply first_rstrip_dash, first_lstrip_dash).
  assert (Hl : last_char (strip_dash s) <> Some dash) by apply last_rstrip_dash.
  clearbody s. unfold PyStr.or_else.
  destruct (strip_dash s) as [|c r]; cbn [PyStr.nonempty].
  - split; [discriminate|]. split; [vm_compute; reflexivity|].
    split; vm_compute; discriminate.
  - split; [discriminate|]. auto.
Qed.

End RepoKeyFacts.

(** X14. The repository key is a safe directory name. Whatever the name
    of the repository directory, [compute_repo_key] returns

    [<slug>-<digest>] where the slug is not empty, consists of
    alphanumeric characters, [-] and [_] only (so it has no [/], no [.]
    and no white space) and neither begins nor ends with [-]; a name
    that leaves nothing, such as [..] or a blank name, gives the slug
    [project]. *)
Theorem repo_key_is_safe (name digest : string) :
  exists slug,
    RepoKey.compute_repo_key name digest = slug +:+ "-" +:+ digest /\
    slug <> "" /\
    RepoKey.all_chars RepoKey.slug_char slug = true /\
    RepoKey.first_char slug <> Some RepoKey.dash /\
    RepoKey.last_char slug <> Some RepoKey.dash /\
    RepoKey.compute_repo_key ".." digest = "project-" +:+ digest /\
    RepoKey.compute_repo_key "  " digest = "project-" +:+ digest /\
    RepoKey.compute_repo_key "My Repo.v2" digest = "my-repo-v2-" +:+ digest.
Proof.
  exists (RepoKey.slug_of name). split; [reflexivity|].
  destruct (slug_of_safe name) as (H1 & H2 & H3 & H4).
  conjs; try assumption.
  - unfold RepoKey.compute_repo_key.
    replace (RepoKey.slug_of "..") with "project" by (vm_compute; reflexivity). reflexivity.
  - unfold RepoKey.compute_repo_key.
    replace (RepoKey.slug_of "  ") with "project" by (vm_compute; reflexivity). reflexivity.
  - unfold RepoKey.compute_repo_key.
    replace (RepoKey.slug_of "My Repo.v2") with "my-repo-v2" by (vm_compute; reflexivity).
    reflexivity.
Qed.

(** ** The rules handed to the planner *)

Lemma starts_with_app_l p a b :
  PyStr.starts_with p a = true -> PyStr.starts_with p (a +:+ b) = true.
Proof.
  revert a. induction p as [|c p IH]; intros a H; [reflexivity|].
  destruct a as [|x a]; [discriminate H|]. simpl in *.
  destruct (Ascii.eqb c x); [apply IH, H|discriminate H].
Qed.

Lemma contains_empty_inv p : PyStr.contains p "" = true -> p = "".
Proof. destruct p; [reflexivity|discriminate]. Qed.

Lemma contains_app_l p a b :
  PyStr.contains p a = true -> PyStr.contains p (a +:+ b) = true.
Proof.
  induction a as [|x a IH]; intros H.
  - apply contains_empty_inv in H. subst p. destruct b; reflexivity.
  - change (PyStr.contains p (String x a))
      with (PyStr.starts_with p (String x a) || PyStr.contains p a) in H.
    change (PyStr.contains p (String x a +:+ b))
      with (PyStr.starts_with p (String x a +:+ b) || PyStr.contains p (a +:+ b)).
    apply orb_true_iff in H. destruct H as [H|H].
    + rewrite (starts_with_app_l p (String x a) b H). reflexivity.
    + rewrite (IH H). apply orb_true_r.
Qed.

Lemma contains_refl p : PyStr.contains p p = true.
Proof. apply contains_here, starts_with_refl. Qed.

Lemma contains_nothing s : PyStr.contains "" s = true.
Proof. destruct s; reflexivity. Qed.

Lemma contains_concat sep x l :
  In x l -> PyStr.contains x (String.concat sep l) = true.
Proof.
  induction l as [|y l IH]; [intros []|]. intros Hin.
  destruct l as [|z l].
  - destruct Hin as [->|[]]. apply contains_refl.
  - change (String.concat sep (y :: z :: l))
      with (y +:+ sep +:+ String.concat sep (z :: l)).
    destruct Hin as [->|Hin].
    + apply contains_app_l, contains_refl.
    + do 2 apply contains_after. apply IH, Hin.
Qed.

Lemma glob_md_elem (m : gmap string file_read) n :
  n ∈ sorted_glob_md m <-> PyStr.ends_with ".md" n = true /\ is_Some (m !! n).
Proof.
  unfold sorted_glob_md. rewrite merge_sort_Permutation.
  unfold glob_md. rewrite list_elem_of_filter. split.
  - intros [Hp Hn]. split; [exact Hp|].
    apply list_elem_of_In, in_map_iff in Hn. destruct Hn as ([n' t] & Hfst & Hin).
    simpl in Hfst. subst n'. apply list_elem_of_In, elem_of_map_to_list in Hin.
    exists t. exact Hin.
  - intros [Hp [t Ht]]. split; [exact Hp|].
    apply list_elem_of_In, in_map_iff. exists (n, t). split; [reflexivity|].
    apply list_elem_of_In, elem_of_map_to_list. exact Ht.
Qed.

Lemma nonempty_false s : PyStr.nonempty s = false -> s = "".
Proof. destruct s; [reflexivity|discriminate]. Qed.

(** What the host rules hold is in the combined rules of the service. *)
Lemma service_rules_hold_host repo agents_file text :
  PyStr.contains text (ServiceRules.load_host_rules repo) = true ->
  PyStr.contains text (ServiceRules.combined_rules repo agents_file) = true.
Proof.
  intros H. unfold ServiceRules.combined_rules.
  destruct (PyStr.nonempty (ServiceRules.load_host_rules repo)) eqn:Hh.
  - destruct (PyStr.nonempty (ServiceRules.read_text agents_file)); cbn [andb].
    + cbn [String.concat]. apply contains_app_l, H.
    + unfold PyStr.or_else. rewrite Hh. exact H.
  - apply nonempty_false in Hh. rewrite Hh in H. apply contains_empty_inv in H.
    subst text. apply contains_nothing.
Qed.

Lemma service_rules_hold_agents repo agents_file text :
  PyStr.contains text (ServiceRules.read_text agents_file) = true ->
  PyStr.contains text (ServiceRules.combined_rules repo agents_file) = true.
Proof.
  intros H. unfold ServiceRules.combined_rules.
  destruct (PyStr.nonempty (ServiceRules.read_text agents_file)) eqn:Ha.
  - destruct (PyStr.nonempty (ServiceRules.load_host_rules repo)) eqn:Hh; cbn [andb].
    + cbn [String.concat]. do 6 apply contains_after. exact H.
    + unfold PyStr.or_else. rewrite Hh, Ha. exact H.
  - apply nonempty_false in Ha. rewrite Ha in H. apply contains_empty_inv in H.
    subst text. apply contains_nothing.
Qed.

(** X15. The combined rules of the service are never empty and drop
    nothing that could be read: they hold the text of the agent rules
    file, and the text of [docs/rules.md] or, when that file does not
    exist, of every [*.md] file of [docs/rules]. When [docs/rules.md]
    exists the directory is not looked at, even if the file is empty or
    cannot be read; and when nothing is found the rules are the sentence
    ["No additional rules available."]. *)
Theorem service_rules_keep_every_file (repo : host_docs) (agents_file : option file_read) :
  let rules := ServiceRules.combined_rules repo agents_file in
  rules <> "" /\
  (forall text, agents_file = Some (inr text) -> PyStr.contains text rules = true) /\
  (forall text, rules_md repo = Some (inr text) -> PyStr.contains text rules = true) /\
  (forall m child text,
     rules_md repo = None -> rules_dir repo = Some m ->
     PyStr.ends_with ".md" child = true -> m !! child = Some (inr text) ->
     PyStr.contains text rules = true) /\
  (forall f other,
     rules_md repo = Some f ->
     ServiceRules.combined_rules (HostDocs (Some f) other) agents_file = rules) /\
  (ServiceRules.load_host_rules repo = "" -> ServiceRules.read_text agents_file = "" ->
   rules = "No additional rules available.").
Proof.
  intros rules. subst rules. conjs.
  - unfold ServiceRules.combined_rules.
    destruct (ServiceRules.load_host_rules repo) as [|c h];
      destruct (ServiceRules.read_text agents_file) as [|c' a]; discriminate.
  - intros text ->. apply service_rules_hold_agents. apply contains_refl.
  - intros text Hmd. apply service_rules_hold_host.
    unfold ServiceRules.load_host_rules. rewrite Hmd. apply contains_refl.
  - intros m child text Hmd Hdir Hend Hchild. apply service_rules_hold_host.
    unfold ServiceRules.load_host_rules. rewrite Hmd, Hdir.
    destruct (PyStr.nonempty text) eqn:Ht;
      [|apply nonempty_false in Ht; subst text; apply contains_nothing].
    apply contains_concat. apply filter_In. split; [|exact Ht].
    apply in_map_iff. exists child. split.
    { transitivity (ServiceRules.read_text (Some (inr text)));
        [f_equal; exact Hchild|reflexivity]. }
    apply list_elem_of_In, glob_md_elem. split; [exact Hend|eauto].
  - intros f other Hmd. unfold ServiceRules.combined_rules, ServiceRules.load_host_rules.
    simpl. rewrite Hmd. reflexivity.
  - intros Hh Ha. unfold ServiceRules.combined_rules. rewrite Hh, Ha. reflexivity.
Qed.

Lemma service_rules_keep_every_file_witness :
  let m : gmap string file_read :=
    {[ "a.md" := inr "Use tabs."; "b.md" := inl (Exn OSError "Is a directory");
       "notes.txt" := inr "ignored" ]} in
  let repo := HostDocs None (Some m) in
  PyStr.contains "Use tabs." (ServiceRules.combined_rules repo (Some (inr "Be brief."))) = true.
Proof.
  intros m repo.
  apply (proj1 (proj2 (proj2 (proj2
           (service_rules_keep_every_file repo (Some (inr "Be brief.")))))) m "a.md");
    vm_compute; reflexivity.
Defined.


Section ToolsRulesFacts.

Variable m : gmap string file_read.



End ToolsRulesFacts.


(** ** White space around a prompt *)

Lemma lstrip_first s c r : PyStr.lstrip s = String c r -> PyStr.is_space c = false.
Proof.
  induction s as [|x s IH]; cbn [PyStr.lstrip]; [discriminate|].
  destruct (PyStr.is_space x) eqn:Hx; [exact IH|]. intros [= <- _]. exact Hx.
Qed.

Lemma lstrip_id c r : PyStr.is_space c = false -> PyStr.lstrip (String c r) = String c r.
Proof. intros H. cbn [PyStr.lstrip]. rewrite H. reflexivity. Qed.

Lemma rstrip_first c r :
  PyStr.is_space c = false -> exists r', PyStr.rstrip (String c r) = String c r'.
Proof.
  intros H. cbn [PyStr.rstrip]. destruct (PyStr.rstrip r); [rewrite H|]; eauto.
Qed.

Lemma rstrip_rstrip s : PyStr.rstrip (PyStr.rstrip s) = PyStr.rstrip s.
Proof.
  induction s as [|c s IH]; [reflexivity|]. cbn [PyStr.rstrip].
  destruct (PyStr.rstrip s) as [|c' r] eqn:Hr.
  - destruct (PyStr.is_space c) eqn:Hc; [reflexivity|].
    cbn [PyStr.rstrip]. rewrite Hc. reflexivity.
  - cbn [PyStr.rstrip]. cbn [PyStr.rstrip] in IH.
    destruct (PyStr.rstrip r) as [|c'' r'] eqn:Hr'.
    + destruct (PyStr.is_space c'); [discriminate IH|]. rewrite IH. reflexivity.
    + rewrite IH. reflexivity.
Qed.

(** Stripping twice is stripping once. *)
Lemma strip_strip s : PyStr.strip (PyStr.strip s) = PyStr.strip s.
Proof.
  unfold PyStr.strip. destruct (PyStr.lstrip s) as [|c r] eqn:Hl; [reflexivity|].
  pose proof (lstrip_first _ _ _ Hl) as Hc.
  destruct (rstrip_first c r Hc) as [r' Hr]. rewrite Hr.
  rewrite (lstrip_id c r' Hc). rewrite <- Hr. apply rstrip_rstrip.
Qed.

(** X17. The constraints section of the plan prompt of the file-queue
    worker is never blank: [build_plan_prompt] puts, after [PLAN_BASE]
    and the heading, the rules without the white space around them, or
    the placeholder [_No additional rules found._] when the rules are
    empty or white space only. The section is not empty and has no white
    space around it. *)
Theorem plan_prompt_constraints_never_blank (E : env) (rules : string) :
  exists section,
    Tools.build_plan_prompt E rules
      = plan_base E +:+ blank_line +:+ "## Constraints and Risks
" +:+ section /\
    section <> "" /\ PyStr.strip section = section /\
    (PyStr.strip rules = "" -> section = "_No additional rules found._") /\
    (PyStr.strip rules <> "" -> section = PyStr.strip rules).
Proof.
  unfold Tools.build_plan_prompt.
  destruct (PyStr.strip rules) as [|c r] eqn:Hs.
  - exists "_No additional rules found._". rewrite andb_false_r.
    conjs; try reflexivity; try discriminate. intros H. contradiction.
  - assert (Hn : PyStr.nonempty rules = true).
    { destruct rules; [discriminate Hs|reflexivity]. }
    rewrite Hn. cbn [andb PyStr.nonempty]. exists (String c r).
    conjs; try reflexivity; try discriminate.
    rewrite <- Hs. apply strip_strip.
Qed.

(** ** The HTTP front door *)


(** ** Jobs that pass the validation *)

Section Keeps.

Variable R : world -> world -> Prop.
Hypothesis R_refl : forall w, R w w.
Hypothesis R_trans : forall a b c, R a b -> R b c -> R a c.

Lemma keeps_ret {A} (a : A) : keeps R (ret a).
Proof. intros w. apply R_refl. Qed.

Lemma keeps_raise {A} (e : exn) : keeps R (@raise A e).
Proof. intros w. apply R_refl. Qed.

Lemma keeps_bind {A B} (m : M A) (k : A -> M B) :
  keeps R m -> (forall a, keeps R (k a)) -> keeps R (bind m k).
Proof.
  intros Hm Hk w. unfold bind. specialize (Hm w).
  destruct (m w) as [[a|e|] w1]; simpl in *; try assumption.
  eapply R_trans; [exact Hm|apply Hk].
Qed.

Lemma keeps_try_except {A} (m : M A) (h : exn -> M A) :
  keeps R m -> (forall e, keeps R (h e)) -> keeps R (try_except m h).
Proof.
  intros Hm Hh w. unfold try_except. specialize (Hm w).
  destruct (m w) as [[a|e|] w1]; simpl in *; try assumption.
  eapply R_trans; [exact Hm|apply Hh].
Qed.



End Keeps.

Section Validation.

Variable E : env.









End Validation.



(** ** The router *)

Lemma app_inv_suffix (a b s : string) : a +:+ s = b +:+ s -> a = b.
Proof.
  revert b. induction a as [|x a IH]; intros b H.
  - destruct b as [|y b]; [reflexivity|exfalso].
    apply (f_equal String.length) in H. rewrite !string_length_app in H.
    simpl in H. lia.
  - destruct b as [|y b].
    + exfalso. apply (f_equal String.length) in H. rewrite !string_length_app in H.
      simpl in H. lia.
    + change (String x (a +:+ s) = String y (b +:+ s)) in H.
      injection H as -> H. f_equal. apply IH, H.
Qed.

Section RouterFacts.

Variable E : env.
Hypothesis uuid_fresh : forall i j, uuid_at E i = uuid_at E j -> i = j.

Let name (i : nat) : string := uuid_at E i +:+ ".json".
Let body (line : string) : M unit :=
  let line := PyStr.strip line in
  if PyStr.nonempty line
  then Tools.enqueue E line (resolve E ".") "code_apply" None ;; ret tt
  else ret tt.

Lemma name_inj i j : name i = name j -> i = j.
Proof. unfold name. intros H. apply uuid_fresh. eapply app_inv_suffix. exact H. Qed.

Lemma router_loop lines :
  forall w, exists w',
    for_each lines body w = (Ret tt, w') /\
    uuid_reads w' = (uuid_reads w + length (Router.prompts lines))%nat /\
    running (queue w') = running (queue w) /\ done (queue w') = done (queue w) /\
    failed (queue w') = failed (queue w) /\
    log w' = log w /\ patches w' = patches w /\ trace w' = trace w /\
    (forall k p, Router.prompts lines !! k = Some p ->
       inbox (queue w') !! name (uuid_reads w + k)
         = Some (Router.task_for (uuid_at E (uuid_reads w + k)) p (resolve E "."))) /\
    (forall nm, (forall k, (k < length (Router.prompts lines))%nat ->
                           nm <> name (uuid_reads w + k)) ->
                inbox (queue w') !! nm = inbox (queue w) !! nm).
Proof.
  induction lines as [|line rest IH]; intros w.
  - exists w. simpl. conjs; try reflexivity; try lia.
    intros k p Hk. unfold Router.prompts in Hk. cbn [map List.filter] in Hk.
    rewrite lookup_nil in Hk. discriminate.
  - cbn [for_each]. unfold Router.prompts. cbn [map List.filter].
    fold (Router.prompts rest). unfold body at 1. cbv zeta.
    destruct (PyStr.nonempty (PyStr.strip line)) eqn:Hl.
    + set (w1 := with_queue
                   (write_file (Inbox, name (uuid_reads w))
                      (Router.task_for (uuid_at E (uuid_reads w)) (PyStr.strip line)
                         (resolve E "."))) (tick_uuid w)).
      destruct (IH w1) as (w' & Hrun & Hu & Hr & Hd & Hf & Hlog & Hp & Ht & Hnew & Hold).
      exists w'. conjs.
      * unfold bind at 1. unfold bind at 1. exact Hrun.
      * rewrite Hu. simpl. lia.
      * rewrite Hr. reflexivity.
      * rewrite Hd. reflexivity.
      * rewrite Hf. reflexivity.
      * rewrite Hlog. reflexivity.
      * rewrite Hp. reflexivity.
      * rewrite Ht. reflexivity.
      * intros k p Hk. destruct k as [|k].
        -- simpl in Hk. injection Hk as <-. rewrite Nat.add_0_r.
           rewrite Hold.
           ++ unfold w1. simpl. apply lookup_insert_eq.
           ++ intros k _ Heq. apply name_inj in Heq. simpl in Heq. lia.
        -- simpl in Hk. specialize (Hnew k p Hk). simpl in Hnew.
           replace (uuid_reads w + S k)%nat with (S (uuid_reads w + k)) by lia.
           exact Hnew.
      * intros nm Hnm. rewrite Hold.
        -- unfold w1. simpl. apply lookup_insert_ne. intros Heq.
           apply (Hnm 0%nat); [simpl; lia|]. rewrite Nat.add_0_r. symmetry. exact Heq.
        -- intros k Hk. simpl. replace (S (uuid_reads w + k)) with (uuid_reads w + S k)%nat by lia.
           apply Hnm. simpl. lia.
    + destruct (IH w) as (w' & Hrun & Hrest). exists w'. split; [exact Hrun|exact Hrest].
Qed.

End RouterFacts.

(** X20. Fed from a pipe, the router enqueues one task for every line
    that is not blank, and nothing else: the prompts are the lines
    without the white space around them, in order; each task gets the
    next fresh id and is written to the inbox as [<id>.json] with the
    mode [code_apply] and the current directory as its repository; no
    other file of the inbox and no other directory changes. (Ids that
    [uuid4] hands out are taken to be distinct.) At a terminal the one
    line that is typed is enqueued even if it is blank. *)
Theorem router_enqueues_nonblank_lines (E : env) (lines : list string) (w : world) :
  (forall i j, uuid_at E i = uuid_at E j -> i = j) ->
  let ps := Router.prompts lines in
  let name k := uuid_at E (uuid_reads w + k) +:+ ".json" in
  (exists w',
     Router.main E (Router.Piped lines) w = (Ret tt, w') /\
     uuid_reads w' = (uuid_reads w + length ps)%nat /\
     running (queue w') = running (queue w) /\ done (queue w') = done (queue w) /\
     failed (queue w') = failed (queue w) /\
     log w' = log w /\ patches w' = patches w /\ trace w' = trace w /\
     (forall k p, ps !! k = Some p ->
        p <> "" /\ PyStr.strip p = p /\
        inbox (queue w') !! name k
          = Some (Router.task_for (uuid_at E (uuid_reads w + k)) p (resolve E "."))) /\
     (forall nm, (forall k, (k < length ps)%nat -> nm <> name k) ->
                 inbox (queue w') !! nm = inbox (queue w) !! nm)) /\
  (forall typed,
     Router.main E (Router.Terminal typed) w
       = (Ret tt,
          with_queue
            (write_file (Inbox, name 0%nat)
               (Router.task_for (uuid_at E (uuid_reads w)) (PyStr.strip typed)
                  (resolve E ".")))
            (tick_uuid w))).
Proof.
  intros Hfresh ps name. split.
  - destruct (router_loop E Hfresh lines w)
      as (w' & Hrun & Hu & Hr & Hd & Hf & Hlog & Hp & Ht & Hnew & Hold).
    exists w'. conjs; try assumption.
    intros k p Hk. split; [|split; [|apply Hnew, Hk]].
    + apply list_elem_of_lookup_2 in Hk. apply list_elem_of_In in Hk.
      unfold ps, Router.prompts in Hk. apply filter_In in Hk. destruct Hk as [_ Hn].
      destruct p; [discriminate Hn|discriminate].
    + apply list_elem_of_lookup_2 in Hk. apply list_elem_of_In in Hk.
      unfold ps, Router.prompts in Hk. apply filter_In in Hk. destruct Hk as [Hin _].
      apply in_map_iff in Hin. destruct Hin as (line & <- & _). apply strip_strip.
  - intros typed. unfold name. rewrite Nat.add_0_r. reflexivity.
Qed.

Lemma unary_inj i : forall j, Router.unary i = Router.unary j -> i = j.
Proof.
  induction i as [|i IH]; intros [|j] H; try reflexivity; try discriminate H.
  injection H as H. f_equal. apply IH, H.
Qed.

Lemma router_enqueues_nonblank_lines_witness :
  let E := Router.unary_env in
  Router.main E (Router.Terminal "  ") empty_world
    = (Ret tt,
       with_queue
         (write_file (Inbox, uuid_at E (uuid_reads empty_world + 0) +:+ ".json")
            (Router.task_for (uuid_at E (uuid_reads empty_world)) (PyStr.strip "  ")
               (resolve E ".")))
         (tick_uuid empty_world)).
Proof.
  intros E.
  refine (proj2 (router_enqueues_nonblank_lines E [] empty_world _) "  ").
  intros i j H. apply unary_inj. exact H.
Defined.

(** ** The artifacts of a job of the service *)





Section ServiceArtifacts.

Variable E : env.




End ServiceArtifacts.

Section ServiceArtifactsMain.

Variable E : env.


End ServiceArtifactsMain.


(** ** One probe for the life of the service *)

Section ProbeOnce.

Variable E : env.
Hypothesis Hspawn : spawn_errors_are_os_errors E.

Lemma probe_count_app a b :
  probe_count (a ++ b) = (probe_count a + probe_count b)%nat.
Proof. unfold probe_count. rewrite List.filter_app, length_app. reflexivity. Qed.

Lemma probes_once_same w w' :
  supports_cache w' = supports_cache w -> trace w' = trace w -> probes_once w w'.
Proof.
  intros Hc Ht. exists []. rewrite Hc, Ht, app_nil_r. split; [reflexivity|].
  destruct (supports_cache w); auto.
Qed.

Lemma probes_once_refl w : probes_once w w.
Proof. apply probes_once_same; reflexivity. Qed.

Lemma probes_once_trans a b c : probes_once a b -> probes_once b c -> probes_once a c.
Proof.
  intros (e1 & T1 & H1) (e2 & T2 & H2). exists (e1 ++ e2).
  split; [rewrite T2, T1, app_assoc; reflexivity|].
  rewrite probe_count_app.
  destruct (supports_cache a) as [x|].
  - destruct H1 as [H1 H1']. rewrite H1 in H2. destruct H2 as [H2 H2'].
    split; [exact H2|lia].
  - destruct H1 as [[H1 H1']|[H1 H1']].
    + rewrite H1 in H2. destruct H2 as [[H2 H2']|[H2 H2']]; [left|right]; split;
        first [assumption|lia].
    + destruct (supports_cache b) as [y|]; [|congruence].
      destruct H2 as [H2 H2']. right. split; [congruence|lia].
Qed.

(** A process other than the probe. *)
Lemma probes_once_other w w' ev :
  supports_cache w' = supports_cache w -> trace w' = trace w ++ [ev] ->
  is_step Probe ev = false -> probes_once w w'.
Proof.
  intros Hc Ht Hev. exists [ev]. split; [exact Ht|].
  unfold probe_count. simpl. rewrite Hev, Hc. simpl.
  destruct (supports_cache w); auto.
Qed.

Lemma keeps_probes_run tag args timeout :
  tag <> Probe -> keeps probes_once (subprocess_run E tag args timeout).
Proof.
  intros Htag w.
  assert (Hev : forall b files,
            is_step Probe (Invocation tag args timeout files, b) = false).
  { intros b files. unfold is_step. simpl. destruct tag; congruence. }
  unfold subprocess_run;
    destruct (agent E (length (trace w)) args) as [secs rc out err| |e];
    try destruct timeout as [t|]; try destruct (t <? secs);
    simpl; (eapply probes_once_other; [reflexivity|reflexivity|apply Hev]).
Qed.

Lemma resolve_frame w :
  supports_cache (snd (Service._resolve_claude_cli E w)) = supports_cache w /\
  trace (snd (Service._resolve_claude_cli E w)) = trace w /\
  forall e, fst (Service._resolve_claude_cli E w) = Raise e ->
            exn_type e = RuntimeError.
Proof.
  unfold Service._resolve_claude_cli.
  destruct (claude_path w) as [p|]; [destruct (PyStr.nonempty p)|];
    try destruct (Service.resolve_loop E (Service.cli_candidates E) []);
    simpl; (split; [reflexivity|split; [reflexivity|]]);
    intros e He; try discriminate He; injection He as <-; reflexivity.
Qed.

Lemma keeps_probes_resolve : keeps probes_once (Service._resolve_claude_cli E).
Proof.
  intros w. destruct (resolve_frame w) as (Hc & Ht & _).
  apply probes_once_same; assumption.
Qed.

Lemma keeps_probes_detect : keeps probes_once (Service._detect_supports_dash_p E).
Proof.
  intros w. unfold Service._detect_supports_dash_p.
  unfold bind at 1. unfold get_world at 1.
  destruct (supports_cache w) as [b|] eqn:Hc.
  { simpl. apply probes_once_refl. }
  unfold probes_once. rewrite Hc.
  destruct (resolve_frame w) as (Hc1 & Ht1 & Hre).
  unfold bind, try_except, ret, raise, modify.
  destruct (Service._resolve_claude_cli E w) as [[cli|e|] w1] eqn:Hr;
    simpl in Hc1, Ht1, Hre.
  - unfold subprocess_run.
    destruct (agent E (length (trace w1)) [cli; "--help"]) as [secs rc out err| |e] eqn:Ha.
    + destruct (10 <? secs); simpl; eexists; rewrite Ht1;
        (split; [reflexivity|right; split; [discriminate|reflexivity]]).
    + simpl. eexists. rewrite Ht1.
      split; [reflexivity|right; split; [discriminate|reflexivity]].
    + pose proof (Hspawn _ _ _ Ha) as Hne.
      destruct (exn_class_eqb (exn_type e) RuntimeError) eqn:He.
      * exfalso. apply Hne. apply exn_class_eqb_eq. exact He.
      * simpl. eexists. rewrite Ht1.
        split; [reflexivity|right; split; [discriminate|reflexivity]].
  - rewrite (Hre e eq_refl). simpl. exists []. rewrite app_nil_r.
    split; [assumption|left; split; [congruence|reflexivity]].
  - simpl. exists []. rewrite app_nil_r.
    split; [assumption|left; split; [congruence|reflexivity]].
Qed.

Ltac probes_quiet :=
  intros ?; apply probes_once_same; reflexivity.

Lemma keeps_probes_invoke tag (sub cli repo text : string) (dash : bool) :
  tag <> Probe ->
  keeps probes_once
    (if dash then Service._run_subprocess E tag [cli; "-p"; text]
     else let* temp_path := write_temp E text in
          try_finally
            (Service._run_subprocess E tag
               [cli; "code"; sub; "--repo"; repo; "--plan"; temp_path])
            (with_tmpfiles (delete temp_path))).
Proof.
  intros Htag. destruct dash; [exact (keeps_probes_run tag _ None Htag)|].
  apply keeps_bind; [apply probes_once_trans|probes_quiet|].
  intros temp w. unfold try_finally.
  pose proof (keeps_probes_run tag
                [cli; "code"; sub; "--repo"; repo; "--plan"; temp] None Htag w) as H.
  unfold Service._run_subprocess.
  destruct (subprocess_run E tag _ None w) as [[a|e|] w1]; exact H.
Qed.

Lemma keeps_probes_run_plan repo prompt job_id :
  keeps probes_once (Service.run_plan E repo prompt job_id).
Proof.
  pose proof probes_once_refl as Hr. pose proof probes_once_trans as Ht.
  unfold Service.run_plan.
  apply keeps_bind; [assumption|apply keeps_probes_detect|]. intros dash.
  apply keeps_bind; [assumption|apply keeps_probes_resolve|]. intros cli.
  destruct dash.
  - apply keeps_bind; [assumption| |intros; apply keeps_ret; exact Hr].
    exact (keeps_probes_run Plan _ None ltac:(discriminate)).
  - apply keeps_bind; [assumption|probes_quiet|]. intros temp.
    apply keeps_bind; [assumption| |intros; apply keeps_ret; exact Hr].
    intros w. unfold try_finally.
    pose proof (keeps_probes_run Plan
                  [cli; "code"; "plan"; "--repo"; repo; "--plan"; temp] None
                  ltac:(discriminate) w) as H.
    unfold Service._run_subprocess.
    destruct (subprocess_run E Plan _ None w) as [[a|e|] w1]; exact H.
Qed.

Lemma keeps_probes_run_apply repo prompt job_id rules plan_output :
  keeps probes_once (Service.run_apply E repo prompt job_id rules plan_output).
Proof.
  pose proof probes_once_refl as Hr. pose proof probes_once_trans as Ht.
  unfold Service.run_apply.
  apply keeps_bind; [assumption|apply keeps_probes_detect|]. intros dash.
  apply keeps_bind; [assumption|apply keeps_probes_resolve|]. intros cli.
  apply (keeps_probes_invoke Apply "apply" cli repo _ dash). discriminate.
Qed.

Ltac probes_leaf :=
  intros ?; apply probes_once_same;
  unfold Service.read_text, as_dict, Service.as_path, Service.strip_value,
    Service.as_component, Service.write_artifact, Service.finish_job, replace_file,
    Service.log_event, Service.claim_job, uuid4, time_time, bind, modify, ret, raise;
  cbn beta;
  repeat match goal with
         | |- context [match ?x with _ => _ end] =>
             lazymatch x with
             | context [match _ with _ => _ end] => fail
             | _ => destruct x
             end
         end;
  reflexivity.

Ltac probes_step :=
  apply keeps_bind; [exact probes_once_trans|try probes_leaf|].

Lemma keeps_probes_finish_and_log job_file ok entry :
  keeps probes_once (Service.finish_job job_file ok ;; Service.log_event E entry).
Proof. probes_leaf. Qed.

Lemma keeps_probes_process_job job_file :
  keeps probes_once (Service.process_job E job_file).
Proof.
  unfold Service.process_job.
  probes_step. intros raw.
  destruct (json_loads raw) as [e|job_v]; [apply keeps_probes_finish_and_log|].
  probes_step. intros job.
  probes_step. intros repo.
  probes_step. intros prompt.
  probes_step. intros job_id_v.
  probes_step. intros repo_key.
  probes_step. intros job_id.
  destruct (negb (is_dir E repo)).
  { probes_step. intros _. apply keeps_probes_finish_and_log. }
  destruct (negb (PyStr.nonempty prompt)).
  { probes_step. intros _. apply keeps_probes_finish_and_log. }
  apply keeps_bind; [exact probes_once_trans| |].
  { apply keeps_try_except; [exact probes_once_trans| |].
    - apply keeps_bind; [exact probes_once_trans|apply keeps_probes_run_plan|].
      intros r. apply keeps_ret. exact probes_once_refl.
    - intros e. destruct (exn_class_eqb (exn_type e) RuntimeError);
        [apply keeps_ret|apply keeps_raise]; exact probes_once_refl. }
  intros [msg|[[[plan_rc plan_out] plan_err] rules]].
  { probes_step. intros _. apply keeps_probes_finish_and_log. }
  probes_step. intros _.
  probes_step. intros _.
  destruct (negb (plan_rc =? 0)); [apply keeps_probes_finish_and_log|].
  apply keeps_bind; [exact probes_once_trans|apply keeps_probes_run_apply|].
  intros [[apply_rc apply_out] apply_err].
  probes_step. intros _.
  probes_step. intros _.
  apply keeps_probes_finish_and_log.
Qed.

Lemma keeps_probes_worker_turn : keeps probes_once (Service.worker_turn E).
Proof.
  unfold Service.worker_turn.
  probes_step. intros [job_file|]; [|apply keeps_ret; exact probes_once_refl].
  apply keeps_try_except; [exact probes_once_trans|apply keeps_probes_process_job|].
  intros exc. apply keeps_probes_finish_and_log.
Qed.

Lemma keeps_probes_Worker_run turns : keeps probes_once (Service.Worker_run E turns).
Proof.
  induction turns as [|n IH]; simpl.
  - apply keeps_ret. exact probes_once_refl.
  - apply keeps_bind; [exact probes_once_trans|apply keeps_probes_worker_turn|].
    intros _. exact IH.
Qed.

End ProbeOnce.

(** X22. One probe for the life of the service.  When spawning a
    process does not fail with a [RuntimeError], a worker thread of the
    service, over any number of turns of its loop and whatever the jobs
    and the agent do, runs [claude --help] at most once; it runs it not
    at all when the answer is cached when the thread starts, and the
    cached answer never changes. *)
Theorem service_probes_at_most_once (E : env) (turns : nat) (w : world) :
  spawn_errors_are_os_errors E ->
  let w' := snd (Service.Worker_run E turns w) in
  (probe_count (new_events w w') <= 1)%nat /\
  forall b, supports_cache w = Some b ->
            supports_cache w' = Some b /\ probe_count (new_events w w') = 0%nat.
Proof.
  intros Hspawn w'.
  destruct (keeps_probes_Worker_run E Hspawn turns w) as (evs & Ht & H).
  fold w' in Ht, H.
  assert (Hn : new_events w w' = evs).
  { unfold new_events. rewrite Ht. apply drop_app_length. }
  rewrite Hn. split.
  - destruct (supports_cache w); [destruct H as [_ ->]; lia|].
    destruct H as [[_ ->]|[_ H]]; lia.
  - intros b Hb. rewrite Hb in H. exact H.
Qed.

Lemma service_probes_at_most_once_witness :
  let w := Scenario.one_job Scenario.job1 in
  let w' := snd (Service.Worker_run Scenario.env1 3 w) in
  spawn_errors_are_os_errors Scenario.env1 /\
  length (new_events w w') = 3%nat /\ probe_count (new_events w w') = 1%nat /\
  (probe_count (new_events w w') <= 1)%nat.
Proof.
  intros w w'.
  assert (H : spawn_errors_are_os_errors Scenario.env1).
  { intros n args e He. simpl in He. unfold Scenario.agent_plan_ok_apply_fails in He.
    repeat match type of He with
           | context [match ?x with _ => _ end] => destruct x
           end; discriminate He. }
  split; [exact H|]. split; [reflexivity|]. split; [reflexivity|].
  exact (proj1 (service_probes_at_most_once Scenario.env1 3 w H)).
Defined.
